(** * DevMentor AI: the live session pipeline of [src/components/LiveSession.tsx]

    A shallow embedding of the PCM codec helpers ([createBlob], [encode],
    [decode], [decodeAudioData]) and of the [LiveSession] component's
    handlers ([startSession], [onmessage], [stopScreenShare], [stopSession],
    [toggleMute], ...), followed by the properties of the live session
    specification that hold of them, and evaluations of the ones that do
    not.

    Conventions.
    - A JavaScript number that the code only ever uses at finite values
      (clock readings, durations) is a rational [Q], and the operations the
      code applies to them (max, +, a division by the sample rate) are
      computed exactly, where the code's doubles round each of them.  Audio
      samples are [num]: a rational, NaN or one of the infinities.
    - A [Uint8Array] is a [list Z] of values in [0, 256); a JavaScript string
      is the [list Z] of its UTF-16 code units.
    - A function that can throw returns a [result].
    - Objects with identity (audio contexts, streams, nodes, timers) live in
      a [World] keyed by [nat] identifiers; refs hold identifiers. *)

From Stdlib Require Import ZArith QArith Qround Qabs Qminmax Lia Lqa List Bool.
From stdpp Require Import gmap.
Import ListNotations.

Local Open Scope Z_scope.

(** ** Exceptions and results *)

Inductive exn : Type :=
| RangeError
| NotSupportedError
| InvalidCharacterError
| InvalidStateError
| NotAllowedError
| TypeError.

Inductive result (A : Type) : Type :=
| Ok (a : A)
| Throw (e : exn).

Arguments Ok {A} a.
Arguments Throw {A} e.

Definition bind {A B : Type} (r : result A) (k : A -> result B) : result B :=
  match r with
  | Ok a => k a
  | Throw e => Throw e
  end.

Notation "'do' x <- r ; k" := (bind r (fun x => k))
  (at level 10, x name, r at level 100, k at level 200).

(** ** Numbers *)

(** A sample of a [Float32Array], or the value of an arithmetic expression
    that may involve [undefined]: a finite number, NaN, or one of the two
    infinities. *)
Inductive num : Type :=
| Fin (q : Q)
| NaN
| PInf
| NInf.

(** ECMAScript [ToInt16]: NaN and the infinities go to 0, anything else is
    truncated toward zero and wrapped modulo 2^16 into [-32768, 32767]. *)
Definition Qtrunc (q : Q) : Z := Z.quot (Qnum q) (Zpos (Qden q)).

Definition wrap_int16 (n : Z) : Z :=
  let m := n mod 65536 in
  if 32768 <=? m then m - 65536 else m.

Definition ToInt16 (x : num) : Z :=
  match x with
  | Fin q => wrap_int16 (Qtrunc q)
  | NaN | PInf | NInf => 0
  end.

(** [x * k] for a finite constant [k]: an infinity keeps or changes its sign
    with the sign of [k], and times zero it is NaN. *)
Definition num_mul (x : num) (k : Q) : num :=
  match x with
  | Fin q => Fin (q * k)
  | NaN => NaN
  | PInf => match (k ?= 0)%Q with Gt => PInf | Lt => NInf | Eq => NaN end
  | NInf => match (k ?= 0)%Q with Gt => NInf | Lt => PInf | Eq => NaN end
  end.

(** ** Typed-array views *)

Definition is_byte (b : Z) : bool := (0 <=? b) && (b <? 256).

(** [new Uint8Array(int16.buffer)]: each element as two bytes, low byte
    first. *)
Definition int16_bytes (n : Z) : list Z :=
  let u := n mod 65536 in [u mod 256; u / 256].

Definition Uint8Array_of_Int16Array (a : list Z) : list Z :=
  flat_map int16_bytes a.

(** [new Int16Array(data.buffer)]: the constructor throws a RangeError when
    the byte length of the buffer is not a multiple of the element size. *)
Fixpoint int16_pairs (bs : list Z) : list Z :=
  match bs with
  | lo :: hi :: rest => wrap_int16 (lo + 256 * hi) :: int16_pairs rest
  | _ => []
  end.

Definition Int16Array_of_buffer (bs : list Z) : result (list Z) :=
  if Z.of_nat (length bs) mod 2 =? 0 then Ok (int16_pairs bs)
  else Throw RangeError.

(** ** Base64: [btoa] and [atob] *)

(** Code units of the alphabet, by index. *)
Definition b64_char (i : Z) : Z :=
  if i <? 26 then 65 + i
  else if i <? 52 then 97 + (i - 26)
  else if i <? 62 then 48 + (i - 52)
  else if i =? 62 then 43
  else 47.

Definition b64_index (c : Z) : option Z :=
  if (65 <=? c) && (c <=? 90) then Some (c - 65)
  else if (97 <=? c) && (c <=? 122) then Some (c - 97 + 26)
  else if (48 <=? c) && (c <=? 57) then Some (c - 48 + 52)
  else if c =? 43 then Some 62
  else if c =? 47 then Some 63
  else None.

Definition pad_char : Z := 61.

Fixpoint b64_groups (bs : list Z) : list Z :=
  match bs with
  | [] => []
  | [a] =>
      [b64_char (a / 4); b64_char (a mod 4 * 16); pad_char; pad_char]
  | [a; b] =>
      [b64_char (a / 4); b64_char (a mod 4 * 16 + b / 16);
       b64_char (b mod 16 * 4); pad_char]
  | a :: b :: c :: rest =>
      b64_char (a / 4) :: b64_char (a mod 4 * 16 + b / 16)
      :: b64_char (b mod 16 * 4 + c / 64) :: b64_char (c mod 64)
      :: b64_groups rest
  end.

(** [btoa(s)]: throws when a code unit of [s] is above 0xFF. *)
Definition btoa (s : list Z) : result (list Z) :=
  if forallb is_byte s then Ok (b64_groups s) else Throw InvalidCharacterError.

(** [atob(s)], the forgiving-base64 decode of the HTML standard: strip ASCII
    whitespace; when the length is a multiple of 4 drop one or two trailing
    [=]; fail on a length of 1 modulo 4 or on a character outside the
    alphabet; then read 6 bits per character into a bit buffer, emitting 3
    bytes each time it holds 24 bits, and finally 1 byte from 12 left-over
    bits or 2 bytes from 18.  [atob_loop] lists the bytes in the order they
    are appended to the output. *)
Definition is_ascii_whitespace (c : Z) : bool :=
  (c =? 9) || (c =? 10) || (c =? 12) || (c =? 13) || (c =? 32).

Definition drop_last_pad (s : list Z) : list Z :=
  match s with
  | [] => []
  | _ => if List.last s 0 =? pad_char then removelast s else s
  end.

Definition strip_padding (s : list Z) : list Z :=
  if Z.of_nat (length s) mod 4 =? 0 then drop_last_pad (drop_last_pad s) else s.

Definition in_alphabet (c : Z) : bool :=
  match b64_index c with Some _ => true | None => false end.

Fixpoint atob_loop (s : list Z) (buffer : Z) (nbits : Z) : list Z :=
  match s with
  | [] =>
      if nbits =? 12 then [buffer / 16]
      else if nbits =? 18 then [buffer / 4 / 256; buffer / 4 mod 256]
      else []
  | c :: rest =>
      let buffer' := buffer * 64 + default 0 (b64_index c) in
      if nbits + 6 =? 24 then
        buffer' / 65536 :: buffer' / 256 mod 256 :: buffer' mod 256
        :: atob_loop rest 0 0
      else atob_loop rest buffer' (nbits + 6)
  end.

Definition atob (s : list Z) : result (list Z) :=
  let data := strip_padding (List.filter (fun c => negb (is_ascii_whitespace c)) s) in
  if Z.of_nat (length data) mod 4 =? 1 then Throw InvalidCharacterError
  else if negb (forallb in_alphabet data) then Throw InvalidCharacterError
  else Ok (atob_loop data 0 0).

(** ** The audio helper functions of the source *)

(** [String.fromCharCode(b)] and [s.charCodeAt(i)] on code units. *)
Definition fromCharCode (b : Z) : Z := b mod 65536.

(** A [Uint8Array] element store keeps the low 8 bits. *)
Definition Uint8_store (v : Z) : Z := v mod 256.

(** [encode(bytes)]: the binary string of the bytes, through [btoa]. *)
Definition encode (bytes : list Z) : result (list Z) :=
  let binary := map fromCharCode bytes in
  btoa binary.

(** [decode(base64)]: [atob], then each code unit stored in a [Uint8Array]. *)
Definition decode (base64 : list Z) : result (list Z) :=
  do binaryString <- atob base64;
  Ok (map Uint8_store binaryString).

(** The [GenAIBlob] that [createBlob] returns. *)
Inductive MimeType : Type :=
| audio_pcm_rate_16000
| image_jpeg.

Record GenAIBlob : Type := {
  blob_data : list Z;
  blob_mimeType : MimeType
}.

(** [createBlob(data)]: each sample times 32768, stored into an
    [Int16Array]; the bytes of that array, base64-encoded. *)
Definition createBlob (data : list num) : result GenAIBlob :=
  let int16 := map (fun s => ToInt16 (num_mul s 32768)) data in
  do d <- encode (Uint8Array_of_Int16Array int16);
  Ok {| blob_data := d; blob_mimeType := audio_pcm_rate_16000 |}.

(** ** Audio buffers and [decodeAudioData] *)

Record AudioBuffer : Type := {
  numberOfChannels : nat;
  buffer_length : nat;
  buffer_sampleRate : Q;
  channels : list (list num)
}.

(** [audioBuffer.duration]: the length in sample-frames over the rate. *)
Definition duration (b : AudioBuffer) : Q :=
  (inject_Z (Z.of_nat (buffer_length b)) / buffer_sampleRate b)%Q.

(** The nominal range of a buffer's sample rate. *)
Definition supported_rate (sampleRate : Q) : bool :=
  Qle_bool 8000 sampleRate && Qle_bool sampleRate 96000.

(** [ctx.createBuffer(numberOfChannels, length, sampleRate)].  The length is
    converted to an unsigned long, which drops its fractional part; the call
    throws NotSupportedError when an argument is zero or outside its nominal
    range (1 to 32 channels, 8000 to 96000 Hz); the new buffer is silent. *)
Definition createBuffer (numChannels : nat) (length : Q) (sampleRate : Q)
  : result AudioBuffer :=
  let len := Z.to_nat (Qtrunc length mod 4294967296) in
  if (numChannels =? 0)%nat || (32 <? numChannels)%nat then Throw NotSupportedError
  else if (len =? 0)%nat then Throw NotSupportedError
  else if negb (supported_rate sampleRate) then Throw NotSupportedError
  else Ok {| numberOfChannels := numChannels;
             buffer_length := len;
             buffer_sampleRate := sampleRate;
             channels := repeat (repeat (Fin 0) len) numChannels |}.

(** [dataInt16[k] / 32768.0]; an index past the end reads [undefined], and
    the quotient is then NaN. *)
Definition int16_sample (dataInt16 : list Z) (k : nat) : num :=
  match dataInt16 !! k with
  | Some v => Fin (inject_Z v / 32768)%Q
  | None => NaN
  end.

(** The inner loop, [for (let i = 0; i < frameCount; i++)], from [i] on.
    [frameCount] is the quotient of two lengths and need not be an integer.
    A store past the end of [channelData] is ignored, which is what the
    list update does. *)
Fixpoint fill_channel (fuel : nat) (dataInt16 : list Z) (numChannels channel : nat)
    (frameCount : Q) (i : nat) (channelData : list num) : list num :=
  match fuel with
  | O => channelData
  | S fuel' =>
      if Qlt_le_dec (inject_Z (Z.of_nat i)) frameCount then
        fill_channel fuel' dataInt16 numChannels channel frameCount (S i)
          (<[ i := int16_sample dataInt16 (i * numChannels + channel) ]> channelData)
      else channelData
  end.

(** The outer loop, over the channels [channel, channel + 1, ...] of the
    buffer. *)
Fixpoint fill_channels (dataInt16 : list Z) (numChannels : nat) (frameCount : Q)
    (channel : nat) (chans : list (list num)) : list (list num) :=
  match chans with
  | [] => []
  | channelData :: rest =>
      fill_channel (S (length dataInt16)) dataInt16 numChannels channel
        frameCount 0 channelData
      :: fill_channels dataInt16 numChannels frameCount (S channel) rest
  end.

(** [decodeAudioData(data, ctx, sampleRate, numChannels)].  The context only
    serves to create the buffer.  With [numChannels = 0] the source's
    [frameCount] is infinite or NaN and [createBuffer] throws on the channel
    count, as it does here. *)
Definition decodeAudioData (data : list Z) (ctx : nat) (sampleRate : Q)
    (numChannels : nat) : result AudioBuffer :=
  do dataInt16 <- Int16Array_of_buffer data;
  let frameCount :=
    (inject_Z (Z.of_nat (length dataInt16)) / inject_Z (Z.of_nat numChannels))%Q in
  do buffer <- createBuffer numChannels frameCount sampleRate;
  Ok {| numberOfChannels := numberOfChannels buffer;
        buffer_length := buffer_length buffer;
        buffer_sampleRate := buffer_sampleRate buffer;
        channels :=
          fill_channels dataInt16 numChannels frameCount 0 (channels buffer) |}.

(** ** The browser objects the component holds *)

Inductive Status : Type := idle | connecting | connected | error.

Record AudioContext : Type := {
  ctx_sampleRate : Q;
  ctx_closed : bool
}.

(** [active]: some track of the stream is live.  [onended]: the video
    track's [onended] handler has been set (to [stopScreenShare]). *)
Record MediaStream : Type := {
  active : bool;
  onended : bool
}.

(** The audio nodes the component creates.  A script processor carries the
    environment of its [onaudioprocess] closure: the [isMuted] constant of
    the render whose [startSession] built it, and the [sessionPromise] local
    of that call.  A buffer source carries its buffer, the time passed to
    [start] and whether it has finished (by itself or through [stop]). *)
Inductive AudioNode : Type :=
| MediaStreamAudioSourceNode (stream : nat) (node_connected : bool)
| ScriptProcessorNode (node_connected : bool)
    (handler_isMuted : bool) (handler_session : nat)
| AudioBufferSourceNode (buffer : AudioBuffer) (when : option Q)
    (finished : bool).

Record VideoElement : Type := {
  srcObject : option nat
}.

(** The objects outside the component.  [timers] maps the handle of a live
    interval timer to its period in milliseconds.  [outbox] lists, latest
    first, the realtime inputs handed to [session.sendRealtimeInput] through
    a session promise; [close_requests] the promises on which [close] was
    requested. *)
Record World : Type := {
  contexts : gmap nat AudioContext;
  streams : gmap nat MediaStream;
  timers : gmap positive Z;
  nodes : gmap nat AudioNode;
  outbox : list (nat * GenAIBlob);
  close_requests : list nat;
  fresh : nat
}.

(** The component: its React state ([useState]), its refs ([useRef]) and the
    world around it. *)
Record State : Type := {
  isActive : bool;
  status : Status;
  isMuted : bool;
  isScreenSharing : bool;
  volumeLevel : num;
  audioContextRef : option nat;
  inputAudioContextRef : option nat;
  streamRef : option nat;
  processorRef : option nat;
  sourceRef : option nat;
  screenStreamRef : option nat;
  videoRef : option VideoElement;
  canvasRef : bool;
  screenIntervalRef : option positive;
  sessionPromiseRef : option nat;
  aiRef : bool;
  nextStartTimeRef : Q;
  sourcesRef : gset nat;
  world : World
}.

(** Field updates. *)
Definition set_contexts (v : gmap nat AudioContext) (s : World) : World :=
  {| contexts := v; streams := streams s; timers := timers s;
     nodes := nodes s; outbox := outbox s;
     close_requests := close_requests s; fresh := fresh s |}.

Definition set_streams (v : gmap nat MediaStream) (s : World) : World :=
  {| contexts := contexts s; streams := v; timers := timers s;
     nodes := nodes s; outbox := outbox s;
     close_requests := close_requests s; fresh := fresh s |}.

Definition set_timers (v : gmap positive Z) (s : World) : World :=
  {| contexts := contexts s; streams := streams s; timers := v;
     nodes := nodes s; outbox := outbox s;
     close_requests := close_requests s; fresh := fresh s |}.

Definition set_nodes (v : gmap nat AudioNode) (s : World) : World :=
  {| contexts := contexts s; streams := streams s; timers := timers s;
     nodes := v; outbox := outbox s; close_requests := close_requests s;
     fresh := fresh s |}.

Definition set_outbox (v : list (nat * GenAIBlob)) (s : World) : World :=
  {| contexts := contexts s; streams := streams s; timers := timers s;
     nodes := nodes s; outbox := v; close_requests := close_requests s;
     fresh := fresh s |}.

Definition set_close_requests (v : list nat) (s : World) : World :=
  {| contexts := contexts s; streams := streams s; timers := timers s;
     nodes := nodes s; outbox := outbox s; close_requests := v;
     fresh := fresh s |}.

Definition set_fresh (v : nat) (s : World) : World :=
  {| contexts := contexts s; streams := streams s; timers := timers s;
     nodes := nodes s; outbox := outbox s;
     close_requests := close_requests s; fresh := v |}.
Definition set_isActive (v : bool) (s : State) : State :=
  {| isActive := v; status := status s; isMuted := isMuted s;
     isScreenSharing := isScreenSharing s; volumeLevel := volumeLevel s;
     audioContextRef := audioContextRef s;
     inputAudioContextRef := inputAudioContextRef s;
     streamRef := streamRef s; processorRef := processorRef s;
     sourceRef := sourceRef s; screenStreamRef := screenStreamRef s;
     videoRef := videoRef s; canvasRef := canvasRef s;
     screenIntervalRef := screenIntervalRef s;
     sessionPromiseRef := sessionPromiseRef s; aiRef := aiRef s;
     nextStartTimeRef := nextStartTimeRef s; sourcesRef := sourcesRef s;
     world := world s |}.

Definition set_status (v : Status) (s : State) : State :=
  {| isActive := isActive s; status := v; isMuted := isMuted s;
     isScreenSharing := isScreenSharing s; volumeLevel := volumeLevel s;
     audioContextRef := audioContextRef s;
     inputAudioContextRef := inputAudioContextRef s;
     streamRef := streamRef s; processorRef := processorRef s;
     sourceRef := sourceRef s; screenStreamRef := screenStreamRef s;
     videoRef := videoRef s; canvasRef := canvasRef s;
     screenIntervalRef := screenIntervalRef s;
     sessionPromiseRef := sessionPromiseRef s; aiRef := aiRef s;
     nextStartTimeRef := nextStartTimeRef s; sourcesRef := sourcesRef s;
     world := world s |}.

Definition set_isMuted (v : bool) (s : State) : State :=
  {| isActive := isActive s; status := status s; isMuted := v;
     isScreenSharing := isScreenSharing s; volumeLevel := volumeLevel s;
     audioContextRef := audioContextRef s;
     inputAudioContextRef := inputAudioContextRef s;
     streamRef := streamRef s; processorRef := processorRef s;
     sourceRef := sourceRef s; screenStreamRef := screenStreamRef s;
     videoRef := videoRef s; canvasRef := canvasRef s;
     screenIntervalRef := screenIntervalRef s;
     sessionPromiseRef := sessionPromiseRef s; aiRef := aiRef s;
     nextStartTimeRef := nextStartTimeRef s; sourcesRef := sourcesRef s;
     world := world s |}.

Definition set_isScreenSharing (v : bool) (s : State) : State :=
  {| isActive := isActive s; status := status s; isMuted := isMuted s;
     isScreenSharing := v; volumeLevel := volumeLevel s;
     audioContextRef := audioContextRef s;
     inputAudioContextRef := inputAudioContextRef s;
     streamRef := streamRef s; processorRef := processorRef s;
     sourceRef := sourceRef s; screenStreamRef := screenStreamRef s;
     videoRef := videoRef s; canvasRef := canvasRef s;
     screenIntervalRef := screenIntervalRef s;
     sessionPromiseRef := sessionPromiseRef s; aiRef := aiRef s;
     nextStartTimeRef := nextStartTimeRef s; sourcesRef := sourcesRef s;
     world := world s |}.

Definition set_volumeLevel (v : num) (s : State) : State :=
  {| isActive := isActive s; status := status s; isMuted := isMuted s;
     isScreenSharing := isScreenSharing s; volumeLevel := v;
     audioContextRef := audioContextRef s;
     inputAudioContextRef := inputAudioContextRef s;
     streamRef := streamRef s; processorRef := processorRef s;
     sourceRef := sourceRef s; screenStreamRef := screenStreamRef s;
     videoRef := videoRef s; canvasRef := canvasRef s;
     screenIntervalRef := screenIntervalRef s;
     sessionPromiseRef := sessionPromiseRef s; aiRef := aiRef s;
     nextStartTimeRef := nextStartTimeRef s; sourcesRef := sourcesRef s;
     world := world s |}.

Definition set_audioContextRef (v : option nat) (s : State) : State :=
  {| isActive := isActive s; status := status s; isMuted := isMuted s;
     isScreenSharing := isScreenSharing s; volumeLevel := volumeLevel s;
     audioContextRef := v; inputAudioContextRef := inputAudioContextRef s;
     streamRef := streamRef s; processorRef := processorRef s;
     sourceRef := sourceRef s; screenStreamRef := screenStreamRef s;
     videoRef := videoRef s; canvasRef := canvasRef s;
     screenIntervalRef := screenIntervalRef s;
     sessionPromiseRef := sessionPromiseRef s; aiRef := aiRef s;
     nextStartTimeRef := nextStartTimeRef s; sourcesRef := sourcesRef s;
     world := world s |}.

Definition set_inputAudioContextRef (v : option nat) (s : State) : State :=
  {| isActive := isActive s; status := status s; isMuted := isMuted s;
     isScreenSharing := isScreenSharing s; volumeLevel := volumeLevel s;
     audioContextRef := audioContextRef s; inputAudioContextRef := v;
     streamRef := streamRef s; processorRef := processorRef s;
     sourceRef := sourceRef s; screenStreamRef := screenStreamRef s;
     videoRef := videoRef s; canvasRef := canvasRef s;
     screenIntervalRef := screenIntervalRef s;
     sessionPromiseRef := sessionPromiseRef s; aiRef := aiRef s;
     nextStartTimeRef := nextStartTimeRef s; sourcesRef := sourcesRef s;
     world := world s |}.

Definition set_streamRef (v : option nat) (s : State) : State :=
  {| isActive := isActive s; status := status s; isMuted := isMuted s;
     isScreenSharing := isScreenSharing s; volumeLevel := volumeLevel s;
     audioContextRef := audioContextRef s;
     inputAudioContextRef := inputAudioContextRef s; streamRef := v;
     processorRef := processorRef s; sourceRef := sourceRef s;
     screenStreamRef := screenStreamRef s; videoRef := videoRef s;
     canvasRef := canvasRef s; screenIntervalRef := screenIntervalRef s;
     sessionPromiseRef := sessionPromiseRef s; aiRef := aiRef s;
     nextStartTimeRef := nextStartTimeRef s; sourcesRef := sourcesRef s;
     world := world s |}.

Definition set_processorRef (v : option nat) (s : State) : State :=
  {| isActive := isActive s; status := status s; isMuted := isMuted s;
     isScreenSharing := isScreenSharing s; volumeLevel := volumeLevel s;
     audioContextRef := audioContextRef s;
     inputAudioContextRef := inputAudioContextRef s;
     streamRef := streamRef s; processorRef := v; sourceRef := sourceRef s;
     screenStreamRef := screenStreamRef s; videoRef := videoRef s;
     canvasRef := canvasRef s; screenIntervalRef := screenIntervalRef s;
     sessionPromiseRef := sessionPromiseRef s; aiRef := aiRef s;
     nextStartTimeRef := nextStartTimeRef s; sourcesRef := sourcesRef s;
     world := world s |}.

Definition set_sourceRef (v : option nat) (s : State) : State :=
  {| isActive := isActive s; status := status s; isMuted := isMuted s;
     isScreenSharing := isScreenSharing s; volumeLevel := volumeLevel s;
     audioContextRef := audioContextRef s;
     inputAudioContextRef := inputAudioContextRef s;
     streamRef := streamRef s; processorRef := processorRef s;
     sourceRef := v; screenStreamRef := screenStreamRef s;
     videoRef := videoRef s; canvasRef := canvasRef s;
     screenIntervalRef := screenIntervalRef s;
     sessionPromiseRef := sessionPromiseRef s; aiRef := aiRef s;
     nextStartTimeRef := nextStartTimeRef s; sourcesRef := sourcesRef s;
     world := world s |}.

Definition set_screenStreamRef (v : option nat) (s : State) : State :=
  {| isActive := isActive s; status := status s; isMuted := isMuted s;
     isScreenSharing := isScreenSharing s; volumeLevel := volumeLevel s;
     audioContextRef := audioContextRef s;
     inputAudioContextRef := inputAudioContextRef s;
     streamRef := streamRef s; processorRef := processorRef s;
     sourceRef := sourceRef s; screenStreamRef := v; videoRef := videoRef s;
     canvasRef := canvasRef s; screenIntervalRef := screenIntervalRef s;
     sessionPromiseRef := sessionPromiseRef s; aiRef := aiRef s;
     nextStartTimeRef := nextStartTimeRef s; sourcesRef := sourcesRef s;
     world := world s |}.

Definition set_videoRef (v : option VideoElement) (s : State) : State :=
  {| isActive := isActive s; status := status s; isMuted := isMuted s;
     isScreenSharing := isScreenSharing s; volumeLevel := volumeLevel s;
     audioContextRef := audioContextRef s;
     inputAudioContextRef := inputAudioContextRef s;
     streamRef := streamRef s; processorRef := processorRef s;
     sourceRef := sourceRef s; screenStreamRef := screenStreamRef s;
     videoRef := v; canvasRef := canvasRef s;
     screenIntervalRef := screenIntervalRef s;
     sessionPromiseRef := sessionPromiseRef s; aiRef := aiRef s;
     nextStartTimeRef := nextStartTimeRef s; sourcesRef := sourcesRef s;
     world := world s |}.

Definition set_screenIntervalRef (v : option positive) (s : State) : State :=
  {| isActive := isActive s; status := status s; isMuted := isMuted s;
     isScreenSharing := isScreenSharing s; volumeLevel := volumeLevel s;
     audioContextRef := audioContextRef s;
     inputAudioContextRef := inputAudioContextRef s;
     streamRef := streamRef s; processorRef := processorRef s;
     sourceRef := sourceRef s; screenStreamRef := screenStreamRef s;
     videoRef := videoRef s; canvasRef := canvasRef s;
     screenIntervalRef := v; sessionPromiseRef := sessionPromiseRef s;
     aiRef := aiRef s; nextStartTimeRef := nextStartTimeRef s;
     sourcesRef := sourcesRef s; world := world s |}.

Definition set_sessionPromiseRef (v : option nat) (s : State) : State :=
  {| isActive := isActive s; status := status s; isMuted := isMuted s;
     isScreenSharing := isScreenSharing s; volumeLevel := volumeLevel s;
     audioContextRef := audioContextRef s;
     inputAudioContextRef := inputAudioContextRef s;
     streamRef := streamRef s; processorRef := processorRef s;
     sourceRef := sourceRef s; screenStreamRef := screenStreamRef s;
     videoRef := videoRef s; canvasRef := canvasRef s;
     screenIntervalRef := screenIntervalRef s; sessionPromiseRef := v;
     aiRef := aiRef s; nextStartTimeRef := nextStartTimeRef s;
     sourcesRef := sourcesRef s; world := world s |}.

Definition set_nextStartTimeRef (v : Q) (s : State) : State :=
  {| isActive := isActive s; status := status s; isMuted := isMuted s;
     isScreenSharing := isScreenSharing s; volumeLevel := volumeLevel s;
     audioContextRef := audioContextRef s;
     inputAudioContextRef := inputAudioContextRef s;
     streamRef := streamRef s; processorRef := processorRef s;
     sourceRef := sourceRef s; screenStreamRef := screenStreamRef s;
     videoRef := videoRef s; canvasRef := canvasRef s;
     screenIntervalRef := screenIntervalRef s;
     sessionPromiseRef := sessionPromiseRef s; aiRef := aiRef s;
     nextStartTimeRef := v; sourcesRef := sourcesRef s; world := world s |}.

Definition set_sourcesRef (v : gset nat) (s : State) : State :=
  {| isActive := isActive s; status := status s; isMuted := isMuted s;
     isScreenSharing := isScreenSharing s; volumeLevel := volumeLevel s;
     audioContextRef := audioContextRef s;
     inputAudioContextRef := inputAudioContextRef s;
     streamRef := streamRef s; processorRef := processorRef s;
     sourceRef := sourceRef s; screenStreamRef := screenStreamRef s;
     videoRef := videoRef s; canvasRef := canvasRef s;
     screenIntervalRef := screenIntervalRef s;
     sessionPromiseRef := sessionPromiseRef s; aiRef := aiRef s;
     nextStartTimeRef := nextStartTimeRef s; sourcesRef := v;
     world := world s |}.

Definition set_world (v : World) (s : State) : State :=
  {| isActive := isActive s; status := status s; isMuted := isMuted s;
     isScreenSharing := isScreenSharing s; volumeLevel := volumeLevel s;
     audioContextRef := audioContextRef s;
     inputAudioContextRef := inputAudioContextRef s;
     streamRef := streamRef s; processorRef := processorRef s;
     sourceRef := sourceRef s; screenStreamRef := screenStreamRef s;
     videoRef := videoRef s; canvasRef := canvasRef s;
     screenIntervalRef := screenIntervalRef s;
     sessionPromiseRef := sessionPromiseRef s; aiRef := aiRef s;
     nextStartTimeRef := nextStartTimeRef s; sourcesRef := sourcesRef s;
     world := v |}.
(** ** Operations of the browser objects *)

Definition new_context (rate : Q) (w : World) : nat * World :=
  (fresh w,
   set_fresh (S (fresh w))
     (set_contexts
        (<[ fresh w := {| ctx_sampleRate := rate; ctx_closed := false |} ]>
           (contexts w)) w)).

Definition closed_context (c : AudioContext) : AudioContext :=
  {| ctx_sampleRate := ctx_sampleRate c; ctx_closed := true |}.

(** [ctx.close()]. *)
Definition close_context (ctx : nat) (w : World) : World :=
  set_contexts (alter closed_context ctx (contexts w)) w.

(** A stream granted by [getUserMedia] or [getDisplayMedia]. *)
Definition new_stream (w : World) : nat * World :=
  (fresh w,
   set_fresh (S (fresh w))
     (set_streams (<[ fresh w := {| active := true; onended := false |} ]> (streams w)) w)).

Definition stopped_stream (s : MediaStream) : MediaStream :=
  {| active := false; onended := onended s |}.

(** [stream.getTracks().forEach(track => track.stop())]. *)
Definition stop_tracks (stream : nat) (w : World) : World :=
  set_streams (alter stopped_stream stream (streams w)) w.

Definition set_onended (stream : nat) (w : World) : World :=
  set_streams
    (alter (fun s => {| active := active s; onended := true |}) stream (streams w)) w.

Definition stream_active (stream : nat) (w : World) : bool :=
  match streams w !! stream with
  | Some s => active s
  | None => false
  end.

(** [window.setInterval(handler, period)]: handles are positive. *)
Definition setInterval (period : Z) (w : World) : positive * World :=
  (Pos.of_succ_nat (fresh w),
   set_fresh (S (fresh w))
     (set_timers (<[ Pos.of_succ_nat (fresh w) := period ]> (timers w)) w)).

Definition clearInterval (timer : positive) (w : World) : World :=
  set_timers (delete timer (timers w)) w.

Definition new_node (n : AudioNode) (w : World) : nat * World :=
  (fresh w, set_fresh (S (fresh w)) (set_nodes (<[ fresh w := n ]> (nodes w)) w)).

Definition disconnected (n : AudioNode) : AudioNode :=
  match n with
  | MediaStreamAudioSourceNode s _ => MediaStreamAudioSourceNode s false
  | ScriptProcessorNode _ m p => ScriptProcessorNode false m p
  | AudioBufferSourceNode b t f => AudioBufferSourceNode b t f
  end.

(** [node.disconnect()]. *)
Definition disconnect (node : nat) (w : World) : World :=
  set_nodes (alter disconnected node (nodes w)) w.

(** [src.stop()]: InvalidStateError on a source that was never started;
    otherwise the source stops, and stopping one that has already finished
    changes nothing. *)
Definition source_stop (src : nat) (w : World) : result World :=
  match nodes w !! src with
  | Some (AudioBufferSourceNode b (Some t) _) =>
      Ok (set_nodes (<[ src := AudioBufferSourceNode b (Some t) true ]> (nodes w)) w)
  | _ => Throw InvalidStateError
  end.

(** [sessionPromise.then(session => session.sendRealtimeInput({ media }))]. *)
Definition send (sessionPromise : nat) (media : GenAIBlob) (w : World) : World :=
  set_outbox ((sessionPromise, media) :: outbox w) w.

Definition request_close (sessionPromise : nat) (w : World) : World :=
  set_close_requests (sessionPromise :: close_requests w) w.

(** [promise.then(session => session.close()).catch(() => {})]: what the
    derived promise settles to, from the outcome of the session promise and
    of the [close] call. *)
Definition then_close_catch (session : result unit) (close : result unit)
  : result unit :=
  match (do _ <- session; close) with
  | Ok _ => Ok tt
  | Throw _ => Ok tt
  end.

(** ** The component *)

Definition empty_world : World :=
  {| contexts := ∅; streams := ∅; timers := ∅; nodes := ∅;
     outbox := []; close_requests := []; fresh := 0 |}.

(** The first render: the initial values of every [useState] and [useRef]. *)
Definition initial : State :=
  {| isActive := false; status := idle; isMuted := false;
     isScreenSharing := false; volumeLevel := Fin 0;
     audioContextRef := None; inputAudioContextRef := None;
     streamRef := None; processorRef := None; sourceRef := None;
     screenStreamRef := None; videoRef := None; canvasRef := false;
     screenIntervalRef := None; sessionPromiseRef := None; aiRef := false;
     nextStartTimeRef := 0; sourcesRef := ∅; world := empty_world |}.

(** The mount effect: the client, the hidden video and the canvas. *)
Definition mount (s : State) : State :=
  {| isActive := isActive s; status := status s; isMuted := isMuted s;
     isScreenSharing := isScreenSharing s; volumeLevel := volumeLevel s;
     audioContextRef := audioContextRef s;
     inputAudioContextRef := inputAudioContextRef s;
     streamRef := streamRef s; processorRef := processorRef s;
     sourceRef := sourceRef s; screenStreamRef := screenStreamRef s;
     videoRef := Some {| srcObject := None |}; canvasRef := true;
     screenIntervalRef := screenIntervalRef s;
     sessionPromiseRef := sessionPromiseRef s; aiRef := true;
     nextStartTimeRef := nextStartTimeRef s; sourcesRef := sourcesRef s;
     world := world s |}.

(** *** Screen sharing *)

Definition stopScreenShare (st : State) : State :=
  let st :=
    match screenIntervalRef st with
    | Some timer =>
        set_screenIntervalRef None (set_world (clearInterval timer (world st)) st)
    | None => st
    end in
  let st :=
    match screenStreamRef st with
    | Some stream =>
        set_screenStreamRef None (set_world (stop_tracks stream (world st)) st)
    | None => st
    end in
  let st :=
    match videoRef st with
    | Some _ => set_videoRef (Some {| srcObject := None |}) st
    | None => st
    end in
  set_isScreenSharing false st.

(** [startScreenShare] up to its [await]: the flag tells whether
    [getDisplayMedia] was requested. *)
Definition startScreenShare (st : State) : State * bool :=
  match sessionPromiseRef st with
  | None => (st, false)
  | Some _ => (st, true)
  end.

(** The period of the frame timer, in milliseconds. *)
Definition frame_period : Z := 1000.

(** [startScreenShare] from its [await] on: [granted] is the outcome of
    [getDisplayMedia], [context2d] whether [canvas.getContext('2d')] gave a
    context. *)
Definition startScreenShare_resume (granted : result unit) (context2d : bool)
    (st : State) : State :=
  match granted with
  | Throw _ => set_isScreenSharing false st
  | Ok _ =>
      let (stream, w) := new_stream (world st) in
      let st := set_screenStreamRef (Some stream) (set_world w st) in
      let st :=
        match videoRef st with
        | Some _ => set_videoRef (Some {| srcObject := Some stream |}) st
        | None => st
        end in
      let st := set_isScreenSharing true st in
      if negb (canvasRef st) || negb (bool_decide (is_Some (videoRef st))) then st
      else if negb context2d then st
      else
        let (timer, w) := setInterval frame_period (world st) in
        let st := set_screenIntervalRef (Some timer) (set_world w st) in
        set_world (set_onended stream (world st)) st
  end.

(** The interval callback; [base64Data] is the JPEG payload cut out of
    [canvas.toDataURL('image/jpeg', 0.8)]. *)
Definition tick (base64Data : list Z) (st : State) : State :=
  let stream_is_active :=
    match screenStreamRef st with
    | Some stream => stream_active stream (world st)
    | None => false
    end in
  if negb stream_is_active then stopScreenShare st
  else
    match sessionPromiseRef st with
    | Some sessionPromise =>
        set_world
          (send sessionPromise
             {| blob_data := base64Data; blob_mimeType := image_jpeg |}
             (world st)) st
    | None => st
    end.

(** A timer event: only a live timer fires. *)
Definition interval_event (timer : positive) (base64Data : list Z) (st : State)
  : State :=
  match timers (world st) !! timer with
  | Some _ => tick base64Data st
  | None => st
  end.

(** The [onended] handler set on the video track. *)
Definition track_onended (st : State) : State := stopScreenShare st.

(** The user revokes sharing in the browser: the track ends, the stream is
    no longer active, and the handler runs when one was set. *)
Definition track_ended_event (stream : nat) (st : State) : State :=
  match streams (world st) !! stream with
  | Some s =>
      if active s then
        let st' := set_world (stop_tracks stream (world st)) st in
        if onended s then track_onended st' else st'
      else st
  | None => st
  end.

(** *** Teardown *)

Definition stopSession (st : State) : State :=
  let st := stopScreenShare st in
  let st :=
    match processorRef st with
    | Some processor =>
        set_processorRef None (set_world (disconnect processor (world st)) st)
    | None => st
    end in
  let st :=
    match sourceRef st with
    | Some source =>
        set_sourceRef None (set_world (disconnect source (world st)) st)
    | None => st
    end in
  let st :=
    match streamRef st with
    | Some stream =>
        set_streamRef None (set_world (stop_tracks stream (world st)) st)
    | None => st
    end in
  let st :=
    match audioContextRef st with
    | Some ctx =>
        set_audioContextRef None (set_world (close_context ctx (world st)) st)
    | None => st
    end in
  let st :=
    match inputAudioContextRef st with
    | Some ctx =>
        set_inputAudioContextRef None (set_world (close_context ctx (world st)) st)
    | None => st
    end in
  let st :=
    match sessionPromiseRef st with
    | Some sessionPromise =>
        set_sessionPromiseRef None
          (set_world (request_close sessionPromise (world st)) st)
    | None => st
    end in
  let st := set_isActive false st in
  let st := set_status idle st in
  let st := set_volumeLevel (Fin 0) st in
  set_nextStartTimeRef 0 st.

Definition toggleMute (st : State) : State :=
  set_isMuted (negb (isMuted st)) st.

(** The cleanup of the mount effect. *)
Definition unmount (st : State) : State := stopSession st.

(** *** Starting a session *)

(** The locals of a [startSession] call that its closures capture.
    [render_isMuted] is the [isMuted] constant of the render that created
    this [startSession]. *)
Record StartLocals : Type := {
  inputCtx : nat;
  outputCtx : nat;
  render_isMuted : bool
}.

(** [startSession] up to [await getUserMedia]. *)
Definition startSession (st : State) : State * option StartLocals :=
  if negb (aiRef st) then (st, None)
  else
    let st := set_status connecting st in
    let (inputCtx, w) := new_context 16000 (world st) in
    let (outputCtx, w) := new_context 24000 w in
    let st := set_inputAudioContextRef (Some inputCtx) (set_world w st) in
    let st := set_audioContextRef (Some outputCtx) st in
    (st, Some {| inputCtx := inputCtx; outputCtx := outputCtx;
                 render_isMuted := isMuted st |}).

(** What the callbacks passed to [live.connect] close over. *)
Record Callbacks : Type := {
  cb_inputCtx : nat;
  cb_outputCtx : nat;
  cb_stream : nat;
  cb_sessionPromise : nat;
  cb_isMuted : bool
}.

(** [startSession] from the [await] on: [granted] is the outcome of
    [getUserMedia].  A rejection lands in the [catch].  [live.connect]
    returns its promise without being awaited, so a failure to open the
    transport does not reach the [catch]; it comes back through [onerror]. *)
Definition startSession_resume (l : StartLocals) (granted : result unit)
    (st : State) : State * option Callbacks :=
  match granted with
  | Throw _ => (set_status error st, None)
  | Ok _ =>
      let (stream, w) := new_stream (world st) in
      let st := set_streamRef (Some stream) (set_world w st) in
      let sessionPromise := fresh (world st) in
      let st := set_world (set_fresh (S (fresh (world st))) (world st)) st in
      (set_sessionPromiseRef (Some sessionPromise) st,
       Some {| cb_inputCtx := inputCtx l; cb_outputCtx := outputCtx l;
               cb_stream := stream; cb_sessionPromise := sessionPromise;
               cb_isMuted := render_isMuted l |})
  end.

(** *** Capture *)

(** [a + b]: the two infinities add up to NaN, an infinity absorbs a finite
    number. *)
Definition num_add (a b : num) : num :=
  match a, b with
  | Fin x, Fin y => Fin (x + y)
  | NaN, _ | _, NaN => NaN
  | PInf, NInf | NInf, PInf => NaN
  | PInf, _ | _, PInf => PInf
  | NInf, _ | _, NInf => NInf
  end.

(** [Math.abs(a)]. *)
Definition num_abs (a : num) : num :=
  match a with
  | Fin x => Fin (Qabs x)
  | NaN => NaN
  | PInf | NInf => PInf
  end.

(** [Math.min(100, (sum / inputData.length) * 500)].  On an empty block
    the sum is 0 and the quotient 0 / 0 is NaN; an infinite sum stays
    infinite through the division and the product. *)
Definition volume (inputData : list num) : num :=
  let sum := fold_left (fun s x => num_add s (num_abs x)) inputData (Fin 0) in
  match sum, inputData with
  | Fin s, _ :: _ =>
      Fin (Qmin 100 (s / inject_Z (Z.of_nat (length inputData)) * 500))
  | Fin _, [] => NaN
  | NaN, _ => NaN
  | PInf, _ => Fin 100
  | NInf, _ => NInf
  end.

(** The [onaudioprocess] handler, with the two constants it closed over. *)
Definition onaudioprocess (isMuted : bool) (sessionPromise : nat)
    (inputData : list num) (st : State) : State * result unit :=
  if isMuted then (st, Ok tt)
  else
    let st := set_volumeLevel (volume inputData) st in
    match createBlob inputData with
    | Throw e => (st, Throw e)
    | Ok pcmBlob => (set_world (send sessionPromise pcmBlob (world st)) st, Ok tt)
    end.

(** An [audioprocess] event on a processor: a connected processor runs its
    handler. *)
Definition audioprocess_event (processor : nat) (inputData : list num)
    (st : State) : State * result unit :=
  match nodes (world st) !! processor with
  | Some (ScriptProcessorNode true m p) => onaudioprocess m p inputData st
  | _ => (st, Ok tt)
  end.

Definition onopen (cb : Callbacks) (st : State) : State :=
  let st := set_status connected st in
  let st := set_isActive true st in
  let (source, w) :=
    new_node (MediaStreamAudioSourceNode (cb_stream cb) true) (world st) in
  let (scriptProcessor, w) :=
    new_node (ScriptProcessorNode true (cb_isMuted cb) (cb_sessionPromise cb)) w in
  let st := set_sourceRef (Some source) (set_world w st) in
  set_processorRef (Some scriptProcessor) st.

(** *** Inbound messages *)

(** The two fields of a [LiveServerMessage] the handler reads:
    [serverContent?.modelTurn?.parts?.[0]?.inlineData?.data] and
    [serverContent?.interrupted]. *)
Record LiveServerMessage : Type := {
  inlineData_data : option (list Z);
  interrupted : bool
}.

(** Lines 170 to 180: a new source for the buffer, started at
    [nextStartTimeRef], which then moves past the buffer; the source joins
    the live set. *)
Definition play (audioBuffer : AudioBuffer) (st : State) : State :=
  let (source, w) :=
    new_node
      (AudioBufferSourceNode audioBuffer (Some (nextStartTimeRef st)) false)
      (world st) in
  let st := set_world w st in
  let st :=
    set_nextStartTimeRef (nextStartTimeRef st + duration audioBuffer)%Q st in
  set_sourcesRef ({[ source ]} ∪ sourcesRef st) st.

(** The [ended] listener of a source. *)
Definition source_onended (source : nat) (st : State) : State :=
  set_sourcesRef (sourcesRef st ∖ {[ source ]}) st.

(** Lines 184 to 191: stop every live source, swallowing what [stop] throws,
    empty the set and reset the clock.  The sources are distinct objects, so
    the order of the visit does not show in the result. *)
Definition stop_swallow (w : World) (src : nat) : World :=
  match source_stop src w with
  | Ok w' => w'
  | Throw _ => w
  end.

Definition interrupt (st : State) : State :=
  let w := fold_left stop_swallow (elements (sourcesRef st)) (world st) in
  let st := set_world w st in
  let st := set_sourcesRef ∅ st in
  set_nextStartTimeRef 0 st.

(** [await decodeAudioData(decode(base64Audio), outputCtx, 24000, 1)]. *)
Definition decode_payload (cb : Callbacks) (base64Audio : list Z)
  : result AudioBuffer :=
  do bytes <- decode base64Audio;
  decodeAudioData bytes (cb_outputCtx cb) 24000 1.

(** [onmessage]: [currentTime] is the reading of [outputCtx.currentTime].
    The handler is an async function: an exception rejects the promise of
    this call and goes no further.  Its only [await] is on a promise that is
    already settled, so the rest of the body runs before any other event. *)
Definition onmessage (cb : Callbacks) (message : LiveServerMessage)
    (currentTime : Q) (st : State) : State * result unit :=
  let audio :=
    match inlineData_data message with
    | Some (c :: s) =>
        let base64Audio := c :: s in
        let st := set_nextStartTimeRef (Qmax (nextStartTimeRef st) currentTime) st in
        match decode_payload cb base64Audio with
        | Ok audioBuffer => (play audioBuffer st, Ok tt)
        | Throw e => (st, Throw e)
        end
    | _ => (st, Ok tt)
    end in
  match audio with
  | (st, Ok _) => if interrupted message then (interrupt st, Ok tt) else (st, Ok tt)
  | (st, Throw e) => (st, Throw e)
  end.

Definition onclose (st : State) : State := stopSession st.

Definition onerror (st : State) : State :=
  let st := set_status error st in
  stopSession st.

(** *** The controls

    The start button is rendered while [isActive] is false and is disabled
    while [status] is [connecting]; the other controls are rendered while
    [isActive] is true. *)
Definition click_start (st : State) : State * option StartLocals :=
  if negb (isActive st) then
    match status st with
    | connecting => (st, None)
    | _ => startSession st
    end
  else (st, None).

Definition click_mute (st : State) : State :=
  if isActive st then toggleMute st else st.

Definition click_end (st : State) : State :=
  if isActive st then stopSession st else st.

(** ** Auxiliary definitions for the proofs *)

(** The base64 text of a byte list without its padding. *)
Fixpoint b64_body (bs : list Z) : list Z :=
  match bs with
  | [] => []
  | [a] => [b64_char (a / 4); b64_char (a mod 4 * 16)]
  | [a; b] =>
      [b64_char (a / 4); b64_char (a mod 4 * 16 + b / 16);
       b64_char (b mod 16 * 4)]
  | a :: b :: c :: rest =>
      b64_char (a / 4) :: b64_char (a mod 4 * 16 + b / 16)
      :: b64_char (b mod 16 * 4 + c / 64) :: b64_char (c mod 64)
      :: b64_body rest
  end.

(** The value a base64 character stands for. *)
Definition sextet (c : Z) : Z := default 0 (b64_index c).

(** The audio path end to end: [createBlob] on the capture side, then
    [decode] and [decodeAudioData] (mono) on the playback side. *)
Definition pcm_roundtrip (x : list num) (ctx : nat) (sampleRate : Q)
  : result AudioBuffer :=
  do blob <- createBlob x;
  do data <- decode (blob_data blob);
  decodeAudioData data ctx sampleRate 1.

(** The value a sample comes back as. *)
Definition requantized (s : num) : num :=
  Fin (inject_Z (ToInt16 (num_mul s 32768)) / 32768).

(** Two samples within less than one quantization step of each other. *)
Definition within_step (s t : num) : Prop :=
  match s, t with
  | Fin a, Fin b => (Qabs (b - a) < 1 / 32768)%Q
  | _, _ => False
  end.

(** A server message that only carries audio, one that only signals an
    interruption. *)
Definition audio_message (base64Audio : list Z) : LiveServerMessage :=
  {| inlineData_data := Some base64Audio; interrupted := false |}.

Definition interruption : LiveServerMessage :=
  {| inlineData_data := None; interrupted := true |}.

(** The handler over a sequence of messages, each with the clock reading at
    its arrival. *)
Fixpoint run_messages (cb : Callbacks) (ms : list (LiveServerMessage * Q))
    (st : State) : State :=
  match ms with
  | [] => st
  | (m, currentTime) :: rest =>
      run_messages cb rest (fst (onmessage cb m currentTime st))
  end.

(** A session brought up from state [st]: the start control is clicked,
    the microphone is granted and the transport opens.  [None] when the
    click does not start anything. *)
Definition bring_up (st : State) : option (State * Callbacks) :=
  match click_start st with
  | (st1, Some l) =>
      match startSession_resume l (Ok tt) st1 with
      | (st2, Some cb) => Some (onopen cb st2, cb)
      | (_, None) => None
      end
  | (_, None) => None
  end.

(** The first session of a freshly mounted component. *)
Definition first_callbacks : Callbacks :=
  {| cb_inputCtx := 0; cb_outputCtx := 1; cb_stream := 2;
     cb_sessionPromise := 3; cb_isMuted := false |}.

Definition first_session : State :=
  match bring_up (mount initial) with
  | Some (st, _) => st
  | None => mount initial
  end.

(** A node after [stop]: a started buffer source has finished, any other
    node is as it was. *)
Definition stopped (n : AudioNode) : AudioNode :=
  match n with
  | AudioBufferSourceNode b (Some t) _ => AudioBufferSourceNode b (Some t) true
  | _ => n
  end.

(** A second session, started after the first one was muted and then
    ended. *)
Definition second_session : State :=
  match bring_up (click_end (click_mute first_session)) with
  | Some (st, _) => st
  | None => mount initial
  end.

(** The objects a set of refs holds, released. *)
Definition release {K V : Type} `{Countable K} (f : V -> V) (ref : option K)
    (m : gmap K V) : gmap K V :=
  match ref with
  | Some k => alter f k m
  | None => m
  end.

(** A freshly mounted component whose first start is denied the
    microphone. *)
Definition mic_denied : State :=
  match click_start (mount initial) with
  | (st1, Some l) => fst (startSession_resume l (Throw NotAllowedError) st1)
  | (st1, None) => st1
  end.

(** The first session with screen sharing on. *)
Definition sharing_session : State :=
  startScreenShare_resume (Ok tt) true first_session.

(** An audio message as it reaches the scheduler: its payload, the clock
    reading at its arrival and the buffer the payload decodes to. *)
Record Frame : Type := {
  payload : list Z;
  arrival : Q;
  decoded : AudioBuffer
}.

Definition decodable (cb : Callbacks) (f : Frame) : Prop :=
  payload f <> [] /\ decode_payload cb (payload f) = Ok (decoded f).

Definition frame_message (f : Frame) : LiveServerMessage * Q :=
  (audio_message (payload f), arrival f).

Definition frame_timing (f : Frame) : Q * Q :=
  (arrival f, duration (decoded f)).

(** A frame of [n] silent samples arriving at clock reading [t]. *)
Definition silence (n : nat) (t : Q) : Frame :=
  {| payload := b64_groups (repeat 0 (2 * n));
     arrival := t;
     decoded :=
       {| numberOfChannels := 1;
          buffer_length := n;
          buffer_sampleRate := 24000;
          channels := [repeat (Fin (inject_Z 0 / 32768)) n] |} |}.

(** The start times the scheduler gives to buffers of durations [d] that
    arrive at clock readings [t], from a clock at [next]. *)
Fixpoint start_times (next : Q) (frames : list (Q * Q)) : list Q :=
  match frames with
  | [] => []
  | (t, d) :: rest =>
      let startAt := Qmax next t in
      startAt :: start_times (startAt + d) rest
  end.

(** The device clock stays behind the playback clock. *)
Fixpoint clock_behind (next : Q) (frames : list (Q * Q)) : Prop :=
  match frames with
  | [] => True
  | (t, d) :: rest => (t <= next)%Q /\ clock_behind (next + d) rest
  end.

(** Start times back to back: each buffer starts where the one before it
    ends. *)
Fixpoint back_to_back (s : Q) (durations : list Q) : list Q :=
  match durations with
  | [] => []
  | d :: rest => s :: back_to_back (s + d) rest
  end.

(** The range of an [Int16Array] element. *)
Definition int16 (n : Z) : Prop := -32768 <= n < 32768.

(** A well-formed [Uint8Array]. *)
Definition bytes (l : list Z) : Prop := Forall (fun b => 0 <= b < 256) l.

(** The step of the sum in [volume]. *)
Definition add_abs (s x : num) : num := num_add s (num_abs x).

(** *** The events the component reacts to

    The share control, rendered while the session is active, runs
    [stopScreenShare] when sharing and [startScreenShare] otherwise. *)
Definition click_screen (st : State) : State :=
  if isActive st then
    if isScreenSharing st then stopScreenShare st else fst (startScreenShare st)
  else st.

Inductive Event : Type :=
| ev_click_start
| ev_user_media (l : StartLocals) (granted : result unit)
| ev_open (cb : Callbacks)
| ev_message (cb : Callbacks) (message : LiveServerMessage) (currentTime : Q)
| ev_close
| ev_error
| ev_audioprocess (processor : nat) (inputData : list num)
| ev_source_ended (source : nat)
| ev_click_mute
| ev_click_end
| ev_click_screen
| ev_display_media (granted : result unit) (context2d : bool)
| ev_interval (timer : positive) (base64Data : list Z)
| ev_track_ended (stream : nat)
| ev_unmount.

(** The handler that runs on an event.  A callback event carries the
    closure it belongs to; any closure and any order of events is allowed
    here, which covers the orders a browser can produce. *)
Definition handle (e : Event) (st : State) : State :=
  match e with
  | ev_click_start => fst (click_start st)
  | ev_user_media l granted => fst (startSession_resume l granted st)
  | ev_open cb => onopen cb st
  | ev_message cb message currentTime => fst (onmessage cb message currentTime st)
  | ev_close => onclose st
  | ev_error => onerror st
  | ev_audioprocess processor inputData =>
      fst (audioprocess_event processor inputData st)
  | ev_source_ended source => source_onended source st
  | ev_click_mute => click_mute st
  | ev_click_end => click_end st
  | ev_click_screen => click_screen st
  | ev_display_media granted context2d =>
      startScreenShare_resume granted context2d st
  | ev_interval timer base64Data => interval_event timer base64Data st
  | ev_track_ended stream => track_ended_event stream st
  | ev_unmount => unmount st
  end.

(** The states the mounted component can be in. *)
Inductive reachable : State -> Prop :=
| reachable_mount : reachable (mount initial)
| reachable_handle e st : reachable st -> reachable (handle e st).

(** Identifiers handed out so far are below [fresh]. *)
Definition keys_below {V : Type} (m : gmap nat V) (n : nat) : Prop :=
  forall k, is_Some (m !! k) -> (k < n)%nat.

Definition timers_below (m : gmap positive Z) (n : nat) : Prop :=
  forall t, is_Some (m !! t) -> (Pos.to_nat t <= n)%nat.

(** A buffer source on which [start] has been called. *)
Definition started (w : World) (src : nat) : Prop :=
  exists b t f, nodes w !! src = Some (AudioBufferSourceNode b (Some t) f).

(** What every handler keeps: identifiers are never reused, the live set
    holds started buffer sources only, and the playback clock is not
    negative. *)
Definition well_formed (st : State) : Prop :=
  keys_below (contexts (world st)) (fresh (world st))
  /\ keys_below (streams (world st)) (fresh (world st))
  /\ keys_below (nodes (world st)) (fresh (world st))
  /\ timers_below (timers (world st)) (fresh (world st))
  /\ (forall src, src ∈ sourcesRef st -> started (world st) src)
  /\ (0 <= nextStartTimeRef st)%Q.

(** Two states with the same maps, counter, live set and clock. *)
Definition same_frame (st st' : State) : Prop :=
  contexts (world st') = contexts (world st)
  /\ streams (world st') = streams (world st)
  /\ nodes (world st') = nodes (world st)
  /\ timers (world st') = timers (world st)
  /\ fresh (world st') = fresh (world st)
  /\ sourcesRef st' = sourcesRef st
  /\ nextStartTimeRef st' = nextStartTimeRef st.

(** The blob [createBlob] makes of a block. *)
Definition pcm_blob (inputData : list num) : GenAIBlob :=
  {| blob_data :=
       b64_groups (Uint8Array_of_Int16Array
                     (map (fun s => ToInt16 (num_mul s 32768)) inputData));
     blob_mimeType := audio_pcm_rate_16000 |}.

(** A run of [audioprocess] events on one processor. *)
Definition capture_blocks (processor : nat) (blocks : list (list num))
    (st : State) : State :=
  fold_left (fun s inputData => fst (audioprocess_event processor inputData s))
    blocks st.

(** The JPEG frame the interval callback sends. *)
Definition jpeg_frame (base64Data : list Z) : GenAIBlob :=
  {| blob_data := base64Data; blob_mimeType := image_jpeg |}.

(** The user has revoked sharing and the track has ended; no handler has
    run yet. *)
Definition revoke (stream : nat) (st : State) : State :=
  set_world (stop_tracks stream (world st)) st.

(** A run of firings of one timer, each with the frame the canvas holds. *)
Definition sample_frames (timer : positive) (frames : list (list Z))
    (st : State) : State :=
  fold_left (fun s base64Data => interval_event timer base64Data s) frames st.

(** * Proofs *)

Ltac split_bytes H :=
  unfold bytes in H; rewrite ?Forall_cons in H;
  repeat match type of H with
         | _ /\ _ => let H' := fresh "Hb" in destruct H as [H' H]
         end.

(** ** Base64 *)

Section Base64.

Lemma triples_ind (P : list Z -> Prop) :
  P [] ->
  (forall a, P [a]) ->
  (forall a b, P [a; b]) ->
  (forall a b c l, P l -> P (a :: b :: c :: l)) ->
  forall l, P l.
Proof.
  intros H0 H1 H2 H3 l.
  cut (P l /\ (forall a, P (a :: l)) /\ (forall a b, P (a :: b :: l))).
  { tauto. }
  induction l as [| x l (A & B & C)].
  - auto.
  - split; [apply B | split; [intros; apply C | intros; apply H3, A]].
Qed.

Lemma b64_index_char i : 0 <= i < 64 -> b64_index (b64_char i) = Some i.
Proof.
  intros Hi.
  assert (T : forallb
                (fun n => bool_decide
                            (b64_index (b64_char (Z.of_nat n)) = Some (Z.of_nat n)))
                (seq 0 64) = true) by (vm_compute; reflexivity).
  rewrite forallb_forall in T.
  assert (Ti : In (Z.to_nat i) (seq 0 64)) by (apply in_seq; lia).
  apply T in Ti.
  rewrite Z2Nat.id in Ti by lia.
  now apply bool_decide_eq_true in Ti.
Qed.

Lemma in_alphabet_char i : 0 <= i < 64 -> in_alphabet (b64_char i) = true.
Proof. intros Hi. unfold in_alphabet. now rewrite b64_index_char. Qed.

Lemma in_alphabet_not_pad c : in_alphabet c = true -> (c =? pad_char) = false.
Proof.
  unfold in_alphabet, b64_index, pad_char. intros H.
  destruct (c =? 61) eqn:E; [| reflexivity].
  apply Z.eqb_eq in E. subst c. discriminate H.
Qed.

Lemma in_alphabet_not_whitespace c :
  in_alphabet c = true -> is_ascii_whitespace c = false.
Proof.
  unfold in_alphabet, b64_index, is_ascii_whitespace. intros H.
  repeat match goal with
         | |- context [ ?x =? ?y ] =>
             destruct (Z.eqb_spec x y); [subst c; discriminate H |]
         end.
  reflexivity.
Qed.

Lemma pad_not_whitespace : is_ascii_whitespace pad_char = false.
Proof. reflexivity. Qed.

(** Index ranges of the four characters of a group. *)
Lemma sextet_ranges a b c :
  0 <= a < 256 -> 0 <= b < 256 -> 0 <= c < 256 ->
  0 <= a / 4 < 64 /\ 0 <= a mod 4 * 16 < 64 /\
  0 <= a mod 4 * 16 + b / 16 < 64 /\ 0 <= b mod 16 * 4 < 64 /\
  0 <= b mod 16 * 4 + c / 64 < 64 /\ 0 <= c mod 64 < 64.
Proof. intros. Z.div_mod_to_equations. lia. Qed.

Lemma bytes_forallb l : forallb is_byte l = true <-> bytes l.
Proof.
  unfold bytes. rewrite forallb_forall, Forall_forall.
  split; intros H x Hx.
  - apply list_elem_of_In, H in Hx. unfold is_byte in Hx. lia.
  - apply list_elem_of_In, H in Hx. unfold is_byte. lia.
Qed.

(** The encoded text is made of alphabet characters and padding. *)
Lemma groups_chars bs :
  bytes bs ->
  Forall (fun c => in_alphabet c = true \/ c = pad_char) (b64_groups bs).
Proof.
  induction bs as [| a | a b | a b c l IH] using triples_ind; intros H;
    split_bytes H; simpl.
  - constructor.
  - destruct (sextet_ranges a 0 0) as (? & ? & _); try lia.
    repeat (apply Forall_cons; split); auto using in_alphabet_char.
  - destruct (sextet_ranges a b 0) as (? & ? & ? & ? & _); try lia.
    repeat (apply Forall_cons; split); auto using in_alphabet_char.
  - destruct (sextet_ranges a b c) as (? & ? & ? & ? & ? & ?); try lia.
    repeat (apply Forall_cons; split; [auto using in_alphabet_char |]).
    now apply IH.
Qed.

Lemma groups_no_whitespace bs :
  bytes bs ->
  List.filter (fun c => negb (is_ascii_whitespace c)) (b64_groups bs)
  = b64_groups bs.
Proof.
  intros H. apply groups_chars in H.
  induction H as [| c l [Hc | Hc] _ IH]; simpl; [reflexivity | |].
  - rewrite (in_alphabet_not_whitespace _ Hc). simpl. now rewrite IH.
  - subst c. simpl. now rewrite IH.
Qed.

Lemma groups_length bs : exists k, length (b64_groups bs) = (4 * k)%nat.
Proof.
  induction bs as [| a | a b | a b c l [k IH]] using triples_ind.
  - now exists 0%nat.
  - now exists 1%nat.
  - now exists 1%nat.
  - exists (S k). simpl. simpl in IH. rewrite IH. lia.
Qed.

Lemma body_length bs :
  exists k, length (b64_body bs) = (4 * k)%nat
            \/ length (b64_body bs) = (4 * k + 2)%nat
            \/ length (b64_body bs) = (4 * k + 3)%nat.
Proof.
  induction bs as [| a | a b | a b c l [k IH]] using triples_ind.
  - exists 0%nat. now left.
  - exists 0%nat. right. now left.
  - exists 0%nat. right. now right.
  - exists (S k). simpl. simpl in IH. lia.
Qed.

Lemma body_alphabet bs : bytes bs -> forallb in_alphabet (b64_body bs) = true.
Proof.
  induction bs as [| a | a b | a b c l IH] using triples_ind; intros H;
    split_bytes H; simpl.
  - reflexivity.
  - destruct (sextet_ranges a 0 0) as (? & ? & _); try lia.
    now rewrite !in_alphabet_char.
  - destruct (sextet_ranges a b 0) as (? & ? & ? & ? & _); try lia.
    now rewrite !in_alphabet_char.
  - destruct (sextet_ranges a b c) as (? & ? & ? & ? & ? & ?); try lia.
    rewrite !in_alphabet_char by assumption. now apply IH.
Qed.

Lemma drop_last_pad_cons x l :
  l <> [] -> drop_last_pad (x :: l) = x :: drop_last_pad l.
Proof.
  destruct l as [| y l]; [congruence | intros _].
  unfold drop_last_pad.
  change (List.last (x :: y :: l) 0) with (List.last (y :: l) 0).
  change (removelast (x :: y :: l)) with (x :: removelast (y :: l)).
  now destruct (List.last (y :: l) 0 =? pad_char).
Qed.

Lemma drop_last_pad_nonempty l : (2 <= length l)%nat -> drop_last_pad l <> [].
Proof.
  destruct l as [| x [| y l]]; cbn [length]; try lia. intros _.
  rewrite drop_last_pad_cons by discriminate. discriminate.
Qed.

Lemma drop_two_cons x l :
  (2 <= length l)%nat ->
  drop_last_pad (drop_last_pad (x :: l)) = x :: drop_last_pad (drop_last_pad l).
Proof.
  intros Hl. rewrite drop_last_pad_cons by (destruct l; simpl in *; [lia | discriminate]).
  now rewrite drop_last_pad_cons by now apply drop_last_pad_nonempty.
Qed.

Lemma drop_last_pad_char i :
  0 <= i < 64 -> forall l, drop_last_pad (l ++ [b64_char i]) = l ++ [b64_char i].
Proof.
  intros Hi l. unfold drop_last_pad.
  destruct (l ++ [b64_char i]) eqn:E; [reflexivity |]. rewrite <- E.
  rewrite last_last, in_alphabet_not_pad; auto using in_alphabet_char.
Qed.

Lemma drop_last_pad_pad l : drop_last_pad (l ++ [pad_char]) = l.
Proof.
  unfold drop_last_pad.
  destruct (l ++ [pad_char]) eqn:E; [now destruct l |]. rewrite <- E.
  now rewrite last_last, removelast_last.
Qed.

Lemma drop_pad_1 x y z : drop_last_pad [x; y; z; pad_char] = [x; y; z].
Proof. exact (drop_last_pad_pad [x; y; z]). Qed.

Lemma drop_pad_0 x y i :
  0 <= i < 64 -> drop_last_pad [x; y; b64_char i] = [x; y; b64_char i].
Proof. intros Hi. exact (drop_last_pad_char i Hi [x; y]). Qed.

Lemma drop_pad_quad x y z i :
  0 <= i < 64 -> drop_last_pad [x; y; z; b64_char i] = [x; y; z; b64_char i].
Proof. intros Hi. exact (drop_last_pad_char i Hi [x; y; z]). Qed.

Lemma groups_drop_padding bs :
  bytes bs -> drop_last_pad (drop_last_pad (b64_groups bs)) = b64_body bs.
Proof.
  induction bs as [| a | a b | a b c l IH] using triples_ind; intros H;
    split_bytes H.
  - reflexivity.
  - reflexivity.
  - destruct (sextet_ranges a b 0) as (? & ? & ? & ? & _); try lia.
    cbn [b64_groups b64_body].
    now rewrite drop_pad_1, drop_pad_0.
  - destruct (sextet_ranges a b c) as (? & ? & ? & ? & ? & ?); try lia.
    change (b64_groups (a :: b :: c :: l)) with
      (b64_char (a / 4) :: b64_char (a mod 4 * 16 + b / 16)
       :: b64_char (b mod 16 * 4 + c / 64) :: b64_char (c mod 64)
       :: b64_groups l).
    change (b64_body (a :: b :: c :: l)) with
      (b64_char (a / 4) :: b64_char (a mod 4 * 16 + b / 16)
       :: b64_char (b mod 16 * 4 + c / 64) :: b64_char (c mod 64)
       :: b64_body l).
    destruct l as [| x l'].
    + cbn [b64_groups b64_body].
      now rewrite !drop_pad_quad.
    + assert (4 <= length (b64_groups (x :: l')))%nat
        by (destruct l' as [| y [| z l']]; simpl; lia).
      rewrite !drop_two_cons by (cbn [length]; lia).
      now rewrite IH.
Qed.

Lemma sextet_char i : 0 <= i < 64 -> sextet (b64_char i) = i.
Proof. intros Hi. unfold sextet. now rewrite b64_index_char. Qed.

Lemma atob_loop_quad c1 c2 c3 c4 rest :
  atob_loop (c1 :: c2 :: c3 :: c4 :: rest) 0 0
  = let n := ((sextet c1 * 64 + sextet c2) * 64 + sextet c3) * 64 + sextet c4 in
    n / 65536 :: n / 256 mod 256 :: n mod 256 :: atob_loop rest 0 0.
Proof. reflexivity. Qed.

Lemma atob_loop_pair c1 c2 :
  atob_loop [c1; c2] 0 0 = [(sextet c1 * 64 + sextet c2) / 16].
Proof. reflexivity. Qed.

Lemma atob_loop_triple c1 c2 c3 :
  atob_loop [c1; c2; c3] 0 0
  = let n := (sextet c1 * 64 + sextet c2) * 64 + sextet c3 in
    [n / 4 / 256; n / 4 mod 256].
Proof. reflexivity. Qed.

Lemma atob_loop_body bs : bytes bs -> atob_loop (b64_body bs) 0 0 = bs.
Proof.
  induction bs as [| a | a b | a b c l IH] using triples_ind; intros H;
    split_bytes H.
  - reflexivity.
  - destruct (sextet_ranges a 0 0) as (? & ? & _); try lia.
    cbn [b64_body]. rewrite atob_loop_pair, !sextet_char by assumption.
    f_equal. Z.div_mod_to_equations. lia.
  - destruct (sextet_ranges a b 0) as (? & ? & ? & ? & _); try lia.
    cbn [b64_body]. rewrite atob_loop_triple, !sextet_char by assumption.
    cbv zeta. f_equal; [| f_equal]; Z.div_mod_to_equations; lia.
  - destruct (sextet_ranges a b c) as (? & ? & ? & ? & ? & ?); try lia.
    change (b64_body (a :: b :: c :: l)) with
      (b64_char (a / 4) :: b64_char (a mod 4 * 16 + b / 16)
       :: b64_char (b mod 16 * 4 + c / 64) :: b64_char (c mod 64)
       :: b64_body l).
    rewrite atob_loop_quad, !sextet_char by assumption.
    cbv zeta. rewrite IH by assumption.
    f_equal; [| f_equal; [| f_equal]]; Z.div_mod_to_equations; lia.
Qed.

(** [atob] inverts [btoa] on binary strings. *)
Lemma atob_groups bs : bytes bs -> atob (b64_groups bs) = Ok bs.
Proof.
  intros H. unfold atob.
  rewrite groups_no_whitespace by assumption.
  unfold strip_padding.
  destruct (groups_length bs) as [k Hk]. rewrite Hk.
  replace (Z.of_nat (4 * k) mod 4 =? 0) with true
    by (symmetry; apply Z.eqb_eq; rewrite Nat2Z.inj_mul, Z.mul_comm;
        apply Z_mod_mult).
  rewrite groups_drop_padding by assumption.
  destruct (body_length bs) as [j Hj].
  replace (Z.of_nat (length (b64_body bs)) mod 4 =? 1) with false.
  - rewrite body_alphabet by assumption. cbn [negb].
    now rewrite atob_loop_body.
  - symmetry. apply Z.eqb_neq.
    destruct Hj as [Hj | [Hj | Hj]]; rewrite Hj;
      Z.div_mod_to_equations; lia.
Qed.

Lemma map_fromCharCode bs : bytes bs -> map fromCharCode bs = bs.
Proof.
  induction 1 as [| b l Hb _ IH]; [reflexivity |].
  cbn [map]. rewrite IH. unfold fromCharCode. now rewrite Z.mod_small by lia.
Qed.

Lemma map_Uint8_store bs : bytes bs -> map Uint8_store bs = bs.
Proof.
  induction 1 as [| b l Hb _ IH]; [reflexivity |].
  cbn [map]. rewrite IH. unfold Uint8_store. now rewrite Z.mod_small by lia.
Qed.

Lemma encode_ok bs : bytes bs -> encode bs = Ok (b64_groups bs).
Proof.
  intros H. unfold encode, btoa. rewrite map_fromCharCode by assumption.
  now rewrite (proj2 (bytes_forallb bs) H).
Qed.

Lemma decode_groups bs : bytes bs -> decode (b64_groups bs) = Ok bs.
Proof.
  intros H. unfold decode. rewrite atob_groups by assumption.
  cbn [bind]. now rewrite map_Uint8_store.
Qed.

(** C10: [decode] undoes [encode] on every byte array: the transport
    encoding loses nothing. *)
Theorem encode_decode_inverse (b : list Z) :
  forallb is_byte b = true ->
  (do e <- encode b; decode e) = Ok b.
Proof.
  intros H. apply bytes_forallb in H.
  rewrite encode_ok by assumption. cbn [bind].
  now apply decode_groups.
Qed.

Lemma encode_decode_inverse_witness :
  forallb is_byte [0; 128; 255; 77; 97] = true
  /\ (do e <- encode [0; 128; 255; 77; 97]; decode e) = Ok [0; 128; 255; 77; 97].
Proof.
  split; [reflexivity |].
  apply (encode_decode_inverse [0; 128; 255; 77; 97]). reflexivity.
Defined.

End Base64.

(** ** Sixteen-bit samples *)

Section Pcm.

Lemma wrap_int16_range n : int16 (wrap_int16 n).
Proof.
  unfold int16, wrap_int16.
  destruct (Z.leb_spec 32768 (n mod 65536)); Z.div_mod_to_equations; lia.
Qed.

Lemma wrap_int16_id n : int16 n -> wrap_int16 n = n.
Proof.
  unfold int16, wrap_int16. intros H.
  destruct (Z.leb_spec 32768 (n mod 65536)); Z.div_mod_to_equations; lia.
Qed.

Lemma ToInt16_range x : int16 (ToInt16 x).
Proof.
  destruct x as [q | | |]; [apply wrap_int16_range | | |]; unfold int16; simpl; lia.
Qed.

Lemma int16_bytes_range n : bytes (int16_bytes n).
Proof.
  unfold bytes, int16_bytes.
  repeat (apply Forall_cons; split); [| | constructor];
    Z.div_mod_to_equations; lia.
Qed.

Lemma Uint8Array_bytes a : bytes (Uint8Array_of_Int16Array a).
Proof.
  unfold Uint8Array_of_Int16Array.
  induction a as [| n a IH]; [constructor |].
  cbn [flat_map]. apply Forall_app. split; [apply int16_bytes_range | exact IH].
Qed.

Lemma Uint8Array_length a :
  length (Uint8Array_of_Int16Array a) = (2 * length a)%nat.
Proof.
  unfold Uint8Array_of_Int16Array.
  induction a as [| n a IH]; [reflexivity |].
  cbn [flat_map int16_bytes app length]. rewrite IH. lia.
Qed.

Lemma int16_pairs_bytes a :
  Forall int16 a -> int16_pairs (Uint8Array_of_Int16Array a) = a.
Proof.
  unfold Uint8Array_of_Int16Array.
  induction 1 as [| n a Hn _ IH]; [reflexivity |].
  cbn [flat_map int16_bytes app int16_pairs]. rewrite IH. f_equal.
  unfold int16 in Hn. unfold wrap_int16.
  destruct (Z.leb_spec 32768
              ((n mod 65536 mod 256 + 256 * (n mod 65536 / 256)) mod 65536));
    Z.div_mod_to_equations; lia.
Qed.

(** The 16-bit view of the bytes of an [Int16Array] is that array. *)
Lemma Int16Array_of_Uint8Array a :
  Forall int16 a ->
  Int16Array_of_buffer (Uint8Array_of_Int16Array a) = Ok a.
Proof.
  intros H. unfold Int16Array_of_buffer.
  rewrite Uint8Array_length, int16_pairs_bytes by assumption.
  replace (Z.of_nat (2 * length a) mod 2 =? 0) with true; [reflexivity |].
  symmetry. apply Z.eqb_eq. rewrite Nat2Z.inj_mul, Z.mul_comm. apply Z_mod_mult.
Qed.

(** Truncation moves a rational by less than one, toward zero. *)
Lemma Qtrunc_spec q :
  (0 <= q -> inject_Z (Qtrunc q) <= q /\ q < inject_Z (Qtrunc q) + 1)%Q
  /\ (q <= 0 -> q <= inject_Z (Qtrunc q) /\ inject_Z (Qtrunc q) - 1 < q)%Q.
Proof.
  destruct q as [n d]. unfold Qtrunc, Qle, Qlt. cbn.
  pose proof (Pos2Z.is_pos d) as Hd.
  split; intros Hq; Z.to_euclidean_division_equations; nia.
Qed.

(** A finite sample in [-1, 1) survives the 16-bit quantization with an
    error below one step. *)
Lemma quantize_sample (s : Q) :
  (-1 <= s)%Q -> (s < 1)%Q ->
  (Qabs (inject_Z (ToInt16 (num_mul (Fin s) 32768)) / 32768 - s) < 1 / 32768)%Q.
Proof.
  intros Hlo Hhi. cbn [num_mul ToInt16].
  set (q := (s * 32768)%Q).
  destruct (Qtrunc_spec q) as [Hpos Hneg].
  assert (Hq : (-32768 <= q /\ q < 32768)%Q) by (unfold q; split; lra).
  assert (Ht : (inject_Z (Qtrunc q) - 1 < q /\ q < inject_Z (Qtrunc q) + 1
                /\ -32768 <= inject_Z (Qtrunc q) /\ inject_Z (Qtrunc q) < 32768)%Q).
  { destruct (Qlt_le_dec q 0) as [Hs | Hs].
    - destruct Hneg as [A B]; [lra |]. repeat split; lra.
    - destruct Hpos as [A B]; [lra |]. repeat split; lra. }
  destruct Ht as (A & B & C & D).
  rewrite wrap_int16_id.
  - clear Hpos Hneg Hq. subst q.
    generalize dependent (inject_Z (Qtrunc (s * 32768))). intros t A B C D.
    unfold Qdiv. change (/ 32768)%Q with (1 # 32768)%Q.
    apply Qabs_case; intros _; lra.
  - unfold int16. split.
    + apply Z.ge_le, Z.le_ge. rewrite Zle_Qle. exact C.
    + rewrite Zlt_Qlt. exact D.
Qed.

End Pcm.

(** ** [decodeAudioData] *)

Section Decode.

Variables (dataInt16 : list Z) (numChannels channel : nat) (frameCount : Q).

(** What the inner loop leaves in [channelData]: entries below the starting
    index are kept, and every index the loop reaches that lies inside the
    array holds its sample. *)
Lemma fill_channel_spec fuel :
  forall i channelData,
    let r := fill_channel fuel dataInt16 numChannels channel frameCount i
               channelData in
    length r = length channelData
    /\ (forall j, (j < i)%nat -> r !! j = channelData !! j)
    /\ (forall j, (i <= j < i + fuel)%nat ->
                  (inject_Z (Z.of_nat j) < frameCount)%Q ->
                  (j < length channelData)%nat ->
                  r !! j = Some (int16_sample dataInt16 (j * numChannels + channel))).
Proof.
  induction fuel as [| fuel IH]; intros i channelData; cbn zeta.
  - cbn [fill_channel]. repeat split; auto. intros j Hj. lia.
  - cbn [fill_channel].
    destruct (Qlt_le_dec (inject_Z (Z.of_nat i)) frameCount) as [Hlt | Hge].
    + specialize (IH (S i)
        (<[ i := int16_sample dataInt16 (i * numChannels + channel) ]> channelData)).
      cbn zeta in IH. destruct IH as (Hlen & Hkeep & Hset).
      rewrite length_insert in Hlen, Hset.
      split; [exact Hlen | split].
      * intros j Hj. rewrite Hkeep by lia. apply list_lookup_insert_ne. lia.
      * intros j Hj HjF Hjlen.
        destruct (decide (j = i)) as [-> | Hne].
        -- rewrite Hkeep by lia. now apply list_lookup_insert_eq.
        -- apply Hset; [lia | assumption | assumption].
    + repeat split; auto.
      intros j Hj HjF _. exfalso.
      assert (inject_Z (Z.of_nat i) <= inject_Z (Z.of_nat j))%Q
        by (rewrite <- Zle_Qle; lia).
      lra.
Qed.

End Decode.

Section DecodeAudioData.

Lemma fill_channels_lookup dataInt16 numChannels frameCount :
  forall chans channel k,
    fill_channels dataInt16 numChannels frameCount channel chans !! k
    = fill_channel (S (length dataInt16)) dataInt16 numChannels (channel + k)
        frameCount 0 <$> chans !! k.
Proof.
  induction chans as [| c chans IH]; intros channel k.
  - reflexivity.
  - destruct k as [| k]; cbn [fill_channels].
    + cbn. now rewrite Nat.add_0_r.
    + rewrite !lookup_cons. rewrite (IH (S channel) k).
      now replace (S channel + k)%nat with (channel + S k)%nat by lia.
Qed.

Lemma fill_channels_length dataInt16 numChannels frameCount :
  forall chans channel,
    length (fill_channels dataInt16 numChannels frameCount channel chans)
    = length chans.
Proof.
  induction chans as [| c chans IH]; intros channel; cbn [fill_channels length];
    [reflexivity | now rewrite IH].
Qed.

Lemma pairs_ind (P : list Z -> Prop) :
  P [] -> (forall a, P [a]) -> (forall a b l, P l -> P (a :: b :: l)) ->
  forall l, P l.
Proof.
  intros H0 H1 H2 l.
  cut (P l /\ forall a, P (a :: l)); [tauto |].
  induction l as [| x l [A B]]; [auto |].
  split; [apply B | intros a; apply H2, A].
Qed.

Lemma int16_pairs_length bs : length (int16_pairs bs) = (length bs / 2)%nat.
Proof.
  induction bs as [| a | a b l IH] using pairs_ind; [reflexivity .. |].
  cbn [int16_pairs length]. rewrite IH.
  change (S (S (length l))) with (2 + length l)%nat.
  replace (2 + length l)%nat with (1 * 2 + length l)%nat by lia.
  now rewrite Nat.div_add_l by lia.
Qed.

(** The frame count as [createBuffer] receives it. *)
Lemma frameCount_trunc (a b : nat) :
  (0 < b)%nat ->
  Qtrunc (inject_Z (Z.of_nat a) / inject_Z (Z.of_nat b)) = Z.of_nat (a / b).
Proof.
  intros Hb. rewrite Nat2Z.inj_div.
  destruct b as [| b]; [lia |].
  unfold Qtrunc, Qdiv, Qinv, inject_Z. cbn [Qnum Qden Qmult].
  rewrite Nat2Z.inj_succ. unfold Z.succ.
  destruct (Z.of_nat b + 1) as [| p | p] eqn:E; try lia.
  cbn [Qnum Qden]. rewrite Z.mul_1_r, Pos.mul_1_l.
  apply Z.quot_div_nonneg; lia.
Qed.

Lemma below_frameCount (a b j : nat) :
  (0 < b)%nat -> (j < a / b)%nat ->
  (inject_Z (Z.of_nat j) < inject_Z (Z.of_nat a) / inject_Z (Z.of_nat b))%Q.
Proof.
  intros Hb Hj.
  assert (Hm : (S j * b <= a)%nat).
  { transitivity (a / b * b)%nat; [apply Nat.mul_le_mono_r; lia |].
    rewrite Nat.mul_comm. apply Nat.Div0.mul_div_le. }
  apply Qlt_shift_div_l.
  - change 0%Q with (inject_Z 0). rewrite <- Zlt_Qlt. lia.
  - rewrite <- inject_Z_mult, <- Zlt_Qlt. nia.
Qed.

Lemma lookup_repeat {A} (x : A) n j : (j < n)%nat -> repeat x n !! j = Some x.
Proof.
  revert j. induction n as [| n IH]; intros j Hj; [lia |].
  destruct j as [| j]; [reflexivity |]. cbn [repeat]. rewrite lookup_cons.
  apply IH. lia.
Qed.

(** On a buffer of even length that holds at least one whole frame,
    [decodeAudioData] returns the whole frames, de-interleaved; the bytes of
    a trailing partial frame are ignored. *)
Lemma decodeAudioData_frames data ctx sampleRate numChannels :
  Z.of_nat (length data) mod 2 = 0 ->
  Z.of_nat (length data) < 4294967296 ->
  supported_rate sampleRate = true ->
  (1 <= numChannels <= 32)%nat ->
  (1 <= length data / 2 / numChannels)%nat ->
  exists buf,
    decodeAudioData data ctx sampleRate numChannels = Ok buf
    /\ numberOfChannels buf = numChannels
    /\ buffer_length buf = (length data / 2 / numChannels)%nat
    /\ buffer_sampleRate buf = sampleRate
    /\ length (channels buf) = numChannels
    /\ forall ch, (ch < numChannels)%nat ->
         exists channelData,
           channels buf !! ch = Some channelData
           /\ length channelData = (length data / 2 / numChannels)%nat
           /\ forall i, (i < length data / 2 / numChannels)%nat ->
                exists v, int16_pairs data !! (i * numChannels + ch)%nat = Some v
                          /\ channelData !! i = Some (Fin (inject_Z v / 32768)).
Proof.
  intros Heven Hsmall Hrate Hnc Hframes.
  unfold decodeAudioData, Int16Array_of_buffer.
  rewrite (proj2 (Z.eqb_eq _ _) Heven). cbn [bind].
  rewrite <- int16_pairs_length in *.
  set (dataInt16 := int16_pairs data) in *.
  assert (Hn16 : (length dataInt16 <= length data)%nat).
  { unfold dataInt16. rewrite int16_pairs_length.
    apply Nat.Div0.div_le_upper_bound. lia. }
  assert (HL : (length dataInt16 / numChannels <= length dataInt16)%nat)
    by (apply Nat.Div0.div_le_upper_bound; nia).
  unfold createBuffer. rewrite frameCount_trunc by lia.
  rewrite Z.mod_small by lia. rewrite Nat2Z.id.
  rewrite Hrate.
  replace (numChannels =? 0)%nat with false by (symmetry; apply Nat.eqb_neq; lia).
  replace (32 <? numChannels)%nat with false by (symmetry; apply Nat.ltb_ge; lia).
  replace (length dataInt16 / numChannels =? 0)%nat with false
    by (symmetry; apply Nat.eqb_neq; lia).
  cbn [orb negb bind numberOfChannels buffer_length buffer_sampleRate channels].
  eexists. split; [reflexivity |].
  cbn [numberOfChannels buffer_length buffer_sampleRate channels].
  rewrite fill_channels_length, repeat_length.
  repeat (split; [reflexivity |]).
  intros ch Hch. rewrite fill_channels_lookup, lookup_repeat by assumption.
  cbn [fmap option_fmap option_map Nat.add].
  eexists. split; [reflexivity |].
  match goal with
  | |- context [ fill_channel ?f ?d ?nc ?c ?F ?i ?cd ] =>
      destruct (fill_channel_spec d nc c F f i cd) as (Hlen & _ & Hset)
  end.
  rewrite repeat_length in Hlen, Hset.
  split; [exact Hlen |].
  intros i Hi.
  assert (Hidx : (i * numChannels + ch < length dataInt16)%nat).
  { assert (S i * numChannels <= length dataInt16)%nat; [| lia].
    transitivity (length dataInt16 / numChannels * numChannels)%nat;
      [apply Nat.mul_le_mono_r; lia |].
    rewrite Nat.mul_comm. apply Nat.Div0.mul_div_le. }
  destruct (lookup_lt_is_Some_2 dataInt16 (i * numChannels + ch) Hidx) as [v Hv].
  exists v. split; [exact Hv |].
  rewrite Hset; [| lia | apply below_frameCount; lia | assumption].
  unfold int16_sample. now rewrite Hv.
Qed.

(** The mono case, as the message handler uses it. *)
Lemma decodeAudioData_mono data ctx sampleRate :
  Z.of_nat (length data) mod 2 = 0 ->
  Z.of_nat (length data) < 4294967296 ->
  supported_rate sampleRate = true ->
  (2 <= length data)%nat ->
  decodeAudioData data ctx sampleRate 1
  = Ok {| numberOfChannels := 1;
          buffer_length := length data / 2;
          buffer_sampleRate := sampleRate;
          channels :=
            [map (fun v => Fin (inject_Z v / 32768)) (int16_pairs data)] |}.
Proof.
  intros Heven Hsmall Hrate Hlen.
  assert (H2 : (1 <= length data / 2)%nat).
  { change 1%nat with (2 / 2)%nat. apply Nat.Div0.div_le_mono. lia. }
  destruct (decodeAudioData_frames data ctx sampleRate 1)
    as (buf & -> & Hnc & Hbl & Hsr & Hch & Hdata);
    rewrite ?Nat.div_1_r; try assumption; try lia.
  rewrite Nat.div_1_r in *.
  destruct buf as [nc bl sr chans].
  cbn [numberOfChannels buffer_length buffer_sampleRate channels] in *. subst.
  destruct (Hdata 0%nat ltac:(lia)) as (cd & Hcd & Hcdlen & Hcdv).
  destruct chans as [| c [| c' chans]]; cbn [length] in Hch; try lia.
  rewrite lookup_cons in Hcd. injection Hcd as ->.
  do 3 f_equal. apply list_eq. intros i.
  rewrite list_lookup_fmap.
  destruct (decide (i < length data / 2)%nat) as [Hi | Hi].
  - destruct (Hcdv i Hi) as (v & Hv & Hc).
    rewrite Nat.mul_1_r, Nat.add_0_r in Hv. now rewrite Hv, Hc.
  - rewrite !lookup_ge_None_2; [reflexivity | |].
    + rewrite int16_pairs_length. lia.
    + lia.
Qed.

End DecodeAudioData.

(** ** The audio path end to end *)

Section Roundtrip.

Lemma createBlob_ok x :
  createBlob x
  = Ok {| blob_data :=
            b64_groups (Uint8Array_of_Int16Array
                          (map (fun s => ToInt16 (num_mul s 32768)) x));
          blob_mimeType := audio_pcm_rate_16000 |}.
Proof.
  unfold createBlob. now rewrite encode_ok by apply Uint8Array_bytes.
Qed.

(** Whatever the samples, a non-empty block goes through the path and comes
    back as its requantized samples. *)
Lemma pcm_roundtrip_ok x ctx sampleRate :
  x <> [] ->
  Z.of_nat (length x) < 2147483648 ->
  supported_rate sampleRate = true ->
  pcm_roundtrip x ctx sampleRate
  = Ok {| numberOfChannels := 1;
          buffer_length := length x;
          buffer_sampleRate := sampleRate;
          channels := [map requantized x] |}.
Proof.
  intros Hne Hlen Hrate. unfold pcm_roundtrip.
  rewrite createBlob_ok. cbn [bind blob_data].
  rewrite decode_groups by apply Uint8Array_bytes. cbn [bind].
  set (a := map (fun s => ToInt16 (num_mul s 32768)) x).
  assert (Ha : Forall int16 a).
  { unfold a. apply Forall_forall. intros n Hn.
    apply list_elem_of_fmap in Hn. destruct Hn as (s & -> & _).
    apply ToInt16_range. }
  assert (Hla : length a = length x) by (unfold a; apply length_map).
  rewrite decodeAudioData_mono; rewrite ?Uint8Array_length, ?Hla.
  - rewrite int16_pairs_bytes by assumption.
    replace (2 * length x / 2)%nat with (length x)
      by (rewrite Nat.mul_comm, Nat.div_mul; lia).
    unfold a. rewrite map_map. reflexivity.
  - rewrite Nat2Z.inj_mul, Z.mul_comm. apply Z_mod_mult.
  - lia.
  - assumption.
  - destruct x; [congruence | cbn [length]; lia].
Qed.

(** On samples in the half-open range [-1, 1) the path is within one
    quantization step. *)
Lemma pcm_roundtrip_half_open x ctx sampleRate :
  x <> [] ->
  Z.of_nat (length x) < 2147483648 ->
  supported_rate sampleRate = true ->
  Forall (fun s => exists q, s = Fin q /\ (-1 <= q)%Q /\ (q < 1)%Q) x ->
  exists y,
    pcm_roundtrip x ctx sampleRate
    = Ok {| numberOfChannels := 1; buffer_length := length x;
            buffer_sampleRate := sampleRate; channels := [y] |}
    /\ Forall2 within_step x y.
Proof.
  intros Hne Hlen Hrate Hx. exists (map requantized x).
  split; [now apply pcm_roundtrip_ok |].
  clear Hne Hlen. induction Hx as [| s l (q & -> & Hlo & Hhi) _ IH].
  - constructor.
  - cbn [map]. constructor; [| exact IH].
    unfold within_step, requantized. now apply quantize_sample.
Qed.

(** C3: a full-scale sample, 1.0, is inside [-1, 1] and comes back as -1.0:
    the product 32768 does not fit an [Int16Array] element and wraps to
    -32768.  The error is 2, not 1/32768. *)
Theorem pcm_roundtrip_full_scale :
  exists y,
    pcm_roundtrip [Fin 1] 0 24000
    = Ok {| numberOfChannels := 1; buffer_length := 1;
            buffer_sampleRate := 24000; channels := [[Fin y]] |}
    /\ (y == -1)%Q
    /\ ~ within_step (Fin 1) (Fin y).
Proof.
  exists (-32768 # 32768)%Q. split; [| split].
  - vm_compute. reflexivity.
  - reflexivity.
  - unfold within_step. vm_compute. intros H. discriminate H.
Qed.

End Roundtrip.

(** ** The playback scheduler *)

Section Scheduler.

Variable cb : Callbacks.

Lemma onmessage_audio p currentTime st buf :
  p <> [] ->
  decode_payload cb p = Ok buf ->
  onmessage cb (audio_message p) currentTime st
  = (play buf (set_nextStartTimeRef (Qmax (nextStartTimeRef st) currentTime) st),
     Ok tt).
Proof.
  intros Hp Hd. unfold onmessage, audio_message. cbn [inlineData_data interrupted].
  destruct p as [| c p]; [congruence |]. now rewrite Hd.
Qed.

Lemma play_nodes buf st :
  nodes (world (play buf st))
  = <[ fresh (world st) :=
         AudioBufferSourceNode buf (Some (nextStartTimeRef st)) false ]>
      (nodes (world st)).
Proof. reflexivity. Qed.

Lemma play_fresh buf st : fresh (world (play buf st)) = S (fresh (world st)).
Proof. reflexivity. Qed.

Lemma play_clock buf st :
  nextStartTimeRef (play buf st) = (nextStartTimeRef st + duration buf)%Q.
Proof. reflexivity. Qed.

Lemma play_sources buf st :
  sourcesRef (play buf st) = {[ fresh (world st) ]} ∪ sourcesRef st.
Proof. reflexivity. Qed.

(** One enqueue. *)
Lemma enqueue_step p currentTime st buf :
  p <> [] ->
  decode_payload cb p = Ok buf ->
  let st' := fst (onmessage cb (audio_message p) currentTime st) in
  let startAt := Qmax (nextStartTimeRef st) currentTime in
  snd (onmessage cb (audio_message p) currentTime st) = Ok tt
  /\ nodes (world st') !! fresh (world st)
     = Some (AudioBufferSourceNode buf (Some startAt) false)
  /\ sourcesRef st' = {[ fresh (world st) ]} ∪ sourcesRef st
  /\ nextStartTimeRef st' = (startAt + duration buf)%Q.
Proof.
  intros Hp Hd. cbn zeta. rewrite (onmessage_audio _ _ _ _ Hp Hd).
  cbn [fst snd]. rewrite play_nodes, play_clock, play_sources.
  repeat split. apply lookup_insert_eq.
Qed.

(** A sequence of enqueues: the sources already there are left alone, and
    the [k]-th new source gets the [k]-th start time. *)
Lemma enqueue_sequence frames :
  Forall (decodable cb) frames ->
  forall st,
    let st' := run_messages cb (map frame_message frames) st in
    (forall j, (j < fresh (world st))%nat ->
               nodes (world st') !! j = nodes (world st) !! j)
    /\ (forall k f, frames !! k = Some f ->
          exists s,
            start_times (nextStartTimeRef st) (map frame_timing frames) !! k = Some s
            /\ nodes (world st') !! (fresh (world st) + k)%nat
               = Some (AudioBufferSourceNode (decoded f) (Some s) false))
    /\ nextStartTimeRef st'
       = fold_left (fun next td => (Qmax next (fst td) + snd td)%Q)
           (map frame_timing frames) (nextStartTimeRef st).
Proof.
  induction 1 as [| f frames [Hp Hd] _ IH]; intros st; cbn zeta.
  - cbn. repeat split; auto. intros k f Hk. discriminate Hk.
  - cbn [map run_messages frame_message start_times frame_timing fold_left fst snd].
    rewrite (onmessage_audio _ _ _ _ Hp Hd). cbn [fst].
    set (st1 := play (decoded f) _).
    destruct (IH st1) as (Hold & Hnew & Hclock). clear IH.
    assert (Hf1 : fresh (world st1) = S (fresh (world st))) by reflexivity.
    assert (Hc1 : nextStartTimeRef st1
                  = (Qmax (nextStartTimeRef st) (arrival f) + duration (decoded f))%Q)
      by reflexivity.
    rewrite Hf1 in Hold, Hnew. rewrite Hc1 in Hnew, Hclock.
    split; [| split].
    + intros j Hj. rewrite Hold by lia. unfold st1. rewrite play_nodes.
      apply lookup_insert_ne. cbn. lia.
    + intros [| k] g Hk.
      * cbn in Hk. injection Hk as <-. eexists. split; [reflexivity |].
        rewrite Nat.add_0_r, Hold by lia. unfold st1. rewrite play_nodes.
        apply lookup_insert_eq.
      * rewrite lookup_cons in Hk. destruct (Hnew k g Hk) as (s & Hs & Hn).
        exists s. split; [exact Hs |].
        now replace (fresh (world st) + S k)%nat
          with (S (fresh (world st)) + k)%nat by lia.
    + exact Hclock.
Qed.

Lemma Qmax_behind (next t : Q) : (t <= next)%Q -> Qmax next t = next.
Proof.
  intros H. unfold Qmax, GenericMinMax.gmax.
  destruct (Qcompare next t) eqn:E; try reflexivity.
  apply Qlt_alt in E. lra.
Qed.

(** While the clock stays behind, start times are back to back. *)
Lemma start_times_behind timing :
  forall next,
    clock_behind next timing ->
    start_times next timing = back_to_back next (map snd timing).
Proof.
  induction timing as [| [t d] timing IH]; intros next; [reflexivity |].
  cbn [clock_behind start_times back_to_back map snd]. intros [Ht Hrest].
  rewrite (Qmax_behind _ _ Ht). now rewrite IH.
Qed.

Lemma int16_pairs_zeros n : int16_pairs (repeat 0 (2 * n)) = repeat 0 n.
Proof.
  induction n as [| n IH]; [reflexivity |].
  replace (2 * S n)%nat with (S (S (2 * n))) by lia.
  cbn [repeat int16_pairs]. now rewrite IH.
Qed.

Lemma map_repeat {A B} (f : A -> B) x n : map f (repeat x n) = repeat (f x) n.
Proof. induction n as [| n IH]; [reflexivity | cbn; now rewrite IH]. Qed.

Lemma silence_decodable n t :
  (1 <= n)%nat -> Z.of_nat n < 2147483648 -> decodable cb (silence n t).
Proof.
  intros Hn Hsmall. unfold decodable, silence. cbn [payload decoded]. split.
  - destruct n as [| n]; [lia |].
    replace (2 * S n)%nat with (S (S (2 * n))) by lia.
    cbn [repeat]. destruct (repeat 0 (2 * n)); discriminate.
  - unfold decode_payload.
    rewrite decode_groups by (apply Forall_forall; intros b Hb;
                              apply list_elem_of_In, repeat_spec in Hb; lia).
    cbn [bind].
    rewrite decodeAudioData_mono; rewrite ?repeat_length.
    + rewrite int16_pairs_zeros, map_repeat.
      now replace (2 * n / 2)%nat with n by (rewrite Nat.mul_comm, Nat.div_mul; lia).
    + rewrite Nat2Z.inj_mul, Z.mul_comm. apply Z_mod_mult.
    + lia.
    + reflexivity.
    + lia.
Qed.

End Scheduler.

(** C1: an enqueue starts the new source at the larger of [nextStartTimeRef]
    and the device clock, adds it to the live set and moves
    [nextStartTimeRef] to the end of the buffer; over a sequence of frames
    during which the device clock stays behind, the start times are back to
    back in arrival order; buffers of 1 s and 0.5 s at device clock 0 leave
    [nextStartTimeRef] at 1.5. *)
Theorem enqueue_back_to_back (cb : Callbacks) :
  (forall p currentTime st buf,
      p <> [] ->
      decode_payload cb p = Ok buf ->
      let st' := fst (onmessage cb (audio_message p) currentTime st) in
      let startAt := Qmax (nextStartTimeRef st) currentTime in
      snd (onmessage cb (audio_message p) currentTime st) = Ok tt
      /\ nodes (world st') !! fresh (world st)
         = Some (AudioBufferSourceNode buf (Some startAt) false)
      /\ sourcesRef st' = {[ fresh (world st) ]} ∪ sourcesRef st
      /\ nextStartTimeRef st' = (startAt + duration buf)%Q)
  /\ (forall f frames st,
        Forall (decodable cb) (f :: frames) ->
        let s0 := Qmax (nextStartTimeRef st) (arrival f) in
        clock_behind (s0 + duration (decoded f)) (map frame_timing frames) ->
        let st' := run_messages cb (map frame_message (f :: frames)) st in
        forall k g,
          (f :: frames) !! k = Some g ->
          exists s,
            back_to_back s0 (map (fun h => duration (decoded h)) (f :: frames)) !! k
            = Some s
            /\ nodes (world st') !! (fresh (world st) + k)%nat
               = Some (AudioBufferSourceNode (decoded g) (Some s) false))
  /\ (forall f1 f2 st,
        decodable cb f1 -> decodable cb f2 ->
        (duration (decoded f1) == 1)%Q -> (duration (decoded f2) == 1 # 2)%Q ->
        (arrival f1 == 0)%Q -> (arrival f2 == 0)%Q ->
        (nextStartTimeRef st == 0)%Q ->
        (nextStartTimeRef
           (run_messages cb [frame_message f1; frame_message f2] st) == 3 # 2)%Q).
Proof.
  split; [| split].
  - intros p currentTime st buf Hp Hd. now apply enqueue_step.
  - intros f frames st Hdec s0 Hbehind st' k g Hk.
    destruct (enqueue_sequence cb (f :: frames) Hdec st) as (_ & Hnew & _).
    destruct (Hnew k g Hk) as (s & Hs & Hn). exists s. split; [| exact Hn].
    cbn [map start_times frame_timing] in Hs. fold frame_timing in Hs.
    rewrite start_times_behind in Hs by exact Hbehind.
    cbn [map back_to_back]. fold s0. rewrite map_map in Hs. exact Hs.
  - intros f1 f2 st Hd1 Hd2 H1 H2 Ha1 Ha2 Hn.
    assert (Hdec : Forall (decodable cb) [f1; f2])
      by (constructor; [assumption | constructor; [assumption | constructor]]).
    destruct (enqueue_sequence cb [f1; f2] Hdec st) as (_ & _ & E).
    cbn [map] in E. rewrite E.
    cbn [map fold_left frame_timing fst snd].
    rewrite Ha2, H1, H2, Ha1, Hn.
    rewrite (Q.max_l 0 0) by lra.
    rewrite (Q.max_l (0 + 1) 0) by lra. lra.
Qed.

Lemma enqueue_back_to_back_witness :
  let f1 := silence (Z.to_nat 24000) 0 in
  let f2 := silence (Z.to_nat 12000) 0 in
  bring_up (mount initial) = Some (first_session, first_callbacks)
  /\ Forall (decodable first_callbacks) [f1; f2]
  /\ clock_behind (Qmax (nextStartTimeRef first_session) (arrival f1)
                   + duration (decoded f1)) (map frame_timing [f2])
  /\ (duration (decoded f1) == 1)%Q /\ (duration (decoded f2) == 1 # 2)%Q
  /\ (nextStartTimeRef
        (run_messages first_callbacks [frame_message f1; frame_message f2]
           first_session) == 3 # 2)%Q
  /\ exists s,
       back_to_back (Qmax (nextStartTimeRef first_session) (arrival f1))
         (map (fun h => duration (decoded h)) [f1; f2]) !! 1%nat = Some s
       /\ nodes (world (run_messages first_callbacks
                          (map frame_message [f1; f2]) first_session))
          !! (fresh (world first_session) + 1)%nat
          = Some (AudioBufferSourceNode (decoded f2) (Some s) false).
Proof.
  intros f1 f2.
  assert (D1 : decodable first_callbacks f1)
    by (apply silence_decodable; lia).
  assert (D2 : decodable first_callbacks f2)
    by (apply silence_decodable; lia).
  assert (D : Forall (decodable first_callbacks) [f1; f2])
    by (constructor; [assumption | constructor; [assumption | constructor]]).
  assert (B : clock_behind (Qmax (nextStartTimeRef first_session) (arrival f1)
                            + duration (decoded f1)) (map frame_timing [f2]))
    by (split; [vm_compute; discriminate | exact I]).
  assert (E1 : (duration (decoded f1) == 1)%Q) by (vm_compute; reflexivity).
  assert (E2 : (duration (decoded f2) == 1 # 2)%Q) by (vm_compute; reflexivity).
  destruct (enqueue_back_to_back first_callbacks) as (_ & Hseq & Hex).
  split; [vm_compute; reflexivity |].
  split; [exact D |]. split; [exact B |]. split; [exact E1 |]. split; [exact E2 |].
  split.
  - exact (Hex f1 f2 first_session D1 D2 E1 E2
             (Qeq_refl _) (Qeq_refl _) (Qeq_refl _)).
  - exact (Hseq f1 [f2] first_session D B 1%nat f2 eq_refl).
Defined.

(** ** Interruption *)

Section Interruption.

Lemma stop_swallow_nodes w src :
  nodes (stop_swallow w src) = alter stopped src (nodes w).
Proof.
  unfold stop_swallow, source_stop.
  destruct (nodes w !! src) as [n |] eqn:E.
  - destruct n as [s c | c m p | b [t |] f]; cbn [nodes set_nodes];
      apply map_eq; intros j; rewrite lookup_alter;
      destruct (decide (src = j)) as [<- | Hne];
      rewrite ?E, ?lookup_insert_eq, ?lookup_insert_ne by assumption;
      reflexivity.
  - apply map_eq. intros j. rewrite lookup_alter.
    destruct (decide (src = j)) as [<- | Hne]; [now rewrite E | reflexivity].
Qed.

Lemma stopped_idempotent n : stopped (stopped n) = stopped n.
Proof. now destruct n as [s c | c m p | b [t |] f]. Qed.

Lemma stop_all_nodes l :
  forall w j,
    nodes (fold_left stop_swallow l w) !! j
    = if decide (j ∈ l) then stopped <$> nodes w !! j else nodes w !! j.
Proof.
  induction l as [| src l IH]; intros w j; cbn [fold_left].
  - destruct (decide (j ∈ [])) as [H | _]; [| reflexivity].
    now apply not_elem_of_nil in H.
  - rewrite IH, stop_swallow_nodes, lookup_alter.
    destruct (decide (src = j)) as [-> | Hne].
    + rewrite (decide_True (P := j ∈ j :: l)) by (apply elem_of_cons; now left).
      destruct (decide (j ∈ l)); [| reflexivity].
      destruct (nodes w !! j); cbn; [now rewrite stopped_idempotent | reflexivity].
    + destruct (decide (j ∈ l)) as [Hl | Hl].
      * now rewrite (decide_True (P := j ∈ src :: l))
          by (apply elem_of_cons; now right).
      * rewrite (decide_False (P := j ∈ src :: l)); [reflexivity |].
        rewrite elem_of_cons. intros [E | E]; [congruence | exact (Hl E)].
Qed.

Lemma stop_swallow_fresh w src : fresh (stop_swallow w src) = fresh w.
Proof.
  unfold stop_swallow, source_stop.
  now destruct (nodes w !! src) as [[s c | c m p | b [t |] f] |].
Qed.

End Interruption.

(** C2: the interruption stops every live source, empties the live set and
    resets the clock to 0, whatever the state of the sources; it returns
    normally; with an empty live set it leaves the world as it is; and the
    next enqueue starts at the larger of 0 and the device clock. *)
Theorem interrupt_flushes_playback (st : State) :
  let st' := interrupt st in
  sourcesRef st' = ∅
  /\ nextStartTimeRef st' = 0%Q
  /\ (forall src, src ∈ sourcesRef st ->
        nodes (world st') !! src = stopped <$> nodes (world st) !! src)
  /\ (forall src b t f,
        src ∈ sourcesRef st ->
        nodes (world st) !! src = Some (AudioBufferSourceNode b (Some t) f) ->
        nodes (world st') !! src = Some (AudioBufferSourceNode b (Some t) true))
  /\ (forall cb currentTime,
        onmessage cb interruption currentTime st = (st', Ok tt))
  /\ (forall cb message currentTime,
        interrupted message = true ->
        snd (onmessage cb message currentTime st) = Ok tt ->
        sourcesRef (fst (onmessage cb message currentTime st)) = ∅
        /\ nextStartTimeRef (fst (onmessage cb message currentTime st)) = 0%Q)
  /\ (sourcesRef st = ∅ -> world st' = world st)
  /\ (forall cb p currentTime buf,
        p <> [] ->
        decode_payload cb p = Ok buf ->
        let st2 := fst (onmessage cb (audio_message p) currentTime st') in
        nodes (world st2) !! fresh (world st')
        = Some (AudioBufferSourceNode buf (Some (Qmax 0 currentTime)) false)
        /\ sourcesRef st2 = {[ fresh (world st') ]}).
Proof.
  cbn zeta.
  assert (Hstop : forall src, src ∈ sourcesRef st ->
            nodes (world (interrupt st)) !! src
            = stopped <$> nodes (world st) !! src).
  { intros src Hsrc. unfold interrupt. cbn [world set_world set_sourcesRef
      set_nextStartTimeRef]. rewrite stop_all_nodes.
    destruct (decide (src ∈ elements (sourcesRef st))) as [_ | Hn];
      [reflexivity |].
    exfalso. apply Hn. now apply elem_of_elements. }
  split; [reflexivity |]. split; [reflexivity |]. split; [exact Hstop |].
  split; [| split; [| split; [| split]]].
  - intros src b t f Hsrc Hn. rewrite (Hstop src Hsrc), Hn. reflexivity.
  - reflexivity.
  - intros cb message currentTime Hi. unfold onmessage. rewrite Hi.
    destruct (inlineData_data message) as [[| c p] |]; cbn [fst snd];
      try (intros _; split; reflexivity).
    destruct (decode_payload cb (c :: p)); cbn [fst snd];
      [intros _; split; reflexivity | discriminate].
  - intros He. unfold interrupt. rewrite He, elements_empty. reflexivity.
  - intros cb p currentTime buf Hp Hd. cbn zeta.
    destruct (enqueue_step cb p currentTime (interrupt st) buf Hp Hd)
      as (_ & Hn & Hs & _).
    split; [exact Hn |]. rewrite Hs. cbn. apply union_empty_r_L.
Qed.

Lemma interrupt_flushes_playback_witness :
  let f1 := silence 2 0 in
  let f2 := silence 1 0 in
  let st :=
    run_messages first_callbacks [frame_message f1; frame_message f2]
      first_session in
  let st' := interrupt st in
  (6%nat ∈ sourcesRef st /\ 7%nat ∈ sourcesRef st)
  /\ nodes (world st) !! 7%nat
     = Some (AudioBufferSourceNode (decoded f2) (Some (2 # 24000)%Q) false)
  /\ decodable first_callbacks f1
  /\ sourcesRef st' = ∅
  /\ nextStartTimeRef st' = 0%Q
  /\ nodes (world st') !! 7%nat
     = Some (AudioBufferSourceNode (decoded f2) (Some (2 # 24000)%Q) true)
  /\ onmessage first_callbacks interruption 5 st = (st', Ok tt)
  /\ nodes (world (fst (onmessage first_callbacks (audio_message (payload f1))
                          5 st'))) !! fresh (world st')
     = Some (AudioBufferSourceNode (decoded f1) (Some (Qmax 0 5)) false).
Proof.
  intros f1 f2 st st'.
  assert (M : 6%nat ∈ sourcesRef st /\ 7%nat ∈ sourcesRef st)
    by (split; apply (bool_decide_unpack _); vm_compute; exact I).
  assert (N : nodes (world st) !! 7%nat
              = Some (AudioBufferSourceNode (decoded f2) (Some (2 # 24000)%Q) false))
    by (vm_compute; reflexivity).
  assert (D : decodable first_callbacks f1) by (apply silence_decodable; lia).
  destruct (interrupt_flushes_playback st) as (A & B & _ & C & E & _ & _ & F).
  split; [exact M |]. split; [exact N |]. split; [exact D |].
  split; [exact A |]. split; [exact B |].
  split; [exact (C 7%nat _ _ _ (proj2 M) N) |].
  split; [exact (E first_callbacks 5%Q) |].
  exact (proj1 (F first_callbacks (payload f1) 5%Q (decoded f1) (proj1 D) (proj2 D))).
Defined.

(** ** Malformed audio payloads *)

Section Malformed.





End Malformed.




(** ** Capture and the mute flag *)

Section Capture.

Lemma onaudioprocess_outbox m p inputData st :
  outbox (world (fst (onaudioprocess m p inputData st)))
  = if m then outbox (world st)
    else (p, {| blob_data :=
                  b64_groups (Uint8Array_of_Int16Array
                                (map (fun s => ToInt16 (num_mul s 32768)) inputData));
                blob_mimeType := audio_pcm_rate_16000 |}) :: outbox (world st).
Proof.
  unfold onaudioprocess. destruct m; [reflexivity |].
  now rewrite createBlob_ok.
Qed.

Lemma onaudioprocess_returns m p inputData st :
  snd (onaudioprocess m p inputData st) = Ok tt.
Proof.
  unfold onaudioprocess. destruct m; [reflexivity |].
  now rewrite createBlob_ok.
Qed.

Lemma audioprocess_outbox st processor m p inputData :
  nodes (world st) !! processor = Some (ScriptProcessorNode true m p) ->
  outbox (world (fst (audioprocess_event processor inputData st)))
  = if m then outbox (world st)
    else (p, {| blob_data :=
                  b64_groups (Uint8Array_of_Int16Array
                                (map (fun s => ToInt16 (num_mul s 32768)) inputData));
                blob_mimeType := audio_pcm_rate_16000 |}) :: outbox (world st).
Proof.
  intros Hn. unfold audioprocess_event. rewrite Hn.
  apply onaudioprocess_outbox.
Qed.

End Capture.

(** C5: the capture handler tests the [isMuted] constant of the render that
    started the session, not the flag [toggleMute] sets.  Toggling changes
    nothing of what a block produces; a session started unmuted and then
    muted still sends one message per block; a session started while muted
    and then unmuted still drops every block. *)
Theorem toggleMute_not_seen_by_capture :
  (forall st processor inputData,
      world (toggleMute st) = world st
      /\ processorRef (toggleMute st) = processorRef st
      /\ isMuted (toggleMute st) = negb (isMuted st)
      /\ outbox (world (fst (audioprocess_event processor inputData (toggleMute st))))
         = outbox (world (fst (audioprocess_event processor inputData st))))
  /\ (let st := click_mute first_session in
      status st = connected /\ isMuted st = true
      /\ processorRef st = Some 5%nat
      /\ forall inputData,
           exists pcmBlob,
             createBlob inputData = Ok pcmBlob
             /\ outbox (world (fst (audioprocess_event 5 inputData st)))
                = [(3%nat, pcmBlob)])
  /\ (let st := click_mute second_session in
      status st = connected /\ isMuted st = false
      /\ processorRef st = Some 11%nat
      /\ forall inputData,
           outbox (world (fst (audioprocess_event 11 inputData st))) = []).
Proof.
  split; [| split].
  - intros st processor inputData. repeat (split; [reflexivity |]).
    unfold audioprocess_event. change (world (toggleMute st)) with (world st).
    destruct (nodes (world st) !! processor) as [[s c | [] m p | b t f] |];
      try reflexivity.
    now rewrite !onaudioprocess_outbox.
  - cbn zeta.
    assert (N : nodes (world (click_mute first_session)) !! 5%nat
                = Some (ScriptProcessorNode true false 3))
      by (vm_compute; reflexivity).
    assert (O : outbox (world (click_mute first_session)) = [])
      by (vm_compute; reflexivity).
    split; [vm_compute; reflexivity |]. split; [vm_compute; reflexivity |].
    split; [vm_compute; reflexivity |].
    intros inputData. eexists. split; [apply createBlob_ok |].
    rewrite (audioprocess_outbox _ _ _ _ _ N), O. reflexivity.
  - cbn zeta.
    assert (N : nodes (world (click_mute second_session)) !! 11%nat
                = Some (ScriptProcessorNode true true 9))
      by (vm_compute; reflexivity).
    assert (O : outbox (world (click_mute second_session)) = [])
      by (vm_compute; reflexivity).
    split; [vm_compute; reflexivity |]. split; [vm_compute; reflexivity |].
    split; [vm_compute; reflexivity |].
    intros inputData.
    rewrite (audioprocess_outbox _ _ _ _ _ N), O. reflexivity.
Qed.


(** ** Teardown *)

Section Teardown.

Ltac split_state st :=
  destruct st as [act sta mut shr vol aref iref sref pref nref ssref vref cref
                  tref pmref ai nxt srcs w].

Ltac all_refs :=
  repeat match goal with
         | o : option _ |- _ => destruct o
         end.

(** Runs the handlers on a state whose refs are known, leaving the maps of
    the world folded. *)
Ltac run_teardown :=
  cbv [stopSession stopScreenShare
       set_isActive set_status set_isMuted set_isScreenSharing set_volumeLevel
       set_audioContextRef set_inputAudioContextRef set_streamRef
       set_processorRef set_sourceRef set_screenStreamRef set_videoRef
       set_screenIntervalRef set_sessionPromiseRef set_nextStartTimeRef
       set_sourcesRef set_world
       isActive status isMuted isScreenSharing volumeLevel audioContextRef
       inputAudioContextRef streamRef processorRef sourceRef screenStreamRef
       videoRef canvasRef screenIntervalRef sessionPromiseRef aiRef
       nextStartTimeRef sourcesRef world
       close_context stop_tracks disconnect clearInterval request_close release
       set_contexts set_streams set_timers set_nodes set_outbox
       set_close_requests set_fresh
       contexts streams timers nodes outbox close_requests fresh].

Ltac by_cases st := split_state st; all_refs; run_teardown.

Lemma stopSession_refs st :
  let st' := stopSession st in
  status st' = idle /\ isActive st' = false
  /\ screenIntervalRef st' = None /\ screenStreamRef st' = None
  /\ processorRef st' = None /\ sourceRef st' = None /\ streamRef st' = None
  /\ audioContextRef st' = None /\ inputAudioContextRef st' = None
  /\ sessionPromiseRef st' = None
  /\ nextStartTimeRef st' = 0%Q /\ isScreenSharing st' = false.
Proof. by_cases st; repeat split. Qed.

Lemma stopSession_twice st : stopSession (stopSession st) = stopSession st.
Proof. by_cases st; reflexivity. Qed.

Lemma stopSession_contexts st :
  contexts (world (stopSession st))
  = release closed_context (inputAudioContextRef st)
      (release closed_context (audioContextRef st) (contexts (world st))).
Proof. by_cases st; reflexivity. Qed.

Lemma stopSession_streams st :
  streams (world (stopSession st))
  = release stopped_stream (streamRef st)
      (release stopped_stream (screenStreamRef st) (streams (world st))).
Proof. by_cases st; reflexivity. Qed.

Lemma stopSession_nodes st :
  nodes (world (stopSession st))
  = release disconnected (sourceRef st)
      (release disconnected (processorRef st) (nodes (world st))).
Proof. by_cases st; reflexivity. Qed.

Lemma stopSession_timers st :
  timers (world (stopSession st))
  = match screenIntervalRef st with
    | Some t => delete t (timers (world st))
    | None => timers (world st)
    end.
Proof. by_cases st; reflexivity. Qed.

Lemma stopSession_close_requests st :
  close_requests (world (stopSession st))
  = match sessionPromiseRef st with
    | Some p => p :: close_requests (world st)
    | None => close_requests (world st)
    end.
Proof. by_cases st; reflexivity. Qed.

(** Releasing through two refs, with an idempotent release: an object held
    by either ref ends up released. *)
Lemma release_twice {K V : Type} `{Countable K} (f : V -> V) r1 r2
    (m : gmap K V) k :
  (forall v, f (f v) = f v) ->
  r1 = Some k \/ r2 = Some k ->
  release f r2 (release f r1 m) !! k = f <$> m !! k.
Proof.
  intros Hf Hk. unfold release.
  destruct r1 as [k1 |], r2 as [k2 |];
    rewrite ?lookup_alter; repeat case_decide; subst;
    destruct Hk as [Hk | Hk]; try discriminate Hk;
    try (injection Hk as ->); try congruence;
    destruct (m !! k); cbn; rewrite ?Hf; reflexivity.
Qed.

End Teardown.

(** C6: [stopSession] returns from any state, leaves [status] at [idle], every
    handle null and the playback clock at 0; what the handles held is
    released; a second call changes nothing; on a component that never
    started a session it changes nothing; and the close request swallows
    whatever the session promise or [close] raise. *)
Theorem stopSession_idempotent :
  (forall st,
      let st' := stopSession st in
      (status st' = idle /\ isActive st' = false
       /\ screenIntervalRef st' = None /\ screenStreamRef st' = None
       /\ processorRef st' = None /\ sourceRef st' = None /\ streamRef st' = None
       /\ audioContextRef st' = None /\ inputAudioContextRef st' = None
       /\ sessionPromiseRef st' = None
       /\ nextStartTimeRef st' = 0%Q /\ isScreenSharing st' = false)
      /\ stopSession st' = st'
      /\ (forall ctx,
            audioContextRef st = Some ctx \/ inputAudioContextRef st = Some ctx ->
            contexts (world st') !! ctx
            = closed_context <$> contexts (world st) !! ctx)
      /\ (forall stream,
            screenStreamRef st = Some stream \/ streamRef st = Some stream ->
            streams (world st') !! stream
            = stopped_stream <$> streams (world st) !! stream)
      /\ (forall node,
            processorRef st = Some node \/ sourceRef st = Some node ->
            nodes (world st') !! node = disconnected <$> nodes (world st) !! node)
      /\ (forall timer,
            screenIntervalRef st = Some timer -> timers (world st') !! timer = None)
      /\ (forall sessionPromise,
            sessionPromiseRef st = Some sessionPromise ->
            close_requests (world st')
            = sessionPromise :: close_requests (world st)))
  /\ stopSession (mount initial) = mount initial
  /\ (forall session close, then_close_catch session close = Ok tt).
Proof.
  split; [| split].
  - intros st. cbn zeta.
    split; [apply stopSession_refs |].
    split; [apply stopSession_twice |].
    split; [| split; [| split; [| split]]].
    + intros ctx Hctx. rewrite stopSession_contexts.
      apply release_twice; [reflexivity | exact Hctx].
    + intros stream Hs. rewrite stopSession_streams.
      apply release_twice; [reflexivity | exact Hs].
    + intros node Hn. rewrite stopSession_nodes.
      apply release_twice; [now intros [] | exact Hn].
    + intros timer Ht. rewrite stopSession_timers, Ht. apply lookup_delete_eq.
    + intros p Hp. now rewrite stopSession_close_requests, Hp.
  - reflexivity.
  - intros [[] | e] [[] | e']; reflexivity.
Qed.

Lemma stopSession_idempotent_witness :
  let st := sharing_session in
  let st' := stopSession st in
  (audioContextRef st = Some 1%nat /\ screenStreamRef st = Some 6%nat
   /\ processorRef st = Some 5%nat /\ screenIntervalRef st = Some 8%positive
   /\ sessionPromiseRef st = Some 3%nat)
  /\ status st' = idle
  /\ stopSession st' = st'
  /\ contexts (world st') !! 1%nat
     = Some {| ctx_sampleRate := 24000; ctx_closed := true |}
  /\ streams (world st') !! 6%nat = Some {| active := false; onended := true |}
  /\ nodes (world st') !! 5%nat = Some (ScriptProcessorNode false false 3)
  /\ timers (world st') !! 8%positive = None
  /\ close_requests (world st') = [3%nat].
Proof.
  intros st st'.
  assert (R : audioContextRef st = Some 1%nat /\ screenStreamRef st = Some 6%nat
              /\ processorRef st = Some 5%nat
              /\ screenIntervalRef st = Some 8%positive
              /\ sessionPromiseRef st = Some 3%nat)
    by (vm_compute; repeat split).
  destruct R as (Ra & Rs & Rp & Rt & Rq).
  destruct stopSession_idempotent as (H & _ & _).
  destruct (H st) as ((Hidle & _) & Htwice & Hctx & Hstr & Hnode & Htimer & Hclose).
  subst st'.
  split; [repeat split; assumption |].
  split; [exact Hidle |]. split; [exact Htwice |].
  split; [rewrite (Hctx 1%nat (or_introl Ra)); vm_compute; reflexivity |].
  split; [rewrite (Hstr 6%nat (or_introl Rs)); vm_compute; reflexivity |].
  split; [rewrite (Hnode 5%nat (or_introl Rp)); vm_compute; reflexivity |].
  split; [exact (Htimer 8%positive Rt) |].
  rewrite (Hclose 3%nat Rq). vm_compute. reflexivity.
Defined.

(** ** Starting *)

(** C7: when [getUserMedia] rejects, the [catch] of [startSession] sets
    [status] to [error] and does nothing else: the two audio contexts made
    before the [await] stay open and stay in their refs, where the [onerror]
    callback next to it runs the whole teardown.  A later start overwrites
    the refs, after which no teardown reaches the first two contexts. *)
Theorem start_failure_without_teardown :
  (forall l e st, startSession_resume l (Throw e) st = (set_status error st, None))
  /\ (let st := mic_denied in
      status st = error
      /\ inputAudioContextRef st = Some 0%nat
      /\ audioContextRef st = Some 1%nat
      /\ contexts (world st) !! 0%nat
         = Some {| ctx_sampleRate := 16000; ctx_closed := false |}
      /\ contexts (world st) !! 1%nat
         = Some {| ctx_sampleRate := 24000; ctx_closed := false |})
  /\ (forall st, onerror st = stopSession (set_status error st))
  /\ (let st := stopSession (fst (click_start mic_denied)) in
      status st = idle
      /\ contexts (world st) !! 0%nat
         = Some {| ctx_sampleRate := 16000; ctx_closed := false |}
      /\ contexts (world st) !! 1%nat
         = Some {| ctx_sampleRate := 24000; ctx_closed := false |}).
Proof.
  split; [reflexivity |]. split; [vm_compute; repeat split |].
  split; [reflexivity |]. vm_compute. repeat split.
Qed.

(** The start control after a failed start, and [startSession] itself on a
    connected session: [connecting] is entered from [error], with two new
    audio contexts, and from [connected]. *)
Lemma start_not_only_from_idle :
  (status mic_denied = error
   /\ status (fst (click_start mic_denied)) = connecting
   /\ fresh (world (fst (click_start mic_denied)))
      = (2 + fresh (world mic_denied))%nat)
  /\ (status first_session = connected
      /\ status (fst (startSession first_session)) = connecting
      /\ fst (startSession first_session) <> first_session).
Proof.
  split; [vm_compute; repeat split |].
  split; [vm_compute; reflexivity |]. split; [vm_compute; reflexivity |].
  intros H. apply (f_equal status) in H. vm_compute in H. discriminate H.
Qed.

(** C8, as the code has it: [startSession] has no guard on the session
    state; it returns early only without a client, and otherwise enters
    [connecting] and makes two audio contexts, whatever the state.  The
    guard is the start control: a click does nothing while [status] is
    [connecting] or while the session is active, and is [startSession] in
    every other state; [onopen] makes the session active together with
    [connected], and [stopSession] clears both. *)
Theorem click_start_guard :
  (forall st,
      status st = connecting \/ isActive st = true -> click_start st = (st, None))
  /\ (forall st,
        status st <> connecting -> isActive st = false ->
        click_start st = startSession st)
  /\ (forall st,
        aiRef st = true ->
        status (fst (startSession st)) = connecting
        /\ fresh (world (fst (startSession st))) = (2 + fresh (world st))%nat
        /\ is_Some (snd (startSession st)))
  /\ (forall st, aiRef st = false -> startSession st = (st, None))
  /\ (forall cb st,
        status (onopen cb st) = connected /\ isActive (onopen cb st) = true)
  /\ (forall st,
        status (stopSession st) = idle /\ isActive (stopSession st) = false).
Proof.
  split; [| split; [| split; [| split; [| split]]]].
  - intros st [H | H]; unfold click_start; rewrite H;
      [now destruct (negb (isActive st)) | reflexivity].
  - intros st Hs Ha. unfold click_start. rewrite Ha. cbn [negb].
    destruct (status st); congruence.
  - intros st Hai. unfold startSession. rewrite Hai. cbn. eauto.
  - intros st Hai. unfold startSession. now rewrite Hai.
  - intros cb st. split; reflexivity.
  - intros st. destruct (stopSession_refs st) as (A & B & _). now split.
Qed.

Lemma click_start_guard_witness :
  (status (fst (click_start (mount initial))) = connecting
   /\ click_start (fst (click_start (mount initial)))
      = (fst (click_start (mount initial)), None))
  /\ (isActive first_session = true
      /\ click_start first_session = (first_session, None))
  /\ (status mic_denied <> connecting /\ isActive mic_denied = false
      /\ aiRef mic_denied = true
      /\ click_start mic_denied = startSession mic_denied
      /\ status (fst (startSession mic_denied)) = connecting)
  /\ (aiRef initial = false /\ startSession initial = (initial, None)).
Proof.
  destruct click_start_guard as (Hnoop & Hstart & Henter & Hnoclient & _).
  assert (C : status (fst (click_start (mount initial))) = connecting)
    by (vm_compute; reflexivity).
  assert (A : isActive first_session = true) by (vm_compute; reflexivity).
  assert (E : status mic_denied <> connecting) by (vm_compute; discriminate).
  assert (I : isActive mic_denied = false) by (vm_compute; reflexivity).
  assert (R : aiRef mic_denied = true) by (vm_compute; reflexivity).
  split; [split; [exact C | exact (Hnoop _ (or_introl C))] |].
  split; [split; [exact A | exact (Hnoop _ (or_intror A))] |].
  split.
  - split; [exact E |]. split; [exact I |]. split; [exact R |].
    split; [exact (Hstart _ E I) | exact (proj1 (Henter _ R))].
  - split; [reflexivity | exact (Hnoclient initial eq_refl)].
Defined.

(** ** Screen sharing *)

Section ScreenShare.

Lemma stopScreenShare_outbox st :
  outbox (world (stopScreenShare st)) = outbox (world st).
Proof.
  unfold stopScreenShare.
  destruct st as [act sta mut shr vol aref iref sref pref nref ssref vref cref
                  tref pmref ai nxt srcs w].
  destruct tref, ssref, vref; reflexivity.
Qed.

Lemma stopScreenShare_timer st t :
  screenIntervalRef st = Some t ->
  timers (world (stopScreenShare st)) !! t = None
  /\ screenIntervalRef (stopScreenShare st) = None.
Proof.
  destruct st as [act sta mut shr vol aref iref sref pref nref ssref vref cref
                  tref pmref ai nxt srcs w].
  cbn [screenIntervalRef]. intros ->.
  destruct ssref, vref; cbn; split; try reflexivity; apply lookup_delete_eq.
Qed.

Lemma stop_tracks_twice stream w :
  stop_tracks stream (stop_tracks stream w) = stop_tracks stream w.
Proof.
  destruct w as [ctxs strs tms nds obx cls fr].
  unfold stop_tracks, set_streams. cbn.
  f_equal. apply alter_id. intros x. rewrite lookup_alter_eq.
  destruct (strs !! stream) as [y |]; [| discriminate].
  cbn. now intros [= <-].
Qed.

Lemma stopScreenShare_revoke st stream :
  screenStreamRef st = Some stream ->
  stopScreenShare (revoke stream st) = stopScreenShare st.
Proof.
  destruct st as [act sta mut shr vol aref iref sref pref nref ssref vref cref
                  tref pmref ai nxt srcs w].
  cbn [screenStreamRef]. intros ->.
  destruct w as [ctxs strs tms nds obx cls fr].
  assert (E : alter stopped_stream stream (alter stopped_stream stream strs)
              = alter stopped_stream stream strs).
  { pose proof (stop_tracks_twice stream
                  {| contexts := ctxs; streams := strs; timers := tms;
                     nodes := nds; outbox := obx; close_requests := cls;
                     fresh := fr |}) as T.
    unfold stop_tracks, set_streams in T. cbn in T. now injection T. }
  unfold stopScreenShare, revoke, stop_tracks, clearInterval.
  destruct tref, vref; cbn; now rewrite E.
Qed.

Lemma revoke_rest stream st :
  timers (world (revoke stream st)) = timers (world st)
  /\ screenStreamRef (revoke stream st) = screenStreamRef st
  /\ stream_active stream (world (revoke stream st)) = false.
Proof.
  destruct st as [act sta mut shr vol aref iref sref pref nref ssref vref cref
                  tref pmref ai nxt srcs w].
  destruct w as [ctxs strs tms nds obx cls fr].
  repeat split. unfold stream_active, revoke, stop_tracks. cbn.
  rewrite lookup_alter_eq. now destruct (strs !! stream).
Qed.

Lemma revoke_flag stream st :
  isScreenSharing (revoke stream st) = isScreenSharing st.
Proof. now destruct st. Qed.

Lemma interval_event_live timer base64Data st :
  is_Some (timers (world st) !! timer) ->
  interval_event timer base64Data st = tick base64Data st.
Proof. intros [period E]. unfold interval_event. now rewrite E. Qed.

Lemma tick_sends base64Data st stream sessionPromise :
  screenStreamRef st = Some stream ->
  stream_active stream (world st) = true ->
  sessionPromiseRef st = Some sessionPromise ->
  tick base64Data st
  = set_world (send sessionPromise (jpeg_frame base64Data) (world st)) st.
Proof. intros Hs Ha Hp. unfold tick. now rewrite Hs, Ha, Hp. Qed.

(** What a grant leaves, with the canvas, the video element and a 2d
    context at hand. *)
Lemma resume_with_context st :
  canvasRef st = true -> is_Some (videoRef st) ->
  let st' := startScreenShare_resume (Ok tt) true st in
  let stream := fresh (world st) in
  let timer := Pos.of_succ_nat (S (fresh (world st))) in
  screenStreamRef st' = Some stream
  /\ isScreenSharing st' = true
  /\ screenIntervalRef st' = Some timer
  /\ timers (world st') !! timer = Some 1000
  /\ streams (world st') !! stream = Some {| active := true; onended := true |}
  /\ sessionPromiseRef st' = sessionPromiseRef st
  /\ outbox (world st') = outbox (world st).
Proof.
  intros Hc [v Hv]. cbn zeta. unfold startScreenShare_resume.
  destruct st as [act sta mut shr vol aref iref sref pref nref ssref vref cref
                  tref pmref ai nxt srcs w].
  cbn [canvasRef videoRef] in Hc, Hv. subst. cbn.
  rewrite lookup_insert_eq, lookup_alter_eq, lookup_insert_eq.
  repeat split.
Qed.

(** What a grant leaves when the canvas, the video element or the 2d
    context is missing. *)
Lemma resume_without_context st context2d :
  canvasRef st = false \/ videoRef st = None \/ context2d = false ->
  let st' := startScreenShare_resume (Ok tt) context2d st in
  let stream := fresh (world st) in
  screenStreamRef st' = Some stream
  /\ isScreenSharing st' = true
  /\ screenIntervalRef st' = screenIntervalRef st
  /\ timers (world st') = timers (world st)
  /\ streams (world st') !! stream = Some {| active := true; onended := false |}
  /\ sessionPromiseRef st' = sessionPromiseRef st
  /\ outbox (world st') = outbox (world st).
Proof.
  intros H. cbn zeta. unfold startScreenShare_resume.
  destruct st as [act sta mut shr vol aref iref sref pref nref ssref vref cref
                  tref pmref ai nxt srcs w].
  cbn [canvasRef videoRef] in H.
  destruct cref, vref as [v |], context2d;
    try (exfalso; destruct H as [H | [H | H]]; discriminate H);
    cbn; rewrite lookup_insert_eq; repeat split.
Qed.

Lemma sample_frames_sends timer stream sessionPromise frames :
  forall st,
    is_Some (timers (world st) !! timer) ->
    screenStreamRef st = Some stream ->
    stream_active stream (world st) = true ->
    sessionPromiseRef st = Some sessionPromise ->
    sample_frames timer frames st
    = set_world
        (set_outbox
           (rev (map (fun d => (sessionPromise, jpeg_frame d)) frames)
            ++ outbox (world st)) (world st)) st.
Proof.
  induction frames as [| d frames IH]; intros st Ht Hs Ha Hp.
  - destruct st as [act sta mut shr vol aref iref sref pref nref ssref vref cref
                    tref pmref ai nxt srcs w].
    now destruct w.
  - change (sample_frames timer (d :: frames) st)
      with (sample_frames timer frames (interval_event timer d st)).
    rewrite (interval_event_live _ _ _ Ht), (tick_sends _ _ _ _ Hs Ha Hp).
    destruct st as [act sta mut shr vol aref iref sref pref nref ssref vref cref
                    tref pmref ai nxt srcs w].
    destruct w as [ctxs strs tms nds obx cls fr].
    cbn [world screenStreamRef sessionPromiseRef timers] in *.
    unfold stream_active in Ha. cbn [streams] in Ha.
    rewrite IH; cbn; try assumption.
    cbn [map rev]. now rewrite <- app_assoc.
Qed.

End ScreenShare.

(** Sharing granted without a 2d context, on the first session: the share
    flag is on and the stream is held and live, but there is no timer, so no
    frame is ever sampled; and when the track ends [stopScreenShare] does not
    run: the flag stays on and the ended stream stays in its ref. *)
Lemma screen_share_without_context :
  let st := startScreenShare_resume (Ok tt) false first_session in
  isScreenSharing st = true
  /\ screenStreamRef st = Some 6%nat
  /\ stream_active 6 (world st) = true
  /\ screenIntervalRef st = None
  /\ timers (world st) = ∅
  /\ isScreenSharing (track_ended_event 6 st) = true
  /\ screenStreamRef (track_ended_event 6 st) = Some 6%nat
  /\ isScreenSharing (stopScreenShare st) = false.
Proof. vm_compute. repeat split. Qed.

(** C9, as the code has it.  A grant of [getDisplayMedia] holds the stream
    and sets the share flag.  With the canvas, the video element and a 2d
    context it sets one timer with a period of 1000 ms and the [onended]
    handler of the track; a firing of a live timer runs the sampling
    callback, which on an active stream sends one JPEG frame and changes
    nothing else, so a run of firings sends one frame each, in order; on a
    stream that has ended, or is gone, the firing runs [stopScreenShare]
    and sends nothing, which clears the timer, so that it does not fire
    again; and the end of the track runs [stopScreenShare], with the same
    result as an explicit stop.  Without the canvas, the video element or
    the context no timer and no handler is set: no frame is sampled, and the
    end of the track leaves the share flag on. *)
Theorem screen_share_sampling :
  (forall st,
      canvasRef st = true -> is_Some (videoRef st) ->
      let st' := startScreenShare_resume (Ok tt) true st in
      let stream := fresh (world st) in
      exists timer,
        screenStreamRef st' = Some stream
        /\ isScreenSharing st' = true
        /\ stream_active stream (world st') = true
        /\ screenIntervalRef st' = Some timer
        /\ timers (world st') !! timer = Some 1000
        /\ streams (world st') !! stream
           = Some {| active := true; onended := true |}
        /\ (forall frames sessionPromise,
              sessionPromiseRef st = Some sessionPromise ->
              sample_frames timer frames st'
              = set_world
                  (set_outbox
                     (rev (map (fun d => (sessionPromise, jpeg_frame d)) frames)
                      ++ outbox (world st)) (world st')) st')
        /\ (forall base64Data,
              let st'' := interval_event timer base64Data (revoke stream st') in
              st'' = stopScreenShare st'
              /\ outbox (world st'') = outbox (world st)
              /\ timers (world st'') !! timer = None
              /\ forall base64Data', interval_event timer base64Data' st'' = st'')
        /\ track_ended_event stream st' = stopScreenShare st')
  /\ (forall timer base64Data st,
        (is_Some (timers (world st) !! timer) ->
         interval_event timer base64Data st = tick base64Data st)
        /\ (timers (world st) !! timer = None ->
            interval_event timer base64Data st = st))
  /\ (forall base64Data st,
        (screenStreamRef st = None
         \/ exists stream, screenStreamRef st = Some stream
                           /\ stream_active stream (world st) = false) ->
        tick base64Data st = stopScreenShare st
        /\ outbox (world (tick base64Data st)) = outbox (world st))
  /\ (forall base64Data st timer,
        screenIntervalRef st = Some timer ->
        interval_event timer base64Data (stopScreenShare st) = stopScreenShare st)
  /\ (forall base64Data st stream sessionPromise,
        screenStreamRef st = Some stream ->
        stream_active stream (world st) = true ->
        sessionPromiseRef st = Some sessionPromise ->
        tick base64Data st
        = set_world
            (send sessionPromise
               {| blob_data := base64Data; blob_mimeType := image_jpeg |}
               (world st)) st
        /\ outbox (world (tick base64Data st))
           = (sessionPromise,
              {| blob_data := base64Data; blob_mimeType := image_jpeg |})
             :: outbox (world st))
  /\ (forall st, track_onended st = stopScreenShare st)
  /\ (forall st stream s,
        streams (world st) !! stream = Some s ->
        active s = true -> onended s = true ->
        track_ended_event stream st
        = stopScreenShare (set_world (stop_tracks stream (world st)) st)
        /\ (screenStreamRef st = Some stream ->
            track_ended_event stream st = stopScreenShare st))
  /\ (forall st context2d,
        canvasRef st = false \/ videoRef st = None \/ context2d = false ->
        let st' := startScreenShare_resume (Ok tt) context2d st in
        let stream := fresh (world st) in
        screenStreamRef st' = Some stream
        /\ isScreenSharing st' = true
        /\ stream_active stream (world st') = true
        /\ screenIntervalRef st' = screenIntervalRef st
        /\ timers (world st') = timers (world st)
        /\ streams (world st') !! stream
           = Some {| active := true; onended := false |}
        /\ track_ended_event stream st' = revoke stream st'
        /\ isScreenSharing (track_ended_event stream st') = true
        /\ screenStreamRef (track_ended_event stream st') = Some stream).
Proof.
  assert (Hended : forall st stream s,
             streams (world st) !! stream = Some s ->
             active s = true -> onended s = true ->
             track_ended_event stream st = stopScreenShare (revoke stream st)).
  { intros st stream s Hs Ha Ho. unfold track_ended_event.
    now rewrite Hs, Ha, Ho. }
  split; [| split; [| split; [| split; [| split; [| split; [| split]]]]]].
  - intros st Hc Hv. cbn zeta.
    destruct (resume_with_context st Hc Hv) as (A & B & C & D & E & F & G).
    set (st' := startScreenShare_resume (Ok tt) true st) in *.
    set (timer := Pos.of_succ_nat (S (fresh (world st)))) in *.
    set (stream := fresh (world st)) in *.
    assert (Ha : stream_active stream (world st') = true)
      by (unfold stream_active; now rewrite E).
    exists timer. repeat (split; [assumption |]).
    split; [| split].
    + intros frames p Hp. rewrite <- G.
      apply (sample_frames_sends timer stream p frames st');
        [rewrite D; eauto | exact A | exact Ha | now rewrite F].
    + intros base64Data. cbn zeta.
      assert (Et : interval_event timer base64Data (revoke stream st')
                   = stopScreenShare st').
      { destruct (revoke_rest stream st') as (R1 & R2 & R3).
        rewrite interval_event_live by (rewrite R1, D; eauto).
        unfold tick. rewrite R2, A, R3. cbn [negb].
        now apply stopScreenShare_revoke. }
      rewrite Et.
      destruct (stopScreenShare_timer st' timer C) as (T1 & T2).
      split; [reflexivity |].
      split; [now rewrite stopScreenShare_outbox |].
      split; [exact T1 |].
      intros d. unfold interval_event. now rewrite T1.
    + rewrite (Hended st' stream _ E eq_refl eq_refl).
      now apply stopScreenShare_revoke.
  - intros timer base64Data st. split.
    + apply interval_event_live.
    + intros E. unfold interval_event. now rewrite E.
  - intros base64Data st Hs.
    assert (E : tick base64Data st = stopScreenShare st).
    { unfold tick. destruct Hs as [-> | (stream & -> & ->)]; reflexivity. }
    split; [exact E |]. rewrite E. apply stopScreenShare_outbox.
  - intros base64Data st timer Ht. unfold interval_event.
    now rewrite (proj1 (stopScreenShare_timer st timer Ht)).
  - intros base64Data st stream p Hs Ha Hp.
    pose proof (tick_sends base64Data st stream p Hs Ha Hp) as E.
    split; [exact E |]. now rewrite E.
  - reflexivity.
  - intros st stream s Hs Ha Ho.
    pose proof (Hended st stream s Hs Ha Ho) as E.
    split; [exact E |]. intros Hr. rewrite E. now apply stopScreenShare_revoke.
  - intros st context2d H. cbn zeta.
    destruct (resume_without_context st context2d H) as (A & B & C & D & E & _ & _).
    set (st' := startScreenShare_resume (Ok tt) context2d st) in *.
    set (stream := fresh (world st)) in *.
    assert (Et : track_ended_event stream st' = revoke stream st').
    { unfold track_ended_event. now rewrite E. }
    split; [exact A |]. split; [exact B |].
    split; [unfold stream_active; now rewrite E |].
    split; [exact C |]. split; [exact D |]. split; [exact E |].
    rewrite Et. split; [reflexivity |].
    split; [now rewrite revoke_flag |].
    now rewrite (proj1 (proj2 (revoke_rest stream st'))).
Qed.

Lemma screen_share_sampling_witness :
  let st := sharing_session in
  let revoked := revoke 6 st in
  (canvasRef first_session = true /\ is_Some (videoRef first_session)
   /\ sessionPromiseRef first_session = Some 3%nat)
  /\ (screenIntervalRef st = Some 8%positive
      /\ timers (world st) !! 8%positive = Some 1000)
  /\ outbox (world (sample_frames 8 [[47; 57]; [47; 52]] st))
     = [(3%nat, jpeg_frame [47; 52]); (3%nat, jpeg_frame [47; 57])]
  /\ stream_active 6 (world revoked) = false
  /\ interval_event 8 [47; 57] revoked = stopScreenShare st
  /\ outbox (world (interval_event 8 [47; 57] revoked)) = []
  /\ interval_event 8 [47; 57] (interval_event 8 [47; 57] revoked)
     = interval_event 8 [47; 57] revoked
  /\ track_ended_event 6 st = stopScreenShare st
  /\ (let st0 := startScreenShare_resume (Ok tt) false first_session in
      timers (world st0) = timers (world first_session)
      /\ isScreenSharing (track_ended_event 6 st0) = true).
Proof.
  intros st revoked. subst revoked st. unfold sharing_session.
  destruct screen_share_sampling as (Hstart & _ & _ & _ & _ & _ & _ & Hno).
  assert (P : canvasRef first_session = true /\ is_Some (videoRef first_session))
    by (split; [vm_compute; reflexivity | vm_compute; eauto]).
  assert (S3 : sessionPromiseRef first_session = Some 3%nat)
    by (vm_compute; reflexivity).
  assert (F : fresh (world first_session) = 6%nat) by (vm_compute; reflexivity).
  assert (T : screenIntervalRef (startScreenShare_resume (Ok tt) true first_session)
              = Some 8%positive) by (vm_compute; reflexivity).
  assert (R2 : stream_active 6
                 (world (revoke 6 (startScreenShare_resume (Ok tt) true
                                     first_session))) = false)
    by (vm_compute; reflexivity).
  pose proof (Hstart first_session (proj1 P) (proj2 P)) as H.
  cbv zeta in H. rewrite F in H.
  destruct H as (timer & _ & _ & _ & Ht & Hp & _ & Hrun & Hrev & Hend).
  rewrite T in Ht. injection Ht as <-.
  destruct (Hrev [47; 57]) as (E1 & E2 & _ & E4).
  split; [split; [exact (proj1 P) | split; [exact (proj2 P) | exact S3]] |].
  split; [split; [exact T | exact Hp] |].
  split; [rewrite (Hrun [[47; 57]; [47; 52]] 3%nat S3); vm_compute; reflexivity |].
  split; [exact R2 |].
  split; [exact E1 |].
  split; [rewrite E2; vm_compute; reflexivity |].
  split; [exact (E4 [47; 57]) |].
  split; [exact Hend |].
  pose proof (Hno first_session false (or_intror (or_intror eq_refl))) as N.
  cbv zeta in N. rewrite F in N.
  destruct N as (_ & _ & _ & _ & N1 & _ & _ & N2 & _).
  split; [exact N1 | exact N2].
Defined.

(** * Further properties *)

(** ** The transport encoding *)

Section Transport.

Lemma groups_length_exact bs :
  length (b64_groups bs) = (4 * ((length bs + 2) / 3))%nat.
Proof.
  induction bs as [| a | a b | a b c l IH] using triples_ind;
    [reflexivity .. |].
  change (length (b64_groups (a :: b :: c :: l)))
    with (4 + length (b64_groups l))%nat.
  rewrite IH. cbn [length].
  replace (S (S (S (length l))) + 2)%nat with (1 * 3 + (length l + 2))%nat by lia.
  rewrite Nat.div_add_l by lia. lia.
Qed.

Lemma drop_last_pad_keeps c l :
  In c l -> c <> pad_char -> In c (drop_last_pad l).
Proof.
  intros Hin Hc. unfold drop_last_pad.
  destruct l as [| x l]; [exact Hin |].
  destruct (exists_last (l := x :: l) ltac:(discriminate)) as (l' & y & E).
  rewrite E in *. rewrite last_last, removelast_last.
  destruct (Z.eqb_spec y pad_char) as [-> | _]; [| exact Hin].
  apply in_app_or in Hin. destruct Hin as [H | [H | []]]; [exact H | congruence].
Qed.

Lemma strip_padding_keeps c l :
  In c l -> c <> pad_char -> In c (strip_padding l).
Proof.
  intros Hin Hc. unfold strip_padding.
  destruct (Z.of_nat (length l) mod 4 =? 0); [| exact Hin].
  apply drop_last_pad_keeps; [| exact Hc].
  apply drop_last_pad_keeps; assumption.
Qed.

Lemma filter_twice {A} (f : A -> bool) (s : list A) :
  List.filter f (List.filter f s) = List.filter f s.
Proof.
  induction s as [| c s IH]; [reflexivity |]. cbn [List.filter].
  destruct (f c) eqn:E; cbn [List.filter]; [rewrite E; now rewrite IH | exact IH].
Qed.

Lemma atob_filter s :
  atob (List.filter (fun c => negb (is_ascii_whitespace c)) s) = atob s.
Proof. unfold atob. now rewrite filter_twice. Qed.

End Transport.

(** X1: the base64 text of [n] bytes has 4 * ceil(n / 3) characters, each
    from the alphabet or the padding character. *)
Theorem encode_shape (b : list Z) :
  forallb is_byte b = true ->
  exists e,
    encode b = Ok e
    /\ length e = (4 * ((length b + 2) / 3))%nat
    /\ Forall (fun c => in_alphabet c = true \/ c = pad_char) e.
Proof.
  intros H. apply bytes_forallb in H. exists (b64_groups b).
  split; [now apply encode_ok |].
  split; [apply groups_length_exact | now apply groups_chars].
Qed.

Lemma encode_shape_witness :
  forallb is_byte [77; 97; 110; 33] = true
  /\ exists e,
       encode [77; 97; 110; 33] = Ok e
       /\ length e = (4 * ((length [77; 97; 110; 33] + 2) / 3))%nat
       /\ Forall (fun c => in_alphabet c = true \/ c = pad_char) e.
Proof.
  split; [reflexivity |]. apply (encode_shape [77; 97; 110; 33]). reflexivity.
Defined.

(** X2: [encode] is injective on byte arrays. *)
Theorem encode_injective (b1 b2 : list Z) :
  forallb is_byte b1 = true ->
  forallb is_byte b2 = true ->
  encode b1 = encode b2 ->
  b1 = b2.
Proof.
  intros H1 H2 E. apply bytes_forallb in H1, H2.
  rewrite !encode_ok in E by assumption. injection E as E.
  pose proof (decode_groups b1 H1) as D1. rewrite E, decode_groups in D1 by assumption.
  now injection D1.
Qed.

Lemma encode_injective_witness :
  forallb is_byte [1; 2] = true
  /\ forallb is_byte ([1] ++ [2]) = true
  /\ encode [1; 2] = encode ([1] ++ [2])
  /\ [1; 2] = [1] ++ [2].
Proof.
  split; [reflexivity |]. split; [reflexivity |]. split; [reflexivity |].
  apply (encode_injective [1; 2] ([1] ++ [2])); reflexivity.
Defined.

(** X3: [decode] raises on any string that holds a character which is not of
    the alphabet, not the padding character and not ASCII whitespace. *)
Theorem decode_rejects_foreign (s : list Z) (c : Z) :
  In c s ->
  in_alphabet c = false ->
  c <> pad_char ->
  is_ascii_whitespace c = false ->
  decode s = Throw InvalidCharacterError.
Proof.
  intros Hin Ha Hp Hw. unfold decode, atob.
  set (data := strip_padding _).
  assert (Hd : In c data).
  { apply strip_padding_keeps; [| exact Hp].
    apply filter_In. split; [exact Hin | now rewrite Hw]. }
  destruct (Z.of_nat (length data) mod 4 =? 1); [reflexivity |].
  replace (forallb in_alphabet data) with false; [reflexivity |].
  symmetry. apply not_true_is_false. intros F.
  rewrite forallb_forall in F. specialize (F c Hd). congruence.
Qed.

Lemma decode_rejects_foreign_witness :
  In 45 [84; 87; 45; 70]
  /\ in_alphabet 45 = false /\ 45 <> pad_char /\ is_ascii_whitespace 45 = false
  /\ decode [84; 87; 45; 70] = Throw InvalidCharacterError.
Proof.
  assert (I : In 45 [84; 87; 45; 70]) by (cbn; tauto).
  assert (P : 45 <> pad_char) by discriminate.
  split; [exact I |]. split; [reflexivity |]. split; [exact P |].
  split; [reflexivity |].
  exact (decode_rejects_foreign [84; 87; 45; 70] 45 I eq_refl P eq_refl).
Defined.

(** X4: ASCII whitespace anywhere in the text does not change what [decode]
    returns. *)
Theorem decode_skips_whitespace (s1 ws s2 : list Z) :
  forallb is_ascii_whitespace ws = true ->
  decode (s1 ++ ws ++ s2) = decode (s1 ++ s2).
Proof.
  intros Hws. unfold decode.
  rewrite <- (atob_filter (s1 ++ ws ++ s2)), <- (atob_filter (s1 ++ s2)).
  rewrite !List.filter_app.
  replace (List.filter (fun c => negb (is_ascii_whitespace c)) ws) with (@nil Z);
    [reflexivity |].
  symmetry. induction ws as [| c ws IH]; [reflexivity |].
  cbn [forallb] in Hws. apply andb_prop in Hws. destruct Hws as [Hc Hws].
  cbn [List.filter]. rewrite Hc. cbn [negb]. now apply IH.
Qed.

Lemma decode_skips_whitespace_witness :
  forallb is_ascii_whitespace [13; 10] = true
  /\ decode ([84; 87] ++ [13; 10] ++ [70; 117]) = decode ([84; 87] ++ [70; 117])
  /\ decode ([84; 87] ++ [70; 117]) = Ok [77; 97; 110].
Proof.
  split; [reflexivity |].
  split; [apply (decode_skips_whitespace [84; 87] [13; 10] [70; 117]) |];
    reflexivity.
Defined.

(** ** The sample conversion *)

Section Samples.

Lemma Qtrunc_scaled (n : Z) :
  Qtrunc (inject_Z n / 32768 * 32768) = n.
Proof.
  unfold Qtrunc, Qdiv, Qinv, Qmult, inject_Z. cbn [Qnum Qden].
  change (Z.pos (1 * 32768 * 1)) with 32768.
  rewrite Z.mul_1_r. now rewrite Z.quot_mul by discriminate.
Qed.

Lemma ToInt16_requantized s :
  ToInt16 (num_mul (requantized s) 32768) = ToInt16 (num_mul s 32768).
Proof.
  unfold requantized. cbn [num_mul ToInt16]. rewrite Qtrunc_scaled.
  apply wrap_int16_id, ToInt16_range.
Qed.

Lemma requantized_twice s : requantized (requantized s) = requantized s.
Proof.
  unfold requantized at 1. rewrite ToInt16_requantized. reflexivity.
Qed.

Lemma Qtrunc_sign q :
  ((0 <= q)%Q -> 0 <= Qtrunc q) /\ ((q <= 0)%Q -> Qtrunc q <= 0).
Proof.
  destruct q as [n d]. unfold Qtrunc, Qle. cbn.
  pose proof (Pos2Z.is_pos d) as Hd.
  split; intros Hq; Z.to_euclidean_division_equations; nia.
Qed.

Lemma Qtrunc_grid (k : Z) : Qtrunc ((k # 32768) * 32768) = k.
Proof.
  unfold Qtrunc, Qmult. cbn [Qnum Qden].
  change (Z.pos (32768 * 1)) with 32768.
  now rewrite Z.quot_mul by discriminate.
Qed.

End Samples.

(** X5: [createBlob] returns for every block, whatever its samples (NaN,
    the infinities and out-of-range values included); the payload of [n]
    samples has 4 * ceil(2n / 3) characters and decodes to the 2n bytes of
    the 16-bit samples. *)
Theorem createBlob_total (data : list num) :
  exists blob bytes,
    createBlob data = Ok blob
    /\ blob_mimeType blob = audio_pcm_rate_16000
    /\ length (blob_data blob) = (4 * ((2 * length data + 2) / 3))%nat
    /\ decode (blob_data blob) = Ok bytes
    /\ length bytes = (2 * length data)%nat
    /\ Int16Array_of_buffer bytes
       = Ok (map (fun s => ToInt16 (num_mul s 32768)) data).
Proof.
  eexists. eexists. split; [apply createBlob_ok |]. cbn [blob_mimeType blob_data].
  split; [reflexivity |].
  split; [now rewrite groups_length_exact, Uint8Array_length, length_map |].
  split; [apply decode_groups, Uint8Array_bytes |].
  split; [now rewrite Uint8Array_length, length_map |].
  apply Int16Array_of_Uint8Array, Forall_forall. intros n Hn.
  apply list_elem_of_fmap in Hn. destruct Hn as (s & -> & _).
  apply ToInt16_range.
Qed.

Lemma createBlob_total_witness :
  exists blob bytes,
    createBlob [PInf; NInf; NaN; Fin (3 # 2)] = Ok blob
    /\ decode (blob_data blob) = Ok bytes
    /\ Int16Array_of_buffer bytes = Ok [0; 0; 0; -16384].
Proof.
  destruct (createBlob_total [PInf; NInf; NaN; Fin (3 # 2)])
    as (blob & bytes & E & _ & _ & D & _ & I).
  exists blob, bytes. split; [exact E |]. split; [exact D |]. exact I.
Defined.

(** X6: the conversion truncates toward zero: a sample in [-1, 1) comes back
    with the same sign and no larger in magnitude. *)
Theorem requantized_toward_zero (s : Q) :
  (-1 <= s)%Q -> (s < 1)%Q ->
  exists t,
    requantized (Fin s) = Fin t
    /\ (0 <= s -> 0 <= t /\ t <= s)%Q
    /\ (s <= 0 -> s <= t /\ t <= 0)%Q.
Proof.
  intros Hlo Hhi. unfold requantized. cbn [num_mul ToInt16].
  eexists. split; [reflexivity |].
  destruct (Qtrunc_spec (s * 32768)) as [Hpos Hneg].
  assert (Hid : wrap_int16 (Qtrunc (s * 32768)) = Qtrunc (s * 32768)).
  { apply wrap_int16_id. unfold int16.
    assert (R : (-32768 <= inject_Z (Qtrunc (s * 32768))
                 /\ inject_Z (Qtrunc (s * 32768)) < 32768)%Q).
    { destruct (Qlt_le_dec (s * 32768) 0) as [Hs | Hs].
      - destruct Hneg as [A B]; [lra |]. split; lra.
      - destruct Hpos as [A B]; [lra |]. split; lra. }
    destruct R as [C D]. split.
    - apply Z.ge_le, Z.le_ge. rewrite Zle_Qle. exact C.
    - rewrite Zlt_Qlt. exact D. }
  rewrite Hid. unfold Qdiv. change (/ 32768)%Q with (1 # 32768)%Q.
  destruct (Qtrunc_sign (s * 32768)) as [Sp Sn].
  rewrite (Zle_Qle 0) in Sp. rewrite (Zle_Qle _ 0) in Sn.
  change (inject_Z 0) with 0%Q in Sp, Sn.
  generalize dependent (inject_Z (Qtrunc (s * 32768))). intros t Hpos Hneg Sp Sn.
  split; intros Hs.
  - destruct Hpos as [A B]; [lra |]. specialize (Sp ltac:(lra)). split; lra.
  - destruct Hneg as [A B]; [lra |]. specialize (Sn ltac:(lra)). split; lra.
Qed.

Lemma requantized_toward_zero_witness :
  (-1 <= -1 # 3)%Q /\ (-1 # 3 < 1)%Q
  /\ exists t,
       requantized (Fin (-1 # 3)) = Fin t
       /\ (0 <= -1 # 3 -> 0 <= t /\ t <= -1 # 3)%Q
       /\ (-1 # 3 <= 0 -> -1 # 3 <= t /\ t <= 0)%Q.
Proof.
  assert (A : (-1 <= -1 # 3)%Q) by (vm_compute; discriminate).
  assert (B : (-1 # 3 < 1)%Q) by reflexivity.
  split; [exact A |]. split; [exact B |].
  exact (requantized_toward_zero (-1 # 3) A B).
Defined.

(** X7: samples that are whole multiples of 1/32768 in [-1, 1) go through
    the audio path unchanged. *)
Theorem pcm_roundtrip_exact_on_grid (ks : list Z) (ctx : nat) (sampleRate : Q) :
  ks <> [] ->
  Z.of_nat (length ks) < 2147483648 ->
  supported_rate sampleRate = true ->
  Forall int16 ks ->
  pcm_roundtrip (map (fun k => Fin (k # 32768)) ks) ctx sampleRate
  = Ok {| numberOfChannels := 1;
          buffer_length := length ks;
          buffer_sampleRate := sampleRate;
          channels := [map (fun k => Fin (inject_Z k / 32768)) ks] |}
  /\ Forall (fun k => (inject_Z k / 32768 == k # 32768)%Q) ks.
Proof.
  intros Hne Hlen Hrate Hks. split.
  - rewrite pcm_roundtrip_ok; rewrite ?length_map; try assumption.
    + do 3 f_equal. rewrite map_map.
      apply map_ext_in. intros k Hk.
      unfold requantized. cbn [num_mul ToInt16]. rewrite Qtrunc_grid.
      rewrite wrap_int16_id; [reflexivity |].
      rewrite Forall_forall in Hks. apply Hks, list_elem_of_In, Hk.
    + destruct ks; [congruence | discriminate].
  - apply Forall_forall. intros k _.
    unfold Qdiv, Qinv, Qmult, inject_Z, Qeq. cbn. lia.
Qed.

Lemma pcm_roundtrip_exact_on_grid_witness :
  [-32768; 0; 1; 32767] <> []
  /\ Forall int16 [-32768; 0; 1; 32767]
  /\ pcm_roundtrip (map (fun k => Fin (k # 32768)) [-32768; 0; 1; 32767]) 1 24000
     = Ok {| numberOfChannels := 1;
             buffer_length := 4;
             buffer_sampleRate := 24000;
             channels :=
               [map (fun k => Fin (inject_Z k / 32768)) [-32768; 0; 1; 32767]] |}.
Proof.
  assert (N : [-32768; 0; 1; 32767] <> []) by discriminate.
  assert (F : Forall int16 [-32768; 0; 1; 32767])
    by (repeat (apply Forall_cons; split; [unfold int16; lia |]); constructor).
  split; [exact N |]. split; [exact F |].
  exact (proj1 (pcm_roundtrip_exact_on_grid [-32768; 0; 1; 32767] 1%nat 24000%Q
                  N eq_refl eq_refl F)).
Defined.

(** X8: a second pass through the audio path changes nothing: what comes out
    of one pass comes out of the next one as it went in. *)
Theorem pcm_roundtrip_idempotent (x y : list num) (ctx : nat) (sampleRate : Q)
    (buf : AudioBuffer) :
  Z.of_nat (length x) < 2147483648 ->
  pcm_roundtrip x ctx sampleRate = Ok buf ->
  channels buf = [y] ->
  pcm_roundtrip y ctx sampleRate = Ok buf.
Proof.
  intros Hlen Hx Hy.
  assert (Hne : x <> []).
  { intros ->. vm_compute in Hx. discriminate Hx. }
  assert (Hrate : supported_rate sampleRate = true).
  { destruct (supported_rate sampleRate) eqn:E; [reflexivity | exfalso].
    unfold pcm_roundtrip in Hx. rewrite createBlob_ok in Hx. cbn [bind blob_data] in Hx.
    rewrite decode_groups in Hx by apply Uint8Array_bytes. cbn [bind] in Hx.
    unfold decodeAudioData in Hx.
    destruct (Int16Array_of_buffer _) as [d |]; [| discriminate Hx].
    cbn [bind] in Hx. unfold createBuffer in Hx. rewrite E in Hx.
    cbn [negb] in Hx.
    repeat match type of Hx with
           | context [ if ?b then _ else _ ] => destruct b; cbn [bind] in Hx
           end; discriminate Hx. }
  rewrite pcm_roundtrip_ok in Hx by assumption. injection Hx as <-.
  cbn [channels] in Hy. injection Hy as <-.
  rewrite pcm_roundtrip_ok; rewrite ?length_map; try assumption.
  - do 3 f_equal. rewrite map_map. apply map_ext. intros s.
    apply requantized_twice.
  - destruct x; [congruence | discriminate].
Qed.

Lemma pcm_roundtrip_idempotent_witness :
  let x := [Fin (1 # 3); NaN; Fin (5 # 2)] in
  let y := map requantized x in
  let buf := {| numberOfChannels := 1; buffer_length := 3;
                buffer_sampleRate := 24000; channels := [y] |} in
  pcm_roundtrip x 1 24000 = Ok buf /\ pcm_roundtrip y 1 24000 = Ok buf.
Proof.
  intros x y buf.
  assert (H : pcm_roundtrip x 1 24000 = Ok buf) by (vm_compute; reflexivity).
  split; [exact H |].
  exact (pcm_roundtrip_idempotent x y 1%nat 24000%Q buf eq_refl H eq_refl).
Defined.

(** ** Decoded payloads *)

Section Payloads.

(** What a successful [decodeAudioData] says about its arguments and its
    buffer. *)
Lemma decodeAudioData_ok_inv data ctx sampleRate numChannels buf :
  decodeAudioData data ctx sampleRate numChannels = Ok buf ->
  Z.of_nat (length data) mod 2 = 0
  /\ numberOfChannels buf = numChannels
  /\ buffer_sampleRate buf = sampleRate
  /\ supported_rate sampleRate = true
  /\ (1 <= buffer_length buf)%nat
  /\ buffer_length buf
     = Z.to_nat (Qtrunc (inject_Z (Z.of_nat (length data / 2))
                         / inject_Z (Z.of_nat numChannels)) mod 4294967296).
Proof.
  unfold decodeAudioData, Int16Array_of_buffer. intros H.
  destruct (Z.eqb_spec (Z.of_nat (length data) mod 2) 0) as [Heven | _];
    [| discriminate H].
  cbn [bind] in H. rewrite int16_pairs_length in H. unfold createBuffer in H.
  destruct ((numChannels =? 0)%nat || (32 <? numChannels)%nat);
    [discriminate H |].
  match type of H with
  | context [ (?len =? 0)%nat ] =>
      set (frames := len) in *; destruct (Nat.eqb_spec frames 0) as [| Hlen]
  end; [discriminate H |].
  destruct (supported_rate sampleRate); [| discriminate H].
  cbn [negb bind numberOfChannels buffer_length buffer_sampleRate channels] in H.
  injection H as <-.
  cbn [numberOfChannels buffer_length buffer_sampleRate].
  repeat split; try reflexivity; try assumption. lia.
Qed.

Lemma duration_positive buf :
  (1 <= buffer_length buf)%nat ->
  supported_rate (buffer_sampleRate buf) = true ->
  (0 < duration buf)%Q.
Proof.
  intros Hlen Hrate. unfold duration.
  unfold supported_rate in Hrate. apply andb_prop in Hrate.
  destruct Hrate as [Hlo _]. apply Qle_bool_imp_le in Hlo.
  apply Qlt_shift_div_l; [lra |]. rewrite Qmult_0_l.
  change 0%Q with (inject_Z 0). rewrite <- Zlt_Qlt. lia.
Qed.

Lemma decode_payload_inv cb p buf :
  decode_payload cb p = Ok buf ->
  exists data,
    decode p = Ok data
    /\ decodeAudioData data (cb_outputCtx cb) 24000 1 = Ok buf.
Proof.
  unfold decode_payload. destruct (decode p) as [data | e]; [| discriminate].
  cbn [bind]. eauto.
Qed.

Lemma decode_payload_duration cb p buf :
  decode_payload cb p = Ok buf -> (0 < duration buf)%Q.
Proof.
  intros H. destruct (decode_payload_inv _ _ _ H) as (data & _ & Hd).
  destruct (decodeAudioData_ok_inv _ _ _ _ _ Hd) as (_ & _ & Hr & Hs & Hl & _).
  apply duration_positive; [exact Hl | now rewrite Hr].
Qed.

End Payloads.

(** X9: a payload that decodes gives a mono buffer at 24 kHz with at least
    one frame and a positive duration; under 4 GiB it has one frame per two
    bytes and lasts (number of bytes) / 48000 seconds. *)
Theorem payload_duration (cb : Callbacks) (p : list Z) (buf : AudioBuffer) :
  decode_payload cb p = Ok buf ->
  exists data,
    decode p = Ok data
    /\ Z.of_nat (length data) mod 2 = 0
    /\ numberOfChannels buf = 1%nat
    /\ buffer_sampleRate buf = 24000%Q
    /\ (1 <= buffer_length buf)%nat
    /\ (0 < duration buf)%Q
    /\ (Z.of_nat (length data) < 4294967296 ->
        buffer_length buf = (length data / 2)%nat
        /\ (duration buf == inject_Z (Z.of_nat (length data)) / 48000)%Q).
Proof.
  intros H. destruct (decode_payload_inv _ _ _ H) as (data & Hdec & Hd).
  destruct (decodeAudioData_ok_inv _ _ _ _ _ Hd) as (He & Hnc & Hr & Hs & Hl & Hlen).
  exists data. repeat (split; [assumption |]).
  split; [now apply (decode_payload_duration cb p) |].
  intros Hsmall.
  assert (Hhalf : (length data / 2 <= length data)%nat)
    by (apply Nat.Div0.div_le_upper_bound; lia).
  rewrite frameCount_trunc, Nat.div_1_r in Hlen by lia.
  rewrite Z.mod_small, Nat2Z.id in Hlen by lia.
  split; [exact Hlen |].
  unfold duration. rewrite Hlen, Hr.
  assert (E : Z.of_nat (length data) = 2 * Z.of_nat (length data / 2)).
  { rewrite Nat2Z.inj_div. change (Z.of_nat 2) with 2.
    Z.div_mod_to_equations. lia. }
  rewrite E. generalize (Z.of_nat (length data / 2)). intros m.
  unfold Qdiv, Qinv, Qmult, inject_Z, Qeq. cbn. lia.
Qed.

Lemma payload_duration_witness :
  decode_payload first_callbacks (payload (silence 3 0)) = Ok (decoded (silence 3 0))
  /\ exists data,
       decode (payload (silence 3 0)) = Ok data
       /\ (Z.of_nat (length data) < 4294967296 ->
           buffer_length (decoded (silence 3 0)) = (length data / 2)%nat
           /\ (duration (decoded (silence 3 0))
               == inject_Z (Z.of_nat (length data)) / 48000)%Q).
Proof.
  assert (H : decode_payload first_callbacks (payload (silence 3 0))
              = Ok (decoded (silence 3 0))) by (vm_compute; reflexivity).
  split; [exact H |].
  destruct (payload_duration first_callbacks _ _ H)
    as (data & D & _ & _ & _ & _ & _ & L).
  exists data. split; [exact D | exact L].
Defined.

(** ** More on the message handler *)

Section Handler.

Lemma start_times_no_overlap timing :
  forall next k t d s s',
    timing !! k = Some (t, d) ->
    start_times next timing !! k = Some s ->
    start_times next timing !! S k = Some s' ->
    (s + d <= s')%Q.
Proof.
  induction timing as [| [t0 d0] timing IH]; intros next k t d s s' Hk Hs Hs'.
  - discriminate Hk.
  - cbn [start_times] in Hs, Hs'. cbv zeta in Hs, Hs'. destruct k as [| k].
    + cbn in Hk, Hs. injection Hk as -> ->. injection Hs as <-.
      rewrite lookup_cons in Hs'.
      destruct timing as [| [t1 d1] timing]; [discriminate Hs' |].
      cbn in Hs'. injection Hs' as <-. apply Q.le_max_l.
    + rewrite lookup_cons in Hk. rewrite lookup_cons in Hs.
      rewrite lookup_cons in Hs'. exact (IH _ k t d s s' Hk Hs Hs').
Qed.

Lemma start_times_not_before timing :
  forall next k t d s,
    timing !! k = Some (t, d) ->
    start_times next timing !! k = Some s ->
    (t <= s)%Q.
Proof.
  induction timing as [| [t0 d0] timing IH]; intros next k t d s Hk Hs.
  - discriminate Hk.
  - cbn [start_times] in Hs. cbv zeta in Hs. destruct k as [| k].
    + cbn in Hk, Hs. injection Hk as -> ->. injection Hs as <-. apply Q.le_max_r.
    + rewrite lookup_cons in Hk. rewrite lookup_cons in Hs.
      exact (IH _ k t d s Hk Hs).
Qed.

End Handler.

(** X10: the handler rejects exactly when the message carries a non-empty
    payload that fails to decode, with the exception of the decoding; a
    message with no payload, or an empty one, and no interruption leaves the
    state as it is. *)
Theorem onmessage_outcome (cb : Callbacks) (message : LiveServerMessage)
    (currentTime : Q) (st : State) :
  (forall e,
      snd (onmessage cb message currentTime st) = Throw e
      <-> exists p, inlineData_data message = Some p /\ p <> []
                    /\ decode_payload cb p = Throw e)
  /\ ((inlineData_data message = None \/ inlineData_data message = Some []) ->
      interrupted message = false ->
      onmessage cb message currentTime st = (st, Ok tt)).
Proof.
  split.
  - intros e. unfold onmessage.
    destruct (inlineData_data message) as [[| c p] |].
    + split.
      * destruct (interrupted message); discriminate.
      * intros (p & E & Hp & _). injection E as <-. congruence.
    + destruct (decode_payload cb (c :: p)) as [b | e'] eqn:D.
      * split.
        -- destruct (interrupted message); discriminate.
        -- intros (q & E & _ & Hq). injection E as <-. congruence.
      * cbn [snd]. split.
        -- intros E. injection E as ->. exists (c :: p). repeat split; congruence.
        -- intros (q & E & _ & Hq). injection E as <-. congruence.
    + split.
      * destruct (interrupted message); discriminate.
      * intros (p & E & _). discriminate E.
  - intros [Hm | Hm] Hi; unfold onmessage; now rewrite Hm, Hi.
Qed.

Lemma onmessage_outcome_witness :
  (snd (onmessage first_callbacks (audio_message [32; 32]) 0 first_session)
   = Throw NotSupportedError
   <-> exists p, inlineData_data (audio_message [32; 32]) = Some p /\ p <> []
                 /\ decode_payload first_callbacks p = Throw NotSupportedError)
  /\ decode_payload first_callbacks [32; 32] = Throw NotSupportedError
  /\ onmessage first_callbacks (audio_message []) 0 first_session
     = (first_session, Ok tt).
Proof.
  destruct (onmessage_outcome first_callbacks (audio_message [32; 32]) 0%Q
              first_session) as [A _].
  destruct (onmessage_outcome first_callbacks (audio_message []) 0%Q
              first_session) as [_ B].
  split; [exact (A NotSupportedError) |]. split; [reflexivity |].
  exact (B (or_intror eq_refl) eq_refl).
Defined.

(** X11: without an interruption the playback clock never moves back,
    whatever the message and whether or not its payload decodes; so it does
    not over any sequence of messages free of interruptions. *)
Theorem clock_never_moves_back (cb : Callbacks) :
  (forall message currentTime st,
      interrupted message = false ->
      (nextStartTimeRef st
       <= nextStartTimeRef (fst (onmessage cb message currentTime st)))%Q)
  /\ (forall ms st,
        Forall (fun m => interrupted (fst m) = false) ms ->
        (nextStartTimeRef st <= nextStartTimeRef (run_messages cb ms st))%Q).
Proof.
  assert (Step : forall message currentTime st,
             interrupted message = false ->
             (nextStartTimeRef st
              <= nextStartTimeRef (fst (onmessage cb message currentTime st)))%Q).
  { intros message currentTime st Hi. unfold onmessage. rewrite Hi.
    destruct (inlineData_data message) as [[| c p] |]; cbn [fst];
      try apply Qle_refl.
    destruct (decode_payload cb (c :: p)) as [b | e] eqn:D; cbn [fst].
    - rewrite play_clock. cbn [nextStartTimeRef set_nextStartTimeRef].
      pose proof (decode_payload_duration _ _ _ D).
      pose proof (Q.le_max_l (nextStartTimeRef st) currentTime). lra.
    - cbn [nextStartTimeRef set_nextStartTimeRef]. apply Q.le_max_l. }
  split; [exact Step |].
  induction ms as [| [m t] ms IH]; intros st Hms.
  - apply Qle_refl.
  - cbn [run_messages]. apply Forall_cons in Hms. destruct Hms as [Hm Hms].
    eapply Qle_trans; [apply (Step m t st Hm) | apply IH, Hms].
Qed.

Lemma clock_never_moves_back_witness :
  interrupted (audio_message (payload (silence 2 0))) = false
  /\ (nextStartTimeRef first_session
      <= nextStartTimeRef
           (fst (onmessage first_callbacks (audio_message (payload (silence 2 0)))
                   (1 # 2) first_session)))%Q.
Proof.
  split; [reflexivity |].
  exact (proj1 (clock_never_moves_back first_callbacks)
           (audio_message (payload (silence 2 0))) (1 # 2)%Q first_session eq_refl).
Defined.

(** X12: sources never overlap and never start in the past: over any
    sequence of audio messages, each source starts at or after the clock
    reading of its arrival, and the next one starts at or after its end. *)
Theorem sources_never_overlap (cb : Callbacks) (frames : list Frame) (st : State) :
  Forall (decodable cb) frames ->
  let st' := run_messages cb (map frame_message frames) st in
  forall k f,
    frames !! k = Some f ->
    exists s,
      nodes (world st') !! (fresh (world st) + k)%nat
      = Some (AudioBufferSourceNode (decoded f) (Some s) false)
      /\ (arrival f <= s)%Q
      /\ forall g,
           frames !! S k = Some g ->
           exists s',
             nodes (world st') !! (fresh (world st) + S k)%nat
             = Some (AudioBufferSourceNode (decoded g) (Some s') false)
             /\ (s + duration (decoded f) <= s')%Q.
Proof.
  intros Hdec st' k f Hk.
  destruct (enqueue_sequence cb frames Hdec st) as (_ & Hnew & _).
  destruct (Hnew k f Hk) as (s & Hs & Hn).
  assert (Ht : map frame_timing frames !! k = Some (arrival f, duration (decoded f)))
    by (rewrite list_lookup_fmap, Hk; reflexivity).
  exists s. split; [exact Hn |].
  split; [exact (start_times_not_before _ _ _ _ _ _ Ht Hs) |].
  intros g Hg. destruct (Hnew (S k) g Hg) as (s' & Hs' & Hn').
  exists s'. split; [exact Hn' |].
  exact (start_times_no_overlap _ _ _ _ _ _ _ Ht Hs Hs').
Qed.

Lemma sources_never_overlap_witness :
  let frames := [silence 2 5; silence 1 0] in
  let st' := run_messages first_callbacks (map frame_message frames) first_session in
  Forall (decodable first_callbacks) frames
  /\ exists s,
       nodes (world st') !! (fresh (world first_session) + 0)%nat
       = Some (AudioBufferSourceNode (decoded (silence 2 5)) (Some s) false)
       /\ (arrival (silence 2 5) <= s)%Q
       /\ exists s',
            nodes (world st') !! (fresh (world first_session) + 1)%nat
            = Some (AudioBufferSourceNode (decoded (silence 1 0)) (Some s') false)
            /\ (s + duration (decoded (silence 2 5)) <= s')%Q.
Proof.
  intros frames st'.
  assert (D : Forall (decodable first_callbacks) frames).
  { constructor; [apply silence_decodable; lia |].
    constructor; [apply silence_decodable; lia | constructor]. }
  split; [exact D |].
  destruct (sources_never_overlap first_callbacks frames first_session D
              0%nat (silence 2 5) eq_refl) as (s & Hn & Ha & Hnext).
  exists s. split; [exact Hn |]. split; [exact Ha |].
  exact (Hnext (silence 1 0) eq_refl).
Defined.

(** ** More on teardown and screen sharing *)

Ltac open_state st :=
  destruct st as [act sta mut shr vol aref iref sref pref nref ssref vref cref
                  tref pmref ai nxt srcs w].

Ltac open_refs :=
  repeat match goal with
         | o : option _ |- _ => destruct o
         end.

(** Runs the handlers on a state whose fields are known, leaving the maps of
    the world folded. *)
Ltac run_handlers :=
  cbv [stopSession stopScreenShare onerror onclose unmount toggleMute
       startScreenShare startScreenShare_resume tick track_onended
       startSession startSession_resume onopen click_start click_end click_mute
       bring_up source_onended play click_screen
       set_isActive set_status set_isMuted set_isScreenSharing set_volumeLevel
       set_audioContextRef set_inputAudioContextRef set_streamRef
       set_processorRef set_sourceRef set_screenStreamRef set_videoRef
       set_screenIntervalRef set_sessionPromiseRef set_nextStartTimeRef
       set_sourcesRef set_world
       isActive status isMuted isScreenSharing volumeLevel audioContextRef
       inputAudioContextRef streamRef processorRef sourceRef screenStreamRef
       videoRef canvasRef screenIntervalRef sessionPromiseRef aiRef
       nextStartTimeRef sourcesRef world
       inputCtx outputCtx render_isMuted
       cb_inputCtx cb_outputCtx cb_stream cb_sessionPromise cb_isMuted
       close_context stop_tracks disconnect clearInterval request_close release
       new_context new_stream new_node setInterval set_onended send stream_active
       frame_period
       set_contexts set_streams set_timers set_nodes set_outbox
       set_close_requests set_fresh
       contexts streams timers nodes outbox close_requests fresh
       negb orb andb fst snd].

Section MoreTeardown.

Lemma stopScreenShare_twice st :
  stopScreenShare (stopScreenShare st) = stopScreenShare st.
Proof. open_state st. open_refs; run_handlers; reflexivity. Qed.

Lemma stopSession_after_stopScreenShare st :
  stopSession (stopScreenShare st) = stopSession st.
Proof. open_state st. open_refs; run_handlers; reflexivity. Qed.

Lemma stopScreenShare_session st :
  let st' := stopScreenShare st in
  status st' = status st /\ isActive st' = isActive st
  /\ isMuted st' = isMuted st
  /\ sessionPromiseRef st' = sessionPromiseRef st
  /\ streamRef st' = streamRef st
  /\ processorRef st' = processorRef st /\ sourceRef st' = sourceRef st
  /\ audioContextRef st' = audioContextRef st
  /\ inputAudioContextRef st' = inputAudioContextRef st
  /\ nextStartTimeRef st' = nextStartTimeRef st
  /\ sourcesRef st' = sourcesRef st
  /\ contexts (world st') = contexts (world st)
  /\ nodes (world st') = nodes (world st)
  /\ outbox (world st') = outbox (world st)
  /\ close_requests (world st') = close_requests (world st).
Proof. open_state st. open_refs; run_handlers; repeat split. Qed.

Lemma stopSession_tick base64Data st :
  tick base64Data (stopSession st) = stopSession st.
Proof. open_state st. open_refs; run_handlers; reflexivity. Qed.

Lemma onerror_is_onclose st : onerror st = onclose st.
Proof. open_state st. open_refs; run_handlers; reflexivity. Qed.

End MoreTeardown.

(** X13: [stopScreenShare] leaves the session alone (its status, handles,
    audio contexts, nodes, playback clock and live set, and what was sent);
    a second call changes nothing; and [stopSession] does the same with or
    without a [stopScreenShare] before it. *)
Theorem stopScreenShare_keeps_session (st : State) :
  (let st' := stopScreenShare st in
   status st' = status st /\ isActive st' = isActive st
   /\ isMuted st' = isMuted st
   /\ sessionPromiseRef st' = sessionPromiseRef st
   /\ streamRef st' = streamRef st
   /\ processorRef st' = processorRef st /\ sourceRef st' = sourceRef st
   /\ audioContextRef st' = audioContextRef st
   /\ inputAudioContextRef st' = inputAudioContextRef st
   /\ nextStartTimeRef st' = nextStartTimeRef st
   /\ sourcesRef st' = sourcesRef st
   /\ contexts (world st') = contexts (world st)
   /\ nodes (world st') = nodes (world st)
   /\ outbox (world st') = outbox (world st)
   /\ close_requests (world st') = close_requests (world st))
  /\ stopScreenShare (stopScreenShare st) = stopScreenShare st
  /\ stopSession (stopScreenShare st) = stopSession st.
Proof.
  split; [apply stopScreenShare_session |].
  split; [apply stopScreenShare_twice | apply stopSession_after_stopScreenShare].
Qed.

(** X14: after [stopSession] no timer event and no audio block of the
    session's processor changes the state or sends anything. *)
Theorem nothing_sent_after_stopSession (st : State) :
  (forall timer base64Data,
      interval_event timer base64Data (stopSession st) = stopSession st)
  /\ (forall processor inputData,
        processorRef st = Some processor ->
        audioprocess_event processor inputData (stopSession st)
        = (stopSession st, Ok tt)).
Proof.
  split.
  - intros timer base64Data. unfold interval_event.
    destruct (timers (world (stopSession st)) !! timer); [| reflexivity].
    apply stopSession_tick.
  - intros processor inputData Hp. unfold audioprocess_event.
    rewrite stopSession_nodes.
    rewrite (release_twice disconnected (processorRef st) (sourceRef st)
               (nodes (world st)) processor ltac:(now intros []) (or_introl Hp)).
    now destruct (nodes (world st) !! processor) as [[s c | c m p | b t f] |].
Qed.

Lemma nothing_sent_after_stopSession_witness :
  processorRef sharing_session = Some 5%nat
  /\ interval_event 8 [47; 57] (stopSession sharing_session)
     = stopSession sharing_session
  /\ audioprocess_event 5 [Fin (1 # 2)] (stopSession sharing_session)
     = (stopSession sharing_session, Ok tt).
Proof.
  assert (P : processorRef sharing_session = Some 5%nat)
    by (vm_compute; reflexivity).
  destruct (nothing_sent_after_stopSession sharing_session) as [A B].
  split; [exact P |]. split; [exact (A 8%positive [47; 57]) |].
  exact (B 5%nat [Fin (1 # 2)] P).
Defined.

(** X15: a transport error ends where a transport close ends: [onerror] and
    [onclose] give the same state, with [status] at [idle], not [error]. *)
Theorem onerror_ends_idle (st : State) :
  onerror st = onclose st /\ status (onerror st) = idle.
Proof.
  split; [apply onerror_is_onclose |].
  rewrite onerror_is_onclose. unfold onclose.
  exact (proj1 (stopSession_refs st)).
Qed.

Section RoundTrips.

Lemma Pos_of_succ_nat_ne (n : nat) : Pos.of_succ_nat n <> Pos.of_succ_nat (S n).
Proof. intros H. apply SuccNat2Pos.inj in H. lia. Qed.

Lemma resume_granted st context2d :
  let st1 := startScreenShare_resume (Ok tt) context2d st in
  screenStreamRef st1 = Some (fresh (world st))
  /\ isScreenSharing st1 = true
  /\ stream_active (fresh (world st)) (world st1) = true.
Proof.
  cbv zeta. open_state st; destruct w as [cs ss ts ns ob cr fr].
  destruct vref, cref, context2d; run_handlers;
    cbn [bool_decide decide_rel is_Some_dec option_eq_None_dec];
    rewrite ?lookup_alter, ?lookup_insert_eq;
    repeat case_decide; repeat split; congruence.
Qed.

Lemma stopScreenShare_refs st :
  let st' := stopScreenShare st in
  screenStreamRef st' = None /\ screenIntervalRef st' = None
  /\ isScreenSharing st' = false
  /\ streams (world st')
     = release stopped_stream (screenStreamRef st) (streams (world st)).
Proof. open_state st. open_refs; run_handlers; repeat split. Qed.

End RoundTrips.

(** X16: when [getDisplayMedia] grants a stream, the stream is held and
    active and the share flag is set; a [stopScreenShare] after that leaves
    no stream or timer in the refs, the granted stream inactive and the timer
    that was set, if any, cleared.  When it is refused only the share flag
    is reset. *)
Theorem screen_share_start_stop (st : State) (context2d : bool) :
  (let st1 := startScreenShare_resume (Ok tt) context2d st in
   let st2 := stopScreenShare st1 in
   let stream := fresh (world st) in
   screenStreamRef st1 = Some stream
   /\ stream_active stream (world st1) = true
   /\ isScreenSharing st1 = true
   /\ screenStreamRef st2 = None /\ screenIntervalRef st2 = None
   /\ isScreenSharing st2 = false
   /\ stream_active stream (world st2) = false
   /\ (forall timer,
         screenIntervalRef st1 = Some timer -> timers (world st2) !! timer = None))
  /\ (forall e,
        startScreenShare_resume (Throw e) context2d st
        = set_isScreenSharing false st).
Proof.
  split; [| reflexivity]. cbv zeta.
  destruct (resume_granted st context2d) as (Hs & Hsh & Ha).
  destruct (stopScreenShare_refs (startScreenShare_resume (Ok tt) context2d st))
    as (Rs & Rt & Rsh & Rstreams).
  repeat (split; [assumption |]).
  split.
  - unfold stream_active in *. rewrite Rstreams, Hs. cbn [release].
    rewrite lookup_alter, decide_True by reflexivity.
    now destruct (streams _ !! fresh (world st)).
  - intros timer Ht. exact (proj1 (stopScreenShare_timer _ _ Ht)).
Qed.

Lemma screen_share_start_stop_witness :
  let st1 := startScreenShare_resume (Ok tt) true first_session in
  screenIntervalRef st1 = Some 8%positive
  /\ timers (world st1) !! 8%positive = Some 1000
  /\ timers (world (stopScreenShare st1)) !! 8%positive = None
  /\ stream_active (fresh (world first_session)) (world (stopScreenShare st1))
     = false.
Proof.
  intros st1.
  assert (R : screenIntervalRef st1 = Some 8%positive) by (vm_compute; reflexivity).
  destruct (screen_share_start_stop first_session true)
    as ((_ & _ & _ & _ & _ & _ & A & T) & _).
  split; [exact R |]. split; [vm_compute; reflexivity |].
  split; [exact (T 8%positive R) | exact A].
Defined.

Section SessionRoundTrip.

(** The state a session is in once it is open, from the state it was
    started in. *)
Lemma bring_up_state st :
  aiRef st = true -> isActive st = false -> status st <> connecting ->
  let fr := fresh (world st) in
  let cb := {| cb_inputCtx := fr; cb_outputCtx := S fr; cb_stream := S (S fr);
               cb_sessionPromise := S (S (S fr)); cb_isMuted := isMuted st |} in
  exists st1,
    bring_up st = Some (st1, cb)
    /\ status st1 = connected /\ isActive st1 = true
    /\ inputAudioContextRef st1 = Some fr
    /\ audioContextRef st1 = Some (S fr)
    /\ streamRef st1 = Some (S (S fr))
    /\ sessionPromiseRef st1 = Some (S (S (S fr)))
    /\ sourceRef st1 = Some (S (S (S (S fr))))
    /\ processorRef st1 = Some (S (S (S (S (S fr)))))
    /\ screenStreamRef st1 = screenStreamRef st
    /\ contexts (world st1)
       = <[ S fr := {| ctx_sampleRate := 24000; ctx_closed := false |} ]>
           (<[ fr := {| ctx_sampleRate := 16000; ctx_closed := false |} ]>
              (contexts (world st)))
    /\ streams (world st1)
       = <[ S (S fr) := {| active := true; onended := false |} ]>
           (streams (world st))
    /\ nodes (world st1)
       = <[ S (S (S (S (S fr)))) :=
              ScriptProcessorNode true (isMuted st) (S (S (S fr))) ]>
           (<[ S (S (S (S fr))) := MediaStreamAudioSourceNode (S (S fr)) true ]>
              (nodes (world st)))
    /\ close_requests (world st1) = close_requests (world st).
Proof.
  intros Hai Hact Hsta.
  open_state st. destruct w as [cs ss ts ns ob cr fr].
  cbn [aiRef isActive status] in Hai, Hact, Hsta. subst ai act.
  destruct sta; try congruence; run_handlers;
    (eexists; split; [reflexivity |]); repeat split.
Qed.

End SessionRoundTrip.

(** X17: a session that is started from a state where the start control
    works, granted the microphone, opened and then stopped leaves nothing of
    its own behind: its two audio contexts are closed, its microphone stream
    is stopped, its two nodes are disconnected and the close of its
    transport has been requested. *)
Theorem session_start_stop (st : State) :
  aiRef st = true -> isActive st = false -> status st <> connecting ->
  exists st1 cb,
    bring_up st = Some (st1, cb)
    /\ status st1 = connected /\ isActive st1 = true
    /\ cb_isMuted cb = isMuted st
    /\ let st2 := stopSession st1 in
       contexts (world st2) !! cb_inputCtx cb
       = Some {| ctx_sampleRate := 16000; ctx_closed := true |}
       /\ contexts (world st2) !! cb_outputCtx cb
          = Some {| ctx_sampleRate := 24000; ctx_closed := true |}
       /\ streams (world st2) !! cb_stream cb
          = Some {| active := false; onended := false |}
       /\ (exists source processor,
             sourceRef st1 = Some source /\ processorRef st1 = Some processor
             /\ nodes (world st2) !! source
                = Some (MediaStreamAudioSourceNode (cb_stream cb) false)
             /\ nodes (world st2) !! processor
                = Some (ScriptProcessorNode false (isMuted st)
                          (cb_sessionPromise cb)))
       /\ close_requests (world st2)
          = cb_sessionPromise cb :: close_requests (world st)
       /\ status st2 = idle /\ isActive st2 = false.
Proof.
  intros Hai Hact Hsta.
  destruct (bring_up_state st Hai Hact Hsta)
    as (st1 & E & Hs & Ha & Hi & Ho & Hm & Hp & Hsrc & Hproc & _ & Hc & Hst & Hn & Hcr).
  eexists. eexists. split; [exact E |].
  split; [exact Hs |]. split; [exact Ha |]. split; [reflexivity |].
  cbv zeta. cbn [cb_inputCtx cb_outputCtx cb_stream cb_sessionPromise].
  set (fr := fresh (world st)) in *.
  split; [| split; [| split; [| split; [| split; [| split]]]]].
  - rewrite stopSession_contexts.
    rewrite (release_twice closed_context _ _ _ fr ltac:(reflexivity) (or_intror Hi)).
    rewrite Hc, lookup_insert_ne, lookup_insert_eq by lia. reflexivity.
  - rewrite stopSession_contexts.
    rewrite (release_twice closed_context _ _ _ (S fr) ltac:(reflexivity)
               (or_introl Ho)).
    rewrite Hc, lookup_insert_eq. reflexivity.
  - rewrite stopSession_streams.
    rewrite (release_twice stopped_stream _ _ _ (S (S fr)) ltac:(reflexivity)
               (or_intror Hm)).
    rewrite Hst, lookup_insert_eq. reflexivity.
  - exists (S (S (S (S fr)))), (S (S (S (S (S fr))))).
    split; [exact Hsrc |]. split; [exact Hproc |].
    rewrite stopSession_nodes. split.
    + rewrite (release_twice disconnected _ _ _ (S (S (S (S fr))))
                 ltac:(now intros []) (or_intror Hsrc)).
      rewrite Hn, lookup_insert_ne, lookup_insert_eq by lia. reflexivity.
    + rewrite (release_twice disconnected _ _ _ (S (S (S (S (S fr)))))
                 ltac:(now intros []) (or_introl Hproc)).
      rewrite Hn, lookup_insert_eq. reflexivity.
  - rewrite stopSession_close_requests, Hp, Hcr. reflexivity.
  - exact (proj1 (stopSession_refs st1)).
  - exact (proj1 (proj2 (stopSession_refs st1))).
Qed.

Lemma session_start_stop_witness :
  aiRef mic_denied = true /\ isActive mic_denied = false
  /\ status mic_denied <> connecting
  /\ exists st1 cb,
       bring_up mic_denied = Some (st1, cb)
       /\ status st1 = connected
       /\ contexts (world (stopSession st1)) !! cb_inputCtx cb
          = Some {| ctx_sampleRate := 16000; ctx_closed := true |}
       /\ close_requests (world (stopSession st1))
          = cb_sessionPromise cb :: close_requests (world mic_denied).
Proof.
  assert (A : aiRef mic_denied = true) by (vm_compute; reflexivity).
  assert (B : isActive mic_denied = false) by (vm_compute; reflexivity).
  assert (C : status mic_denied <> connecting) by (vm_compute; discriminate).
  split; [exact A |]. split; [exact B |]. split; [exact C |].
  destruct (session_start_stop mic_denied A B C)
    as (st1 & cb & E & S & _ & _ & I & _ & _ & _ & R & _).
  exists st1, cb. repeat split; assumption.
Defined.

(** ** The volume meter *)

Section Volume.

Lemma sum_abs_PInf l :
  Forall (fun x => x <> NaN) l -> fold_left add_abs l PInf = PInf.
Proof.
  induction 1 as [| x l Hx _ IH]; [reflexivity |].
  cbn [fold_left]. destruct x as [q | | |]; try congruence; exact IH.
Qed.

Lemma sum_abs_finite l :
  Forall (fun x => x <> NaN) l ->
  forall acc,
    (exists s, fold_left add_abs l (Fin acc) = Fin s /\ (acc <= s)%Q)
    \/ fold_left add_abs l (Fin acc) = PInf.
Proof.
  induction 1 as [| x l Hx Hl IH]; intros acc.
  - left. exists acc. split; [reflexivity | apply Qle_refl].
  - cbn [fold_left].
    destruct x as [q | | |]; [| congruence | right | right];
      try (unfold add_abs at 2; cbn [num_add num_abs]; now apply sum_abs_PInf).
    unfold add_abs at 2. cbn [num_add num_abs].
    destruct (IH (acc + Qabs q)%Q) as [(s & Hs & Hle) | Hs]; [left | now right].
    exists s. split; [exact Hs |].
    pose proof (Qabs_nonneg q). lra.
Qed.

Lemma sum_abs_NaN l : fold_left add_abs l NaN = NaN.
Proof. induction l as [| x l IH]; [reflexivity | exact IH]. Qed.

Lemma sum_abs_with_NaN l :
  In NaN l -> forall acc, fold_left add_abs l acc = NaN.
Proof.
  induction l as [| x l IH]; intros Hin acc; [destruct Hin |].
  cbn [fold_left]. destruct Hin as [-> | Hin].
  - unfold add_abs at 2. cbn [num_abs]. destruct acc; apply sum_abs_NaN.
  - now apply IH.
Qed.

End Volume.

(** X18: on a non-empty block without NaN (finite samples, and infinite ones
    as well) the volume level is a number between 0 and 100; on an empty
    block, or one that holds a NaN, it is NaN. *)
Theorem volume_bounded (inputData : list num) :
  (inputData <> [] -> Forall (fun x => x <> NaN) inputData ->
   exists v, volume inputData = Fin v /\ (0 <= v)%Q /\ (v <= 100)%Q)
  /\ (inputData = [] -> volume inputData = NaN)
  /\ (In NaN inputData -> volume inputData = NaN).
Proof.
  split; [| split].
  - intros Hne Hfin. unfold volume.
    destruct (sum_abs_finite inputData Hfin 0) as [(s & Hs & Hle) | Hs];
      unfold add_abs in Hs; cbv zeta; rewrite Hs.
    + destruct inputData as [| x l]; [congruence |].
      eexists. split; [reflexivity |]. split.
      * apply Q.min_glb; [lra |].
        apply Qmult_le_0_compat; [| lra].
        apply Qle_shift_div_l; [| lra].
        change 0%Q with (inject_Z 0). rewrite <- Zlt_Qlt. cbn [length]. lia.
      * apply Q.le_min_l.
    + exists 100%Q. split; [reflexivity |]. split; lra.
  - intros ->. reflexivity.
  - intros Hin. unfold volume. cbv zeta.
    pose proof (sum_abs_with_NaN inputData Hin (Fin 0)) as E.
    unfold add_abs in E. rewrite E. reflexivity.
Qed.

Lemma volume_bounded_witness :
  [Fin (1 # 2); Fin (-1 # 4)] <> []
  /\ Forall (fun x => x <> NaN) [Fin (1 # 2); Fin (-1 # 4)]
  /\ (exists v, volume [Fin (1 # 2); Fin (-1 # 4)] = Fin v
                /\ (0 <= v)%Q /\ (v <= 100)%Q)
  /\ volume [Fin (1 # 2); NaN] = NaN.
Proof.
  assert (N : [Fin (1 # 2); Fin (-1 # 4)] <> []) by discriminate.
  assert (F : Forall (fun x => x <> NaN) [Fin (1 # 2); Fin (-1 # 4)])
    by (repeat (apply Forall_cons; split; [discriminate |]); constructor).
  destruct (volume_bounded [Fin (1 # 2); Fin (-1 # 4)]) as (A & _ & _).
  destruct (volume_bounded [Fin (1 # 2); NaN]) as (_ & _ & C).
  split; [exact N |]. split; [exact F |]. split; [exact (A N F) |].
  apply C. right. left. reflexivity.
Defined.

(** ** What every handler keeps *)

Section Invariant.

Lemma keys_below_mono {V} (m : gmap nat V) n n' :
  keys_below m n -> (n <= n')%nat -> keys_below m n'.
Proof. intros H Hn k Hk. specialize (H k Hk). lia. Qed.

Lemma keys_below_insert {V} (m : gmap nat V) n k v :
  keys_below m n -> (k < n)%nat -> keys_below (<[ k := v ]> m) n.
Proof.
  intros H Hk j Hj. destruct (decide (k = j)) as [<- | Hne]; [exact Hk |].
  rewrite lookup_insert_ne in Hj by assumption. now apply H.
Qed.

Lemma keys_below_alter {V} (f : V -> V) k (m : gmap nat V) n :
  keys_below m n -> keys_below (alter f k m) n.
Proof.
  intros H j Hj. apply H. rewrite lookup_alter in Hj.
  case_decide; [subst | exact Hj].
  destruct (m !! j); [eauto | now destruct Hj].
Qed.

Lemma keys_below_release {V} (f : V -> V) r (m : gmap nat V) n :
  keys_below m n -> keys_below (release f r m) n.
Proof. destruct r; [apply keys_below_alter | trivial]. Qed.

Lemma timers_below_mono m n n' :
  timers_below m n -> (n <= n')%nat -> timers_below m n'.
Proof. intros H Hn t Ht. specialize (H t Ht). lia. Qed.

Lemma timers_below_insert m n k v :
  timers_below m n -> (S k <= n)%nat ->
  timers_below (<[ Pos.of_succ_nat k := v ]> m) n.
Proof.
  intros H Hk t Ht. destruct (decide (Pos.of_succ_nat k = t)) as [<- | Hne].
  - rewrite SuccNat2Pos.id_succ. exact Hk.
  - rewrite lookup_insert_ne in Ht by assumption. now apply H.
Qed.

Lemma timers_below_delete m n t :
  timers_below m n -> timers_below (delete t m) n.
Proof.
  intros H j Hj. apply H. rewrite lookup_delete in Hj.
  case_decide; [now destruct Hj | exact Hj].
Qed.

Lemma well_formed_frame st st' :
  same_frame st st' -> well_formed st -> well_formed st'.
Proof.
  intros (Ec & Es & En & Et & Ef & El & Eq) (Hc & Hs & Hn & Ht & Hl & Hq).
  unfold well_formed, started. rewrite Ec, Es, En, Et, Ef, El, Eq.
  repeat split; assumption.
Qed.

Lemma started_insert (ns : gmap nat AudioNode) n k x src w w' :
  nodes w = ns -> nodes w' = <[ k := x ]> ns ->
  keys_below ns n -> (n <= k)%nat ->
  started w src -> started w' src.
Proof.
  intros E E' Hb Hk (b & t & f & Hsrc). exists b, t, f.
  rewrite E', lookup_insert_ne; [now rewrite <- E |].
  intros <-. rewrite E in Hsrc.
  assert (k < n)%nat by (apply Hb; eauto). lia.
Qed.

Lemma started_alter_disconnected k w w' src :
  nodes w' = alter disconnected k (nodes w) ->
  started w src -> started w' src.
Proof.
  intros E (b & t & f & Hsrc). exists b, t, f.
  rewrite E, lookup_alter. case_decide; [subst; now rewrite Hsrc | exact Hsrc].
Qed.

Lemma started_release r w w' src :
  nodes w' = release disconnected r (nodes w) ->
  started w src -> started w' src.
Proof.
  destruct r as [k |]; cbn [release]; intros E.
  - now apply started_alter_disconnected with (k := k).
  - intros (b & t & f & Hsrc). exists b, t, f. now rewrite E.
Qed.

Ltac below :=
  repeat first
    [ assumption
    | apply keys_below_insert; [| lia]
    | apply keys_below_alter
    | apply keys_below_release
    | apply timers_below_insert; [| lia]
    | apply timers_below_delete
    | (eapply keys_below_mono; [eassumption | lia])
    | (eapply timers_below_mono; [eassumption | lia]) ].

(** The live sources stay started when nodes are added above the counter. *)
Ltac live_after_insert Hn Hl :=
  let src := fresh "src" in
  let Hsrc := fresh "Hsrc" in
  let b := fresh "b" in
  let t := fresh "t" in
  let f := fresh "f" in
  let E := fresh "E" in
  intros src Hsrc; destruct (Hl src Hsrc) as (b & t & f & E);
  exists b, t, f;
  repeat (rewrite lookup_insert_ne;
          [| let X := fresh in
             intros X; subst;
             match goal with
             | H : nodes _ !! _ = Some _ |- _ => idtac
             | _ => idtac
             end;
             assert (is_Some (Some (AudioBufferSourceNode b (Some t) f)))
               as X by eauto;
             rewrite <- E in X; apply Hn in X; lia ]);
  exact E.

Lemma well_formed_mount : well_formed (mount initial).
Proof.
  unfold well_formed, started. cbn.
  repeat split; try (intros k [v Hv]; rewrite lookup_empty in Hv; discriminate Hv).
  - intros src Hsrc. now apply not_elem_of_empty in Hsrc.
  - apply Qle_refl.
Qed.

Lemma well_formed_startSession st :
  well_formed st -> well_formed (fst (startSession st)).
Proof.
  open_state st. destruct w as [cs ss ts ns ob cr fr].
  destruct ai; unfold well_formed, started; run_handlers; [| trivial].
  intros (Hc & Hs & Hn & Ht & Hl & Hq). repeat split; below.
Qed.

Lemma well_formed_click_start st :
  well_formed st -> well_formed (fst (click_start st)).
Proof.
  intros H. unfold click_start.
  destruct (negb (isActive st)); [| exact H].
  destruct (status st); try exact H; now apply well_formed_startSession.
Qed.

Lemma well_formed_startSession_resume l granted st :
  well_formed st -> well_formed (fst (startSession_resume l granted st)).
Proof.
  open_state st. destruct w as [cs ss ts ns ob cr fr].
  destruct granted as [[] | e]; unfold well_formed, started; run_handlers;
    intros (Hc & Hs & Hn & Ht & Hl & Hq); repeat split; below.
Qed.

Lemma well_formed_onopen cb st : well_formed st -> well_formed (onopen cb st).
Proof.
  open_state st. destruct w as [cs ss ts ns ob cr fr].
  unfold well_formed, started; run_handlers.
  intros (Hc & Hs & Hn & Ht & Hl & Hq). repeat split; below.
  live_after_insert Hn Hl.
Qed.

Lemma well_formed_set_clock q st :
  (0 <= q)%Q -> well_formed st -> well_formed (set_nextStartTimeRef q st).
Proof.
  intros Hq0. open_state st. unfold well_formed, started; run_handlers.
  intros (Hc & Hs & Hn & Ht & Hl & Hq). repeat split; assumption.
Qed.

Lemma well_formed_play buf st :
  (0 <= duration buf)%Q -> well_formed st -> well_formed (play buf st).
Proof.
  intros Hd. open_state st. destruct w as [cs ss ts ns ob cr fr].
  unfold well_formed, started; run_handlers.
  intros (Hc & Hs & Hn & Ht & Hl & Hq). repeat split; below.
  - intros src Hsrc. apply elem_of_union in Hsrc. destruct Hsrc as [Hsrc | Hsrc].
    + apply elem_of_singleton in Hsrc. subst src.
      eexists _, _, _. apply lookup_insert_eq.
    + revert src Hsrc. live_after_insert Hn Hl.
  - lra.
Qed.

Lemma stop_swallow_frame w src :
  contexts (stop_swallow w src) = contexts w
  /\ streams (stop_swallow w src) = streams w
  /\ timers (stop_swallow w src) = timers w.
Proof.
  unfold stop_swallow, source_stop.
  now destruct (nodes w !! src) as [[s c | c m p | b [t |] f] |].
Qed.

Lemma stop_all_frame l :
  forall w,
    contexts (fold_left stop_swallow l w) = contexts w
    /\ streams (fold_left stop_swallow l w) = streams w
    /\ timers (fold_left stop_swallow l w) = timers w
    /\ fresh (fold_left stop_swallow l w) = fresh w.
Proof.
  induction l as [| src l IH]; intros w; [now repeat split |].
  cbn [fold_left]. destruct (IH (stop_swallow w src)) as (A & B & C & D).
  destruct (stop_swallow_frame w src) as (A' & B' & C').
  rewrite A, B, C, D, A', B', C', stop_swallow_fresh. now repeat split.
Qed.

Lemma well_formed_interrupt st : well_formed st -> well_formed (interrupt st).
Proof.
  intros (Hc & Hs & Hn & Ht & Hl & Hq). unfold well_formed, interrupt.
  cbn [world set_world set_sourcesRef set_nextStartTimeRef sourcesRef
       nextStartTimeRef].
  destruct (stop_all_frame (elements (sourcesRef st)) (world st))
    as (A & B & C & D).
  rewrite A, B, C, D. repeat split; try assumption.
  - intros k Hk. apply Hn. rewrite stop_all_nodes in Hk.
    destruct (decide _); [| exact Hk].
    destruct (nodes (world st) !! k); [eauto | now destruct Hk].
  - intros src Hsrc. now apply not_elem_of_empty in Hsrc.
  - apply Qle_refl.
Qed.

Lemma well_formed_onmessage cb message currentTime st :
  well_formed st -> well_formed (fst (onmessage cb message currentTime st)).
Proof.
  intros H.
  assert (Hq : (0 <= Qmax (nextStartTimeRef st) currentTime)%Q).
  { destruct H as (_ & _ & _ & _ & _ & Hq).
    eapply Qle_trans; [exact Hq | apply Q.le_max_l]. }
  unfold onmessage.
  destruct (inlineData_data message) as [[| c p] |];
    try (destruct (interrupted message); cbn [fst];
         [now apply well_formed_interrupt | exact H]).
  destruct (decode_payload cb (c :: p)) as [buf | e] eqn:D.
  - assert (W : well_formed
                  (play buf (set_nextStartTimeRef
                               (Qmax (nextStartTimeRef st) currentTime) st))).
    { apply well_formed_play; [| now apply well_formed_set_clock].
      apply Qlt_le_weak, (decode_payload_duration cb (c :: p)), D. }
    destruct (interrupted message); cbn [fst];
      [now apply well_formed_interrupt | exact W].
  - cbn [fst]. now apply well_formed_set_clock.
Qed.

Lemma well_formed_source_onended source st :
  well_formed st -> well_formed (source_onended source st).
Proof.
  open_state st. unfold well_formed, started; run_handlers.
  intros (Hc & Hs & Hn & Ht & Hl & Hq). repeat split; try assumption.
  intros src Hsrc. apply Hl. apply elem_of_difference in Hsrc. tauto.
Qed.

Lemma well_formed_audioprocess processor inputData st :
  well_formed st -> well_formed (fst (audioprocess_event processor inputData st)).
Proof.
  intros H. unfold audioprocess_event.
  destruct (nodes (world st) !! processor) as [[s c | [] m p | b t f] |];
    try exact H.
  unfold onaudioprocess. destruct m; [exact H |].
  rewrite createBlob_ok. cbn [fst].
  revert H. apply well_formed_frame.
  open_state st. destruct w as [cs ss ts ns ob cr fr]. now repeat split.
Qed.

Lemma well_formed_toggleMute st : well_formed st -> well_formed (toggleMute st).
Proof. apply well_formed_frame. open_state st. now repeat split. Qed.

Lemma stopScreenShare_rest st :
  timers (world (stopScreenShare st))
  = match screenIntervalRef st with
    | Some t => delete t (timers (world st))
    | None => timers (world st)
    end
  /\ fresh (world (stopScreenShare st)) = fresh (world st).
Proof. open_state st. open_refs; run_handlers; now split. Qed.

Lemma stopSession_rest st :
  fresh (world (stopSession st)) = fresh (world st)
  /\ sourcesRef (stopSession st) = sourcesRef st.
Proof. open_state st. open_refs; run_handlers; now split. Qed.

Lemma well_formed_stopScreenShare st :
  well_formed st -> well_formed (stopScreenShare st).
Proof.
  intros (Hc & Hs & Hn & Ht & Hl & Hq). unfold well_formed, started.
  destruct (stopScreenShare_session st)
    as (_ & _ & _ & _ & _ & _ & _ & _ & _ & Eq & El & Ec & En & _).
  destruct (stopScreenShare_refs st) as (_ & _ & _ & Es).
  destruct (stopScreenShare_rest st) as (Et & Ef).
  rewrite Ec, Es, En, Et, Ef, El, Eq.
  repeat split; below.
  destruct (screenIntervalRef st); below.
Qed.

Lemma well_formed_stopSession st : well_formed st -> well_formed (stopSession st).
Proof.
  intros (Hc & Hs & Hn & Ht & Hl & Hq). unfold well_formed.
  destruct (stopSession_rest st) as (Ef & El).
  destruct (stopSession_refs st) as (_ & _ & _ & _ & _ & _ & _ & _ & _ & _ & Eq & _).
  rewrite stopSession_contexts, stopSession_streams, stopSession_timers,
    Ef, El, Eq.
  repeat split; below.
  - rewrite stopSession_nodes. below.
  - destruct (screenIntervalRef st); below.
  - intros src Hsrc. destruct (Hl src Hsrc) as (b & t & f & E).
    exists b, t, f. rewrite stopSession_nodes. unfold release.
    destruct (sourceRef st), (processorRef st);
      rewrite ?lookup_alter; repeat case_decide; subst;
      rewrite ?lookup_alter; repeat case_decide; subst;
      rewrite ?E; try reflexivity; congruence.
  - apply Qle_refl.
Qed.

Lemma well_formed_startScreenShare_resume granted context2d st :
  well_formed st -> well_formed (startScreenShare_resume granted context2d st).
Proof.
  open_state st. destruct w as [cs ss ts ns ob cr fr].
  destruct granted as [[] | e], vref, cref, context2d;
    unfold well_formed, started; run_handlers;
    cbn [bool_decide decide_rel is_Some_dec option_eq_None_dec];
    intros (Hc & Hs & Hn & Ht & Hl & Hq); repeat split; below.
Qed.

Lemma well_formed_send p blob st :
  well_formed st -> well_formed (set_world (send p blob (world st)) st).
Proof.
  apply well_formed_frame. open_state st. destruct w as [cs ss ts ns ob cr fr].
  now repeat split.
Qed.

Lemma well_formed_tick base64Data st :
  well_formed st -> well_formed (tick base64Data st).
Proof.
  intros H. unfold tick.
  destruct (negb _); [now apply well_formed_stopScreenShare |].
  destruct (sessionPromiseRef st); [now apply well_formed_send | exact H].
Qed.

Lemma well_formed_stop_tracks stream st :
  well_formed st -> well_formed (set_world (stop_tracks stream (world st)) st).
Proof.
  open_state st. destruct w as [cs ss ts ns ob cr fr].
  unfold well_formed, started; run_handlers.
  intros (Hc & Hs & Hn & Ht & Hl & Hq). repeat split; below.
Qed.

Lemma well_formed_handle e st : well_formed st -> well_formed (handle e st).
Proof.
  intros H. destruct e; cbn [handle].
  - now apply well_formed_click_start.
  - now apply well_formed_startSession_resume.
  - now apply well_formed_onopen.
  - now apply well_formed_onmessage.
  - now apply well_formed_stopSession.
  - rewrite onerror_is_onclose. now apply well_formed_stopSession.
  - now apply well_formed_audioprocess.
  - now apply well_formed_source_onended.
  - unfold click_mute. destruct (isActive st); [| exact H].
    now apply well_formed_toggleMute.
  - unfold click_end. destruct (isActive st); [| exact H].
    now apply well_formed_stopSession.
  - unfold click_screen. destruct (isActive st); [| exact H].
    destruct (isScreenSharing st); [now apply well_formed_stopScreenShare |].
    unfold startScreenShare. now destruct (sessionPromiseRef st).
  - now apply well_formed_startScreenShare_resume.
  - unfold interval_event. destruct (timers (world st) !! timer); [| exact H].
    now apply well_formed_tick.
  - unfold track_ended_event.
    destruct (streams (world st) !! stream) as [s |]; [| exact H].
    destruct (active s); [| exact H].
    destruct (onended s); [| now apply well_formed_stop_tracks].
    apply well_formed_stopScreenShare. now apply well_formed_stop_tracks.
  - now apply well_formed_stopSession.
Qed.

Lemma reachable_well_formed st : reachable st -> well_formed st.
Proof.
  induction 1 as [| e st _ IH];
    [apply well_formed_mount | now apply well_formed_handle].
Qed.

End Invariant.

Section Reachable.

Lemma first_session_reachable : reachable first_session.
Proof.
  assert (E : first_session
              = handle (ev_open first_callbacks)
                  (handle (ev_user_media
                             {| inputCtx := 0; outputCtx := 1;
                                render_isMuted := false |} (Ok tt))
                     (handle ev_click_start (mount initial))))
    by (vm_compute; reflexivity).
  rewrite E. repeat apply reachable_handle. apply reachable_mount.
Qed.

Lemma run_messages_reachable cb ms :
  forall st, reachable st -> reachable (run_messages cb ms st).
Proof.
  induction ms as [| [m t] ms IH]; intros st H; [exact H |].
  cbn [run_messages]. apply IH.
  exact (reachable_handle (ev_message cb m t) st H).
Qed.

Lemma live_below_fresh st src :
  well_formed st -> src ∈ sourcesRef st -> (src < fresh (world st))%nat.
Proof.
  intros (_ & _ & Hn & _ & Hl & _) Hsrc.
  destruct (Hl src Hsrc) as (b & t & f & E). apply Hn. eauto.
Qed.

End Reachable.

(** X19: in every state the component can reach, no audio context, stream,
    node or timer exists at or above the identifier counter, so a new object
    never takes the place of an existing one; and the playback clock is not
    negative. *)
Theorem reachable_identifiers_fresh (st : State) :
  reachable st ->
  (forall k, (fresh (world st) <= k)%nat ->
             contexts (world st) !! k = None
             /\ streams (world st) !! k = None
             /\ nodes (world st) !! k = None
             /\ timers (world st) !! Pos.of_succ_nat k = None)
  /\ (0 <= nextStartTimeRef st)%Q.
Proof.
  intros H. destruct (reachable_well_formed st H) as (Hc & Hs & Hn & Ht & _ & Hq).
  split; [| exact Hq]. intros k Hk.
  repeat split; apply eq_None_not_Some; intros X.
  - apply Hc in X. lia.
  - apply Hs in X. lia.
  - apply Hn in X. lia.
  - apply Ht in X. rewrite SuccNat2Pos.id_succ in X. lia.
Qed.

Lemma reachable_identifiers_fresh_witness :
  reachable first_session
  /\ fresh (world first_session) = 6%nat
  /\ nodes (world first_session) !! 6%nat = None
  /\ (0 <= nextStartTimeRef first_session)%Q.
Proof.
  destruct (reachable_identifiers_fresh first_session first_session_reachable)
    as (A & B).
  split; [exact first_session_reachable |]. split; [vm_compute; reflexivity |].
  split; [| exact B].
  apply (A 6%nat). vm_compute. repeat constructor.
Defined.

(** X20: in every reachable state each member of the live set is a buffer
    source on which [start] has been called, so [stop] on it does not throw:
    the interruption never has an exception to swallow. *)
Theorem live_sources_stop_cleanly (st : State) (src : nat) :
  reachable st ->
  src ∈ sourcesRef st ->
  started (world st) src
  /\ exists w, source_stop src (world st) = Ok w.
Proof.
  intros H Hsrc.
  destruct (reachable_well_formed st H) as (_ & _ & _ & _ & Hl & _).
  destruct (Hl src Hsrc) as (b & t & f & E).
  split; [exists b, t, f; exact E |].
  unfold source_stop. rewrite E. eauto.
Qed.

Lemma live_sources_stop_cleanly_witness :
  let st :=
    run_messages first_callbacks
      [frame_message (silence 2 0); frame_message (silence 1 0)] first_session in
  reachable st
  /\ 7%nat ∈ sourcesRef st
  /\ exists w, source_stop 7 (world st) = Ok w.
Proof.
  intros st.
  assert (R : reachable st)
    by (apply run_messages_reachable, first_session_reachable).
  assert (M : 7%nat ∈ sourcesRef st)
    by (apply (bool_decide_unpack _); vm_compute; exact I).
  split; [exact R |]. split; [exact M |].
  exact (proj2 (live_sources_stop_cleanly st 7%nat R M)).
Defined.

(** X21: when the source of an audio message ends, the live set is what it
    was before the message. *)
Theorem ended_source_leaves_live_set (cb : Callbacks) (p : list Z)
    (currentTime : Q) (buf : AudioBuffer) (st : State) :
  reachable st ->
  p <> [] ->
  decode_payload cb p = Ok buf ->
  let st' := fst (onmessage cb (audio_message p) currentTime st) in
  fresh (world st) ∈ sourcesRef st'
  /\ sourcesRef (source_onended (fresh (world st)) st') = sourcesRef st.
Proof.
  intros H Hp Hd. cbv zeta. rewrite (onmessage_audio cb _ _ _ _ Hp Hd).
  cbn [fst].
  set (st0 := set_nextStartTimeRef (Qmax (nextStartTimeRef st) currentTime) st).
  assert (Ef : fresh (world st0) = fresh (world st)) by (now destruct st).
  assert (Es : sourcesRef st0 = sourcesRef st) by (now destruct st).
  assert (Eo : sourcesRef (source_onended (fresh (world st)) (play buf st0))
               = sourcesRef (play buf st0) ∖ {[ fresh (world st) ]})
    by (now destruct (play buf st0)).
  assert (Hfresh : fresh (world st) ∉ sourcesRef st).
  { intros Hin. apply (live_below_fresh st) in Hin;
      [lia | now apply reachable_well_formed]. }
  rewrite Eo, play_sources, Ef, Es. split.
  - apply elem_of_union. left. now apply elem_of_singleton.
  - apply set_eq. intros x.
    rewrite elem_of_difference, elem_of_union, elem_of_singleton.
    split; [intros [[-> | Hx] Hne]; [congruence | exact Hx] |].
    intros Hx. split; [now right | congruence].
Qed.

Lemma ended_source_leaves_live_set_witness :
  reachable first_session
  /\ payload (silence 2 0) <> []
  /\ decode_payload first_callbacks (payload (silence 2 0))
     = Ok (decoded (silence 2 0))
  /\ sourcesRef
       (source_onended (fresh (world first_session))
          (fst (onmessage first_callbacks (audio_message (payload (silence 2 0)))
                  0 first_session)))
     = sourcesRef first_session.
Proof.
  assert (D : decodable first_callbacks (silence 2 0))
    by (apply silence_decodable; lia).
  destruct D as [N D].
  split; [exact first_session_reachable |]. split; [exact N |].
  split; [exact D |].
  exact (proj2 (ended_source_leaves_live_set first_callbacks _ 0%Q _ first_session
                  first_session_reachable N D)).
Defined.

(** ** A run of capture blocks *)

Section CaptureRun.

Lemma audioprocess_nodes processor inputData st :
  nodes (world (fst (audioprocess_event processor inputData st)))
  = nodes (world st).
Proof.
  unfold audioprocess_event.
  destruct (nodes (world st) !! processor) as [[s c | [] m p | b t f] |];
    try reflexivity.
  unfold onaudioprocess. destruct m; [reflexivity |].
  rewrite createBlob_ok. now destruct st as [? ? ? ? ? ? ? ? ? ? ? ? ? ? ? ? ? ? []].
Qed.

End CaptureRun.

(** X22: over a run of blocks, a connected processor whose handler was built
    unmuted hands the transport one message per block, in arrival order,
    each the blob [createBlob] makes of its block; one built muted hands it
    nothing. *)
Theorem capture_one_message_per_block (processor : nat) (m : bool)
    (sessionPromise : nat) (blocks : list (list num)) (st : State) :
  nodes (world st) !! processor
  = Some (ScriptProcessorNode true m sessionPromise) ->
  (forall inputData, createBlob inputData = Ok (pcm_blob inputData))
  /\ outbox (world (capture_blocks processor blocks st))
     = if m then outbox (world st)
       else rev (map (fun inputData => (sessionPromise, pcm_blob inputData)) blocks)
            ++ outbox (world st).
Proof.
  intros Hn. split; [exact createBlob_ok |].
  revert st Hn. induction blocks as [| inputData blocks IH]; intros st Hn.
  - now destruct m.
  - change (capture_blocks processor (inputData :: blocks) st)
      with (capture_blocks processor blocks
              (fst (audioprocess_event processor inputData st))).
    rewrite IH by (now rewrite audioprocess_nodes).
    rewrite (audioprocess_outbox _ _ _ _ _ Hn).
    destruct m; [reflexivity |].
    cbn [map rev]. rewrite <- app_assoc. reflexivity.
Qed.

Lemma capture_one_message_per_block_witness :
  nodes (world first_session) !! 5%nat = Some (ScriptProcessorNode true false 3)
  /\ outbox (world (capture_blocks 5 [[Fin (1 # 2)]; [NaN; Fin 1]] first_session))
     = [(3%nat, pcm_blob [NaN; Fin 1]); (3%nat, pcm_blob [Fin (1 # 2)])].
Proof.
  assert (N : nodes (world first_session) !! 5%nat
              = Some (ScriptProcessorNode true false 3))
    by (vm_compute; reflexivity).
  split; [exact N |].
  rewrite (proj2 (capture_one_message_per_block 5%nat false 3%nat
                    [[Fin (1 # 2)]; [NaN; Fin 1]] first_session N)).
  vm_compute. reflexivity.
Defined.

(** X23: [stopSession] ends playback through the output context only: it
    closes the context it holds, but it calls [stop] on no scheduled source
    and does not clear the live set, so that the sources scheduled before
    the teardown are still in [sourcesRef] after it, each as it was. *)
Theorem stopSession_keeps_live_sources (st : State) :
  sourcesRef (stopSession st) = sourcesRef st
  /\ (forall src b t f,
        nodes (world st) !! src = Some (AudioBufferSourceNode b t f) ->
        nodes (world (stopSession st)) !! src
        = Some (AudioBufferSourceNode b t f))
  /\ (forall ctx c,
        audioContextRef st = Some ctx ->
        contexts (world st) !! ctx = Some c ->
        contexts (world (stopSession st)) !! ctx
        = Some {| ctx_sampleRate := ctx_sampleRate c; ctx_closed := true |}).
Proof.
  split; [exact (proj2 (stopSession_rest st)) |]. split.
  - intros src b t f E. rewrite stopSession_nodes. unfold release.
    destruct (sourceRef st), (processorRef st);
      rewrite ?lookup_alter; repeat case_decide; subst;
      rewrite ?lookup_alter; repeat case_decide; subst;
      rewrite ?E; try reflexivity; congruence.
  - intros ctx c Ha E. rewrite stopSession_contexts, Ha. unfold release.
    destruct (inputAudioContextRef st) as [i |].
    + rewrite lookup_alter. case_decide; subst; rewrite lookup_alter_eq, E;
        reflexivity.
    + now rewrite lookup_alter_eq, E.
Qed.

Lemma stopSession_keeps_live_sources_witness :
  let st :=
    run_messages first_callbacks [frame_message (silence 2 0)] first_session in
  (6%nat ∈ sourcesRef st
   /\ nodes (world st) !! 6%nat
      = Some (AudioBufferSourceNode (decoded (silence 2 0)) (Some 0%Q) false)
   /\ audioContextRef st = Some 1%nat
   /\ contexts (world st) !! 1%nat
      = Some {| ctx_sampleRate := 24000; ctx_closed := false |})
  /\ 6%nat ∈ sourcesRef (stopSession st)
  /\ nodes (world (stopSession st)) !! 6%nat
     = Some (AudioBufferSourceNode (decoded (silence 2 0)) (Some 0%Q) false)
  /\ contexts (world (stopSession st)) !! 1%nat
     = Some {| ctx_sampleRate := 24000; ctx_closed := true |}.
Proof.
  intros st.
  assert (M : 6%nat ∈ sourcesRef st)
    by (apply (bool_decide_unpack _); vm_compute; exact I).
  assert (N : nodes (world st) !! 6%nat
              = Some (AudioBufferSourceNode (decoded (silence 2 0)) (Some 0%Q) false))
    by (vm_compute; reflexivity).
  assert (A : audioContextRef st = Some 1%nat) by (vm_compute; reflexivity).
  assert (C : contexts (world st) !! 1%nat
              = Some {| ctx_sampleRate := 24000; ctx_closed := false |})
    by (vm_compute; reflexivity).
  destruct (stopSession_keeps_live_sources st) as (S1 & S2 & S3).
  split; [repeat split; assumption |].
  split; [rewrite S1; exact M |].
  split; [exact (S2 6%nat _ _ _ N) | exact (S3 1%nat _ A C)].
Defined.
